(** * html-allowlist: the policy-driven filtering engine of
      [src/sanitize.node.ts], embedded in Rocq.

    Layout of the development:
    - [JS]: the fragment of the JavaScript string library the engine calls
      (strings are sequences of UTF-16 code units);
    - [Dom], [Css]: the element tree and the style sheet tree the engine
      mutates, with element handles standing for object identity; the tree
      is the one happy-dom builds, where the nodes of a template element
      live in a content fragment that selectors do not reach;
    - the collaborators interface (tree parser and serializer, general
      sanitizer, CSS parser and serializer, CSS value parser);
    - the engine itself, function by function, under the names of the source;
    - the properties: those the specification claims, then further ones. *)

From Stdlib Require Import NArith ZArith String Ascii.
From stdpp Require Import base option list gmap sets.

Local Open Scope N_scope.

(** ** JavaScript strings *)

Module JS.

(** A JavaScript string is a sequence of UTF-16 code units. *)
Abbreviation jsstring := (list N).

(** String literals of the source, written in ASCII. *)
Definition lit (s : string) : jsstring :=
  N_of_ascii <$> list_ascii_of_string s.

Definition inRange (lo hi c : N) : bool := (lo <=? c) && (c <=? hi).

(** ECMAScript WhiteSpace and LineTerminator: what [String.prototype.trim]
    strips and what the regular expression class [\s] matches. *)
Definition isWhiteSpace (c : N) : bool :=
  inRange 0x09 0x0D c || (c =? 0x20) || (c =? 0xA0) || (c =? 0x1680)
  || inRange 0x2000 0x200A c || (c =? 0x2028) || (c =? 0x2029)
  || (c =? 0x202F) || (c =? 0x205F) || (c =? 0x3000) || (c =? 0xFEFF).

(** Case mapping of one code unit. Basic Latin and Latin-1 are mapped as
    [String.prototype.toLowerCase] does; code units above U+00FF are left
    as they are. *)
Definition lowerUnit (c : N) : N :=
  if inRange 0x41 0x5A c || (inRange 0xC0 0xDE c && negb (c =? 0xD7))
  then c + 0x20 else c.

Definition toLowerCase (s : jsstring) : jsstring := lowerUnit <$> s.

Fixpoint dropWhile (p : N -> bool) (s : jsstring) : jsstring :=
  match s with
  | [] => []
  | c :: r => if p c then dropWhile p r else s
  end.

Fixpoint takeWhile (p : N -> bool) (s : jsstring) : jsstring :=
  match s with
  | [] => []
  | c :: r => if p c then c :: takeWhile p r else []
  end.

(** [s.trim()] *)
Definition trim (s : jsstring) : jsstring :=
  rev (dropWhile isWhiteSpace (rev (dropWhile isWhiteSpace s))).

(** [s.split(sep)] for a separator of one code unit: never empty, and the
    empty string splits into one empty part. *)
Fixpoint split (sep : N) (s : jsstring) : list jsstring :=
  match s with
  | [] => [[]]
  | c :: r =>
      if c =? sep then [] :: split sep r
      else match split sep r with
           | [] => [[c]]
           | p :: ps => (c :: p) :: ps
           end
  end.

(** [s.startsWith(p)] *)
Fixpoint startsWith (p s : jsstring) : bool :=
  match p, s with
  | [], _ => true
  | _ :: _, [] => false
  | a :: p', b :: s' => (a =? b) && startsWith p' s'
  end.

(** What follows the prefix [p] in [s], when [s] starts with [p]. *)
Fixpoint stripPrefix (p s : jsstring) : option jsstring :=
  match p, s with
  | [], _ => Some s
  | _ :: _, [] => None
  | a :: p', b :: s' => if a =? b then stripPrefix p' s' else None
  end.

(** [parts.join(sep)] *)
Fixpoint join (sep : jsstring) (parts : list jsstring) : jsstring :=
  match parts with
  | [] => []
  | [p] => p
  | p :: ps => p ++ sep ++ join sep ps
  end.

(** String equality [a === b] on strings. *)
Definition eqb (a b : jsstring) : bool := bool_decide (a = b).

Definition isHexDigit (c : N) : bool :=
  inRange 0x30 0x39 c || inRange 0x61 0x66 c || inRange 0x41 0x46 c.

Definition digitValue (radix c : N) : option N :=
  let v := if inRange 0x30 0x39 c then Some (c - 0x30)
           else if inRange 0x61 0x66 c then Some (c - 0x61 + 10)
           else if inRange 0x41 0x46 c then Some (c - 0x41 + 10)
           else None in
  match v with
  | Some d => if d <? radix then Some d else None
  | None => None
  end.

Fixpoint parseDigits (radix : N) (acc : N) (s : jsstring) : N :=
  match s with
  | [] => acc
  | c :: r =>
      match digitValue radix c with
      | Some d => parseDigits radix (acc * radix + d) r
      | None => acc
      end
  end.

(** [parseInt(s, radix)] on the strings the engine passes to it, which hold
    hexadecimal digits only (no sign, white space or [0x] prefix): the value
    of the longest prefix of digits of the radix, [None] (NaN) when that
    prefix is empty. Values are exact; the engine only compares them with
    0x10FFFF, where the rounding of a double makes no difference. *)
Definition parseInt (s : jsstring) (radix : N) : option N :=
  match s with
  | [] => None
  | c :: _ =>
      match digitValue radix c with
      | Some _ => Some (parseDigits radix 0 s)
      | None => None
      end
  end.

(** [String.fromCodePoint(cp)] for [cp <= 0x10FFFF]. *)
Definition fromCodePoint (cp : N) : jsstring :=
  if cp <=? 0xFFFF then [cp]
  else let v := cp - 0x10000 in [0xD800 + v / 0x400; 0xDC00 + v mod 0x400].

End JS.

Import JS.

(** ** Policies and the rule compiler *)

Record SanitizerConfig := {
  allowCommonAttributes : option bool;
  allowJavaScript : option bool;
  maxPasses : option Z
}.

(** [{}], the default value of the [config] argument. *)
Definition emptyConfig : SanitizerConfig :=
  {| allowCommonAttributes := None; allowJavaScript := None; maxPasses := None |}.

(** Occurrence counts are the naturals [compileRules] builds by repeated
    [+ 1] from zero. *)
Record CompiledPolicy := {
  tagCounts : gmap jsstring nat;
  attrAllowlist : gmap jsstring (gset jsstring);
  styleAllowlist : gmap jsstring (gset jsstring);
  config : SanitizerConfig
}.

Definition COMMON_GLOBAL_ATTRS : list jsstring := [lit "class"; lit "id"].

(** [COMMON_ATTRS[tag]], read as a table of exactly three keys. The object
    of the source also answers to the names it inherits ([constructor] and
    [__proto__] among the lower-case ones), with a value the loop over it
    rejects by a [TypeError]; elements of those names are outside what the
    engine is modelled on. *)
Definition COMMON_ATTRS (tag : jsstring) : option (list jsstring) :=
  if eqb tag (lit "a") then Some [lit "href"; lit "title"; lit "target"; lit "rel"]
  else if eqb tag (lit "img") then
    Some [lit "src"; lit "alt"; lit "title"; lit "width"; lit "height"]
  else if eqb tag (lit "html") then Some [lit "lang"]
  else None.

Definition COMMON_ATTRS_values : list (list jsstring) :=
  [[lit "href"; lit "title"; lit "target"; lit "rel"];
   [lit "src"; lit "alt"; lit "title"; lit "width"; lit "height"];
   [lit "lang"]].

Definition STRUCTURAL_TAGS : list jsstring := [lit "html"; lit "head"; lit "body"].

Definition isStructuralTag (tag : jsstring) : bool :=
  bool_decide (tag ∈ STRUCTURAL_TAGS).

Definition URL_ATTRS : list jsstring :=
  [lit "href"; lit "src"; lit "xlink:href"; lit "action"; lit "formaction";
   lit "poster"; lit "srcset"; lit "data"; lit "codebase"; lit "archive";
   lit "cite"; lit "longdesc"; lit "usemap"; lit "background"; lit "profile";
   lit "icon"; lit "manifest"].

(** The code unit of ["|"]. *)
Definition pipe : N := 124.

(** [!s] on a string: the empty string is the only falsy one. *)
Definition isEmpty (s : jsstring) : bool :=
  match s with [] => true | _ => false end.

(** [set.add(x)] on the set stored under [key], created when missing. *)
Definition addTo (key x : jsstring) (m : gmap jsstring (gset jsstring))
  : gmap jsstring (gset jsstring) :=
  <[key := {[x]} ∪ default ∅ (m !! key)]> m.

(** One iteration of the loop of [compileRules]. *)
Definition compileRule (acc : CompiledPolicy) (rule : jsstring) : CompiledPolicy :=
  let parts := trim <$> split pipe rule in
  match parts with
  | [p0] =>
      let tag := toLowerCase p0 in
      if isEmpty tag then acc
      else {| tagCounts :=
                <[tag := (default 0%nat (tagCounts acc !! tag) + 1)%nat]> (tagCounts acc);
              attrAllowlist := attrAllowlist acc;
              styleAllowlist := styleAllowlist acc;
              config := config acc |}
  | [p0; p1] =>
      let tag := toLowerCase p0 in
      let attr := toLowerCase p1 in
      if isEmpty tag || isEmpty attr then acc
      else {| tagCounts := tagCounts acc;
              attrAllowlist := addTo tag attr (attrAllowlist acc);
              styleAllowlist := styleAllowlist acc;
              config := config acc |}
  | [p0; p1; p2] =>
      if eqb (toLowerCase p0) (lit "style") then
        let selector := p1 in
        let property := toLowerCase p2 in
        if isEmpty selector || isEmpty property then acc
        else {| tagCounts := tagCounts acc;
                attrAllowlist := attrAllowlist acc;
                styleAllowlist := addTo selector property (styleAllowlist acc);
                config := config acc |}
      else acc
  | _ => acc
  end.

Definition compileRules (rules : list jsstring) (config : SanitizerConfig)
  : CompiledPolicy :=
  foldl compileRule
    {| tagCounts := ∅; attrAllowlist := ∅; styleAllowlist := ∅; config := config |}
    rules.

(** ** The element tree *)

Module Dom.

(** A node of the parsed document. An element carries a handle, which stands
    for the identity of the JavaScript object: the traversal keeps handles in
    its snapshot and looks them up in the tree as it is now.

    The last field of an element holds the nodes [element.firstChild] walks
    and [outerHTML] prints. For every element but a template element these
    are its child nodes. A template element has no child nodes of its own in
    happy-dom: the parser appends to its content fragment, and [firstChild],
    [insertBefore] and the serializer are redirected there. For a template
    element the field holds the nodes of that fragment. *)
#[warning="-register-all"]
Inductive node :=
| Text (data : jsstring)
| Comment (data : jsstring)
| Element (handle : nat) (tagName : jsstring)
          (attributes : list (jsstring * jsstring)) (nodes : list node).

(** A document is the list of child nodes of the document node. *)
Abbreviation forest := (list node).

(** The element is a template element. *)
Definition isTemplate (tagName : jsstring) : bool :=
  eqb (toLowerCase tagName) (lit "template").

(** Handles of all elements below the document node, in document order,
    those inside the content of template elements included. *)
Fixpoint handlesOf (n : node) : list nat :=
  match n with
  | Element h _ _ c => h :: flat_map handlesOf c
  | _ => []
  end.

Definition elements (d : forest) : list nat := flat_map handlesOf d.

(** [[root, ...root.querySelectorAll("*")]] for a document with one root:
    the elements in document order, without those inside the content of a
    template element, which is no child of it and which a selector does not
    reach. *)
Fixpoint snapshotOf (n : node) : list nat :=
  match n with
  | Element h t _ c => h :: (if isTemplate t then [] else flat_map snapshotOf c)
  | _ => []
  end.

Definition snapshot (d : forest) : list nat := flat_map snapshotOf d.

(** The elements the snapshot leaves out: those inside the content of a
    template element, at any depth. *)
Definition hidden (d : forest) : list nat :=
  List.filter (fun h => negb (bool_decide (h ∈ snapshot d))) (elements d).

(** The connected element with handle [h], if any: [element.isConnected]
    holds exactly when there is one. *)
Fixpoint findNode (h : nat) (n : node) : option node :=
  match n with
  | Element h' _ _ c =>
      if Nat.eqb h h' then Some n
      else (fix go (l : list node) : option node :=
              match l with
              | [] => None
              | x :: r => match findNode h x with
                          | Some y => Some y
                          | None => go r
                          end
              end) c
  | _ => None
  end.

Fixpoint findElement (h : nat) (d : forest) : option node :=
  match d with
  | [] => None
  | x :: r => match findNode h x with
              | Some y => Some y
              | None => findElement h r
              end
  end.

(** Replace the element with handle [h] by the nodes [f] makes of it. *)
Fixpoint substNode (h : nat) (f : node -> list node) (n : node) : list node :=
  match n with
  | Element h' t a c =>
      if Nat.eqb h h' then f n
      else [Element h' t a (flat_map (substNode h f) c)]
  | _ => [n]
  end.

Definition subst (h : nat) (f : node -> list node) (d : forest) : forest :=
  flat_map (substNode h f) d.

(** [element.remove()]: the element leaves the tree with its subtree. *)
Definition remove (h : nat) (d : forest) : forest := subst h (fun _ => []) d.

Definition childrenOf (n : node) : list node :=
  match n with
  | Element _ _ _ c => c
  | _ => []
  end.

(** [unwrapElement(element)] on a connected element, whose parent is never
    null: the nodes [element.firstChild] yields, one after the other, take
    its place, in order. For a template element these are the nodes of its
    content, which thereby enter the tree. *)
Definition unwrapElement (h : nat) (d : forest) : forest := subst h childrenOf d.

(** Run [f] on the attribute list of the element. *)
Definition withAttributes (h : nat)
    (f : list (jsstring * jsstring) -> list (jsstring * jsstring)) (d : forest) : forest :=
  subst h (fun n => match n with
                    | Element h' t a c => [Element h' t (f a) c]
                    | _ => [n]
                    end) d.

(** [node.textContent] of an element: the text of its descendants. The
    content of a template element is not among them. *)
Fixpoint textOf (n : node) : jsstring :=
  match n with
  | Text s => s
  | Comment _ => []
  | Element _ t _ c => if isTemplate t then [] else flat_map textOf c
  end.

Definition textContent (n : node) : jsstring :=
  match n with
  | Element _ t _ c => if isTemplate t then [] else flat_map textOf c
  | _ => []
  end.

(** [element.textContent = s] for a non-empty [s]: one text child. *)
Definition setTextContent (h : nat) (s : jsstring) (d : forest) : forest :=
  subst h (fun n => match n with
                    | Element h' t a _ => [Element h' t a [Text s]]
                    | _ => [n]
                    end) d.

(** [element.removeAttribute(name)]. Names are compared as they are: the
    loop of [filterAttributes] passes [attr.name] itself, which the element
    holds. *)
Fixpoint removeAttribute (name : jsstring) (attrs : list (jsstring * jsstring))
  : list (jsstring * jsstring) :=
  match attrs with
  | [] => []
  | a :: r => if eqb (fst a) name then r else a :: removeAttribute name r
  end.

(** [element.setAttribute(name, value)] *)
Fixpoint setAttribute (name value : jsstring) (attrs : list (jsstring * jsstring))
  : list (jsstring * jsstring) :=
  match attrs with
  | [] => [(name, value)]
  | a :: r => if eqb (fst a) name then (name, value) :: r
              else a :: setAttribute name value r
  end.

(** All elements of the tree, as (handle, tag name, attributes), those
    inside the content of template elements included. *)
Fixpoint elementsOf (n : node) : list (nat * jsstring * list (jsstring * jsstring)) :=
  match n with
  | Element h t a c => (h, t, a) :: flat_map elementsOf c
  | _ => []
  end.

Definition allElements (d : forest) : list (nat * jsstring * list (jsstring * jsstring)) :=
  flat_map elementsOf d.

(** The elements of a tree, as nodes. *)
Fixpoint subnodesOf (n : node) : list node :=
  match n with
  | Element _ _ _ c => n :: flat_map subnodesOf c
  | _ => []
  end.

Definition subnodes (d : forest) : list node := flat_map subnodesOf d.

Definition handleOf (n : node) : nat :=
  match n with
  | Element h _ _ _ => h
  | _ => 0%nat
  end.

End Dom.

(** ** The style sheet tree *)

Module Css.

(** Nodes of a parsed style sheet. A rule carries a handle, for the same
    reason an element does. *)
#[warning="-register-all"]
Inductive node :=
| Decl (prop value : jsstring)
| Rule (handle : nat) (selector : jsstring) (nodes : list node)
| AtRule (name params : jsstring) (nodes : list node)
| Comment (text : jsstring).

Abbreviation root := (list node).

(** Nodes of a parsed declaration value; only a function has children. *)
#[warning="-register-all"]
Inductive vnode :=
| Function (value : jsstring) (nodes : list vnode)
| Other (type value : jsstring).

(** [root.walkAtRules(atRule => atRule.remove())]: no at-rule is left, at
    any depth. *)
Fixpoint dropAtRules (n : node) : list node :=
  match n with
  | AtRule _ _ _ => []
  | Rule h s c => [Rule h s (flat_map dropAtRules c)]
  | _ => [n]
  end.

Definition removeAtRules (r : root) : root := flat_map dropAtRules r.

(** Handles of the rules [root.walkRules] visits, in its order. *)
Fixpoint ruleHandlesOf (n : node) : list nat :=
  match n with
  | Rule h _ c => h :: flat_map ruleHandlesOf c
  | AtRule _ _ c => flat_map ruleHandlesOf c
  | _ => []
  end.

Definition walkRules (r : root) : list nat := flat_map ruleHandlesOf r.

(** The attached rule with handle [h], if any: its selector and children. *)
Fixpoint findRule (h : nat) (n : node) : option (jsstring * list node) :=
  let fix go (l : list node) : option (jsstring * list node) :=
    match l with
    | [] => None
    | x :: r => match findRule h x with
                | Some y => Some y
                | None => go r
                end
    end in
  match n with
  | Rule h' s c => if Nat.eqb h h' then Some (s, c) else go c
  | AtRule _ _ c => go c
  | _ => None
  end.

Fixpoint findInRoot (h : nat) (r : root) : option (jsstring * list node) :=
  match r with
  | [] => None
  | x :: rest => match findRule h x with
                 | Some y => Some y
                 | None => findInRoot h rest
                 end
  end.

(** Put the nodes [news] where the rule with handle [h] is. With [news]
    the rules built for it this is [rule.before(newRule)] for each of them
    followed by [rule.remove()]. *)
Fixpoint substNode (h : nat) (news : list node) (n : node) : list node :=
  match n with
  | Rule h' s c =>
      if Nat.eqb h h' then news
      else [Rule h' s (flat_map (substNode h news) c)]
  | AtRule a p c => [AtRule a p (flat_map (substNode h news) c)]
  | _ => [n]
  end.

Definition subst (h : nat) (news : list node) (r : root) : root :=
  flat_map (substNode h news) r.

(** A handle no rule of the tree has. *)
Fixpoint maxHandle (n : node) : nat :=
  match n with
  | Rule h _ c => Nat.max h (foldr Nat.max 0%nat (maxHandle <$> c))
  | AtRule _ _ c => foldr Nat.max 0%nat (maxHandle <$> c)
  | _ => 0%nat
  end.

Definition freshHandle (r : root) : nat := S (foldr Nat.max 0%nat (maxHandle <$> r)).

(** [valueParser(value).walk(cb)] with the callback of [isSafeCssValue]:
    is a function node named [url] visited. The walk enters the children of
    function nodes only, and not those of a node the callback returned
    [false] for. *)
Fixpoint visitsUrl (n : vnode) : bool :=
  match n with
  | Function v c => if eqb (toLowerCase v) (lit "url") then true else existsb visitsUrl c
  | Other _ _ => false
  end.

End Css.

(** ** Collaborators

    The tree parser and serializer, the general sanitizer, the CSS parser and
    serializer and the CSS value parser are libraries the engine calls; the
    engine is defined, and its properties are proved, for any of them. *)

Class Collaborators := {
  (** [new DOMParser().parseFromString(html, "text/html")] *)
  parseFromString : jsstring -> Dom.forest;
  (** [doc.documentElement.outerHTML] *)
  outerHTML : Dom.forest -> jsstring;
  (** [purifier.sanitize(html, { ALLOWED_TAGS, ALLOWED_ATTR, WHOLE_DOCUMENT: true })] *)
  purifierSanitize : gset jsstring -> gset jsstring -> jsstring -> jsstring;
  (** [postcss.parse(css)]; [None] when it throws *)
  postcssParse : jsstring -> option Css.root;
  (** [root.toString()] *)
  postcssToString : Css.root -> jsstring;
  (** [rule.selectors], the selector list of a rule split at its commas *)
  ruleSelectors : jsstring -> list jsstring;
  (** [valueParser(value).nodes] *)
  valueParser : jsstring -> list Css.vnode
}.

(** ** The engine *)

Section Engine.

Context {env : Collaborators}.

(** *** URL danger check *)

(** The class [[\u0000-\u001F\u007F\s]] *)
Definition isControlOrSpace (c : N) : bool :=
  inRange 0x00 0x1F c || (c =? 0x7F) || isWhiteSpace c.

(** [s.replace(/[\u0000-\u001F\u007F\s]+/g, empty)]: every run of the class
    is replaced by the empty string. *)
Fixpoint removeControlAndSpace (s : jsstring) : jsstring :=
  match s with
  | [] => []
  | c :: r => if isControlOrSpace c then removeControlAndSpace r
              else c :: removeControlAndSpace r
  end.

(** A match of [/&#(x?[0-9a-fA-F]+);?/] at the head of [s]: the matched text,
    the group [raw] and what follows the match. Both quantifiers are greedy,
    and giving up the [x] can never help, since [x] is no hexadecimal digit. *)
Definition matchReference (s : jsstring) : option (jsstring * jsstring * jsstring) :=
  match stripPrefix (lit "&#") s with
  | None => None
  | Some r =>
      let x := match stripPrefix (lit "x") r with Some _ => lit "x" | None => [] end in
      let r1 := match stripPrefix (lit "x") r with Some r' => r' | None => r end in
      let digits := takeWhile isHexDigit r1 in
      let r2 := dropWhile isHexDigit r1 in
      if isEmpty digits then None
      else
        let raw := x ++ digits in
        match stripPrefix (lit ";") r2 with
        | Some r3 => Some (lit "&#" ++ raw ++ lit ";", raw, r3)
        | None => Some (lit "&#" ++ raw, raw, r2)
        end
  end.

(** The replacement callback of [decodeNumericCharacterReferences]. *)
Definition decodeReference (match_ raw : jsstring) : jsstring :=
  let codePoint :=
    if startsWith (lit "x") (toLowerCase raw) then parseInt (drop 1 raw) 16
    else parseInt raw 10 in
  match codePoint with
  | None => match_
  | Some cp => if 0x10ffff <? cp then match_ else fromCodePoint cp
  end.

(** [value.replace(/&#(x?[0-9a-fA-F]+);?/g, callback)], scanning from the
    left; [fuel] bounds the number of steps, each of which consumes at least
    one code unit. *)
Fixpoint decodeFrom (fuel : nat) (s : jsstring) : jsstring :=
  match fuel with
  | O => s
  | S fuel' =>
      match s with
      | [] => []
      | c :: r =>
          match matchReference s with
          | Some (m, raw, rest) => decodeReference m raw ++ decodeFrom fuel' rest
          | None => c :: decodeFrom fuel' r
          end
      end
  end.

Definition decodeNumericCharacterReferences (value : jsstring) : jsstring :=
  decodeFrom (length value) value.

Definition isDangerousUrl (value : jsstring) : bool :=
  let decoded := decodeNumericCharacterReferences value in
  let compact := toLowerCase (removeControlAndSpace decoded) in
  startsWith (lit "javascript:") compact || startsWith (lit "data:") compact.

(** [entry.trim().split(/\s+/)[0]]: the trimmed entry up to its first white
    space. *)
Definition leadingToken (entry : jsstring) : jsstring :=
  takeWhile (fun c => negb (isWhiteSpace c)) (trim entry).

Definition isDangerousSrcset (value : jsstring) : bool :=
  existsb (fun entry =>
             let urlPart := leadingToken entry in
             if isEmpty urlPart then false else isDangerousUrl urlPart)
          (split 44 value).

Definition isDangerousUrlValue (attrName value : jsstring) : bool :=
  if eqb attrName (lit "srcset") then isDangerousSrcset value
  else isDangerousUrl value.

(** *** CSS filter *)

Definition isSafeCssValue (value : jsstring) : bool :=
  negb (existsb Css.visitsUrl (valueParser value)).

(** The test both CSS filters apply to a node of a rule. *)
Definition keepsDecl (allowedProps : gset jsstring) (n : Css.node) : bool :=
  match n with
  | Css.Decl prop value =>
      bool_decide (toLowerCase (trim prop) ∈ allowedProps) && isSafeCssValue value
  | _ => false
  end.

(** The declarations [filterInlineStyle] pushes, before they are joined. *)
Definition inlineDecls (allowedProps : gset jsstring) (nodes : list Css.node)
  : list (jsstring * jsstring) :=
  flat_map (fun n => match n with
                     | Css.Decl prop value =>
                         if keepsDecl allowedProps n
                         then [(toLowerCase (trim prop), trim value)] else []
                     | _ => []
                     end) nodes.

Definition inlineAllowedProps (tag : jsstring)
    (styleAllowlist : gmap jsstring (gset jsstring)) : gset jsstring :=
  default ∅ (styleAllowlist !! lit "*") ∪ default ∅ (styleAllowlist !! tag).

(** [root.nodes.find(node => node.type === "rule")] *)
Fixpoint firstRule (r : Css.root) : option (list Css.node) :=
  match r with
  | [] => None
  | Css.Rule _ _ c :: _ => Some c
  | _ :: rest => firstRule rest
  end.

Definition filterInlineStyle (tag value : jsstring)
    (styleAllowlist : gmap jsstring (gset jsstring)) : jsstring :=
  let allowedProps := inlineAllowedProps tag styleAllowlist in
  if bool_decide (size allowedProps = 0%nat) then []
  else
    match postcssParse (lit "a{" ++ value ++ lit "}") with
    | None => []
    | Some root =>
        match firstRule root with
        | None => []
        | Some nodes =>
            join (lit ";")
                 ((fun d => fst d ++ lit ":" ++ snd d) <$> inlineDecls allowedProps nodes)
        end
    end.

(** The rules [filterCss] builds for one rule of the sheet: one per allowed
    selector, holding clones of the declarations that pass, and only when
    there is one. [fresh] numbers the rules [postcss.rule] creates. *)
Definition buildRules (styleAllowlist : gmap jsstring (gset jsstring))
    (allowedSelectors : list jsstring) (nodes : list Css.node) (fresh : nat)
  : list Css.node * nat :=
  foldl (fun acc selector =>
           match styleAllowlist !! selector with
           | None => acc
           | Some allowedProps =>
               let kept := List.filter (keepsDecl allowedProps) nodes in
               match kept with
               | [] => acc
               | _ => (fst acc ++ [Css.Rule (snd acc) selector kept], S (snd acc))
               end
           end)
        ([], fresh) allowedSelectors.

(** One iteration of [for (const rule of rules)] in [filterCss]. A rule that
    left the sheet together with an enclosing rule is still visited by the
    source, but nothing done to it reaches the sheet. *)
Definition filterCssRule (styleAllowlist : gmap jsstring (gset jsstring))
    (st : Css.root * nat) (h : nat) : Css.root * nat :=
  match Css.findInRoot h (fst st) with
  | None => st
  | Some (selector, nodes) =>
      let allowedSelectors :=
        List.filter (fun s => bool_decide (is_Some (styleAllowlist !! s)))
                    (trim <$> ruleSelectors selector) in
      match allowedSelectors with
      | [] => (Css.subst h [] (fst st), snd st)
      | _ =>
          let built := buildRules styleAllowlist allowedSelectors nodes (snd st) in
          (Css.subst h (fst built) (fst st), snd built)
      end
  end.

(** [filterCss] between [postcss.parse] and [root.toString()]. *)
Definition filterCssRoot (styleAllowlist : gmap jsstring (gset jsstring))
    (root : Css.root) : Css.root :=
  let root1 := Css.removeAtRules root in
  let rules := Css.walkRules root1 in
  fst (foldl (filterCssRule styleAllowlist) (root1, Css.freshHandle root1) rules).

Definition filterCss (cssText : jsstring)
    (styleAllowlist : gmap jsstring (gset jsstring)) : jsstring :=
  match postcssParse cssText with
  | None => []
  | Some root => postcssToString (filterCssRoot styleAllowlist root)
  end.

(** [filterStyleElement(element, styleAllowlist)] *)
Definition filterStyleElement (h : nat) (element : Dom.node)
    (styleAllowlist : gmap jsstring (gset jsstring)) (d : Dom.forest) : Dom.forest :=
  let css := Dom.textContent element in
  let filtered := filterCss css styleAllowlist in
  if bool_decide (length (trim filtered) = 0%nat) then Dom.remove h d
  else Dom.setTextContent h filtered d.

(** *** Attribute filter *)

Definition allowedAttrsOf (tag : jsstring)
    (attrAllowlist : gmap jsstring (gset jsstring)) (allowCommonAttributes : bool)
  : gset jsstring :=
  let declared := default ∅ (attrAllowlist !! tag) in
  if allowCommonAttributes then
    declared ∪ list_to_set COMMON_GLOBAL_ATTRS
             ∪ list_to_set (default [] (COMMON_ATTRS tag))
  else declared.

(** One iteration of [for (const attr of Array.from(element.attributes))]:
    [attr] comes from the snapshot, [attrs] is the list as it is now. *)
Definition filterAttribute (tag : jsstring) (allowedAttrs : gset jsstring)
    (styleAllowlist : gmap jsstring (gset jsstring)) (allowJavaScript : bool)
    (attrs : list (jsstring * jsstring)) (attr : jsstring * jsstring)
  : list (jsstring * jsstring) :=
  let name := toLowerCase (fst attr) in
  if negb allowJavaScript && startsWith (lit "on") name then
    Dom.removeAttribute (fst attr) attrs
  else if negb (bool_decide (name ∈ allowedAttrs)) then
    Dom.removeAttribute (fst attr) attrs
  else if eqb name (lit "style") then
    let filtered := filterInlineStyle tag (snd attr) styleAllowlist in
    if bool_decide (length filtered = 0%nat) then Dom.removeAttribute (fst attr) attrs
    else Dom.setAttribute (fst attr) filtered attrs
  else if negb allowJavaScript && bool_decide (name ∈ URL_ATTRS) then
    if isDangerousUrlValue name (snd attr) then Dom.removeAttribute (fst attr) attrs
    else attrs
  else attrs.

(** [filterAttributes], as a function of the attribute list of the element. *)
Definition filterAttributes (tag : jsstring)
    (attrAllowlist styleAllowlist : gmap jsstring (gset jsstring))
    (allowCommonAttributes allowJavaScript : bool)
    (attributes : list (jsstring * jsstring)) : list (jsstring * jsstring) :=
  let allowedAttrs := allowedAttrsOf tag attrAllowlist allowCommonAttributes in
  foldl (filterAttribute tag allowedAttrs styleAllowlist allowJavaScript)
        attributes attributes.

(** *** Tag enforcer *)

(** What one filtering pass keeps between two elements. *)
Record PassState := {
  doc : Dom.forest;
  usedTagCounts : gmap jsstring nat;
  usedTotalTags : nat;
  countsSaturated : bool
}.

Definition setDoc (d : Dom.forest) (st : PassState) : PassState :=
  {| doc := d; usedTagCounts := usedTagCounts st;
     usedTotalTags := usedTotalTags st; countsSaturated := countsSaturated st |}.

(** How the body of the loop leaves the budget block: by [continue], or by
    falling through to the attribute filter. *)
Inductive flow :=
| Continue (st : PassState)
| Proceed (st : PassState).

Definition tagNameOf (n : Dom.node) : jsstring :=
  match n with
  | Dom.Element _ t _ _ => t
  | _ => []
  end.

Definition allowJavaScriptOf (policy : CompiledPolicy) : bool :=
  default false (allowJavaScript (config policy)).

Definition allowCommonAttributesOf (policy : CompiledPolicy) : bool :=
  default false (allowCommonAttributes (config policy)).

Definition allowedCountOf (policy : CompiledPolicy) (tag : jsstring) : nat :=
  default 0%nat (tagCounts policy !! tag).

Definition allowStyleTagOf (policy : CompiledPolicy) : bool :=
  Nat.ltb 0 (allowedCountOf policy (lit "style"))
  && Nat.ltb 0 (size (styleAllowlist policy)).

(** [totalAllowedTags]: the counts of the tags that are not structural,
    summed. *)
Definition totalAllowedTagsOf (policy : CompiledPolicy) : nat :=
  map_fold (fun tag count acc => if isStructuralTag tag then acc else (acc + count)%nat)
           0%nat (tagCounts policy).

(** The block [if (!isStructural) { ... }] of the loop, for a tag that is not
    structural. *)
Definition enforceBudget (policy : CompiledPolicy) (h : nat) (tag : jsstring)
    (st : PassState) : flow :=
  let allowedCount := allowedCountOf policy tag in
  if countsSaturated st then
    if Nat.eqb allowedCount 0 then Continue (setDoc (Dom.unwrapElement h (doc st)) st)
    else Continue (setDoc (Dom.remove h (doc st)) st)
  else if Nat.eqb allowedCount 0 then
    Continue (setDoc (Dom.unwrapElement h (doc st)) st)
  else
    let usedCount := default 0%nat (usedTagCounts st !! tag) in
    if Nat.leb allowedCount usedCount then Continue (setDoc (Dom.remove h (doc st)) st)
    else Proceed {| doc := doc st;
                    usedTagCounts := <[tag := (usedCount + 1)%nat]> (usedTagCounts st);
                    usedTotalTags := (usedTotalTags st + 1)%nat;
                    countsSaturated := countsSaturated st |}.

(** What follows the budget block for an element that is kept. *)
Definition finishElement (policy : CompiledPolicy) (h : nat) (element : Dom.node)
    (tag : jsstring) (isStructural : bool) (st : PassState) : PassState :=
  let st1 := setDoc (Dom.withAttributes h
                       (filterAttributes tag (attrAllowlist policy) (styleAllowlist policy)
                          (allowCommonAttributesOf policy) (allowJavaScriptOf policy))
                       (doc st)) st in
  let st2 :=
    if negb isStructural && negb (countsSaturated st1)
       && Nat.leb (totalAllowedTagsOf policy) (usedTotalTags st1)
    then {| doc := doc st1; usedTagCounts := usedTagCounts st1;
            usedTotalTags := usedTotalTags st1; countsSaturated := true |}
    else st1 in
  if eqb tag (lit "style") then
    setDoc (filterStyleElement h element (styleAllowlist policy) (doc st2)) st2
  else st2.

(** One iteration of [for (const element of elements)]. An element that is
    not found is one that is no longer connected. *)
Definition visit (policy : CompiledPolicy) (st : PassState) (h : nat) : PassState :=
  match Dom.findElement h (doc st) with
  | None => st
  | Some element =>
      let tag := toLowerCase (tagNameOf element) in
      let isStructural := isStructuralTag tag in
      if negb (allowJavaScriptOf policy) && eqb tag (lit "script") then
        setDoc (Dom.remove h (doc st)) st
      else if eqb tag (lit "style") && negb (allowStyleTagOf policy) then
        setDoc (Dom.remove h (doc st)) st
      else
        match (if isStructural then Proceed st else enforceBudget policy h tag st) with
        | Continue st' => st'
        | Proceed st' => finishElement policy h element tag isStructural st'
        end
  end.

Definition initialState (policy : CompiledPolicy) (d : Dom.forest) : PassState :=
  {| doc := d; usedTagCounts := ∅; usedTotalTags := 0%nat;
     countsSaturated := Nat.eqb (totalAllowedTagsOf policy) 0 |}.

(** The loop of [sanitizeOnceWithPolicy] over a parsed document: the
    elements of the snapshot taken before the first iteration are visited
    in its order. *)
Definition enforce (policy : CompiledPolicy) (d : Dom.forest) : PassState :=
  foldl (visit policy) (initialState policy d) (Dom.snapshot d).

Definition filterDocument (policy : CompiledPolicy) (d : Dom.forest) : Dom.forest :=
  doc (enforce policy d).

(** *** Defense in depth *)

Definition allowedTagSetOf (policy : CompiledPolicy) : gset jsstring :=
  let withStructural := dom (tagCounts policy) ∪ list_to_set STRUCTURAL_TAGS in
  if allowJavaScriptOf policy then withStructural
  else withStructural ∖ {[lit "script"]}.

Definition allowedAttrSetOf (policy : CompiledPolicy) : gset jsstring :=
  let declared := ⋃ (snd <$> map_to_list (attrAllowlist policy)) in
  if default false (allowCommonAttributes (config policy)) then
    declared ∪ list_to_set COMMON_GLOBAL_ATTRS ∪ list_to_set (concat COMMON_ATTRS_values)
  else declared.

Definition applyDomPurify (html : jsstring) (policy : CompiledPolicy) : jsstring :=
  purifierSanitize (allowedTagSetOf policy) (allowedAttrSetOf policy) html.

(** *** Convergence driver *)

(** One filtering pass. The set-up of the parsing environment (the happy-dom
    settings, the cached window and purifier) does not enter the text that is
    computed and is left out. *)
Definition sanitizeOnceWithPolicy (html : jsstring) (policy : CompiledPolicy) : jsstring :=
  let d := parseFromString html in
  let output := outerHTML (filterDocument policy d) in
  applyDomPurify output policy.

(** The loop of [sanitizeWithPolicy], [remaining] iterations before
    [pass < maxPasses] fails. Next to the text it returns how many times the
    body ran. *)
Fixpoint passLoop (policy : CompiledPolicy) (remaining : nat) (current : jsstring)
    (ran : nat) : jsstring * nat :=
  match remaining with
  | O => (current, ran)
  | S remaining' =>
      let next := sanitizeOnceWithPolicy current policy in
      if eqb next current then (next, S ran)
      else passLoop policy remaining' next (S ran)
  end.

Definition maxPassesOf (policy : CompiledPolicy) : Z :=
  default 10%Z (maxPasses (config policy)).

Definition sanitizeWithPolicy (html : jsstring) (policy : CompiledPolicy) : jsstring :=
  fst (passLoop policy (Z.to_nat (maxPassesOf policy)) html 0).

(** The number of filtering passes [sanitizeWithPolicy] runs. *)
Definition passesRun (html : jsstring) (policy : CompiledPolicy) : nat :=
  snd (passLoop policy (Z.to_nat (maxPassesOf policy)) html 0).

Definition sanitize (html : jsstring) (rules : list jsstring) (config : SanitizerConfig)
  : jsstring :=
  sanitizeWithPolicy html (compileRules rules config).

End Engine.

(** ** Reference definitions

    What the properties below measure the engine against. *)

Section Reference.

Context {env : Collaborators}.

(** The budget block with per-tag counting only: the saturation flag is never
    consulted. *)
Definition enforceBudgetCounting (policy : CompiledPolicy) (h : nat) (tag : jsstring)
    (st : PassState) : flow :=
  let allowedCount := allowedCountOf policy tag in
  if Nat.eqb allowedCount 0 then
    Continue (setDoc (Dom.unwrapElement h (doc st)) st)
  else
    let usedCount := default 0%nat (usedTagCounts st !! tag) in
    if Nat.leb allowedCount usedCount then Continue (setDoc (Dom.remove h (doc st)) st)
    else Proceed {| doc := doc st;
                    usedTagCounts := <[tag := (usedCount + 1)%nat]> (usedTagCounts st);
                    usedTotalTags := (usedTotalTags st + 1)%nat;
                    countsSaturated := countsSaturated st |}.

(** The pass with that block in place of [enforceBudget], otherwise
    identical. *)
Definition visitCounting (policy : CompiledPolicy) (st : PassState) (h : nat) : PassState :=
  match Dom.findElement h (doc st) with
  | None => st
  | Some element =>
      let tag := toLowerCase (tagNameOf element) in
      let isStructural := isStructuralTag tag in
      if negb (allowJavaScriptOf policy) && eqb tag (lit "script") then
        setDoc (Dom.remove h (doc st)) st
      else if eqb tag (lit "style") && negb (allowStyleTagOf policy) then
        setDoc (Dom.remove h (doc st)) st
      else
        match (if isStructural then Proceed st
               else enforceBudgetCounting policy h tag st) with
        | Continue st' => st'
        | Proceed st' => finishElement policy h element tag isStructural st'
        end
  end.

Definition enforceCounting (policy : CompiledPolicy) (d : Dom.forest) : PassState :=
  foldl (visitCounting policy) (initialState policy d) (Dom.snapshot d).

(** The declarations [filterInlineStyle] joins: the array [decls] where it
    returns the joined text, nothing where it returns the empty string
    early. *)
Definition inlineSurvivors (tag value : jsstring)
    (styleAllowlist : gmap jsstring (gset jsstring)) : list (jsstring * jsstring) :=
  let allowedProps := inlineAllowedProps tag styleAllowlist in
  if bool_decide (size allowedProps = 0%nat) then []
  else
    match postcssParse (lit "a{" ++ value ++ lit "}") with
    | None => []
    | Some root =>
        match firstRule root with
        | None => []
        | Some nodes => inlineDecls allowedProps nodes
        end
    end.

(** A call of [url], at any depth of a parsed value. *)
Inductive urlCall : Css.vnode -> Prop :=
| urlCall_here (v : jsstring) (c : list Css.vnode) :
    toLowerCase v = lit "url" -> urlCall (Css.Function v c)
| urlCall_below (v : jsstring) (c : list Css.vnode) (n : Css.vnode) :
    n ∈ c -> urlCall n -> urlCall (Css.Function v c).

Definition callsUrl (value : jsstring) : Prop :=
  exists n, n ∈ valueParser value /\ urlCall n.

(** A node at the top of a filtered sheet is in order: a rule has an
    allowlisted selector and holds nothing but declarations of properties
    allowlisted for it whose values call no [url]; an at-rule is not in
    order; of a declaration or a comment at the top nothing is asked. *)
Definition filteredNode (styleAllowlist : gmap jsstring (gset jsstring))
    (n : Css.node) : Prop :=
  match n with
  | Css.Rule _ selector nodes =>
      exists props, styleAllowlist !! selector = Some props
        /\ forall m, m ∈ nodes ->
             exists p v, m = Css.Decl p v /\ toLowerCase (trim p) ∈ props /\ ~ callsUrl v
  | Css.AtRule _ _ _ => False
  | _ => True
  end.

(** What holds of the sheet between two iterations of [filterCss], [rest]
    being the rules still to visit: a node at the top is in order, or is a
    rule that waits. *)
Definition sheetOk (sa : gmap jsstring (gset jsstring)) (rest : list nat)
    (r : Css.root) : Prop :=
  forall n, n ∈ r ->
    filteredNode sa n \/ exists h sel c, n = Css.Rule h sel c /\ h ∈ rest.

End Reference.

(** Elements of a document as (handle, tag name). *)
Definition tagged (d : Dom.forest) : list (nat * jsstring) :=
  (fun e => (e.1.1, e.1.2)) <$> Dom.allElements d.

(** How many elements of the document have the tag. *)
Definition countTag (tag : jsstring) (d : Dom.forest) : nat :=
  length (List.filter (fun e => eqb (toLowerCase e.2) tag) (tagged d)).

(** The rule-derived budget of a tag: the number of rules of one segment
    that name it. *)
Definition namesTag (tag rule : jsstring) : bool :=
  match trim <$> split pipe rule with
  | [p0] => negb (isEmpty tag) && eqb (toLowerCase p0) tag
  | _ => false
  end.

Definition ruleBudget (tag : jsstring) (rules : list jsstring) : nat :=
  length (List.filter (namesTag tag) rules).

(** The element with handle [h] is in the tree, and it and all the elements
    above it are structural. *)
Fixpoint onStructuralSpine (h : nat) (n : Dom.node) : bool :=
  match n with
  | Dom.Element h' t _ c =>
      isStructuralTag (toLowerCase t)
      && (Nat.eqb h h' || existsb (onStructuralSpine h) c)
  | _ => false
  end.

Definition structuralIn (h : nat) (d : Dom.forest) : bool :=
  existsb (onStructuralSpine h) d.

(** The tree has an element of the tag that is structural and has only
    structural elements above it. *)
Fixpoint spineHolds (tag : jsstring) (n : Dom.node) : bool :=
  match n with
  | Dom.Element _ t _ c =>
      isStructuralTag (toLowerCase t)
      && (eqb (toLowerCase t) tag || existsb (spineHolds tag) c)
  | _ => false
  end.

Definition onSpine (tag : jsstring) (d : Dom.forest) : bool :=
  existsb (spineHolds tag) d.

(** The elements of a tree with their nesting, tag names and attributes:
    what is left when text and comments are dropped and the identity of the
    objects is forgotten. *)
Fixpoint outlineOf (n : Dom.node) : list Dom.node :=
  match n with
  | Dom.Element _ t a c => [Dom.Element 0 t a (flat_map outlineOf c)]
  | _ => []
  end.

Definition outline (d : Dom.forest) : Dom.forest := flat_map outlineOf d.

Section Output.

Context {env : Collaborators}.

(** The tree comes back from the text a pass makes of it: serialized,
    handed to the general sanitizer and parsed again, it has the elements
    it had, nested as they were, with their attributes. *)
Definition readsBack (policy : CompiledPolicy) (d : Dom.forest) : Prop :=
  outline (parseFromString (applyDomPurify (outerHTML d) policy)) = outline d.

(** The text the last iteration of the loop of [sanitizeWithPolicy] hands to
    [sanitizeOnceWithPolicy], [remaining] iterations before the ceiling; the
    text itself when no iteration runs. *)
Fixpoint lastRead (policy : CompiledPolicy) (remaining : nat) (current : jsstring)
  : jsstring :=
  match remaining with
  | O => current
  | S remaining' =>
      let next := sanitizeOnceWithPolicy current policy in
      if eqb next current then current
      else match remaining' with
           | O => current
           | S _ => lastRead policy remaining' next
           end
  end.

Definition lastPassInput (html : jsstring) (policy : CompiledPolicy) : jsstring :=
  lastRead policy (Z.to_nat (maxPassesOf policy)) html.

End Output.

(** [s.includes(sub)] *)
Fixpoint includes (sub s : jsstring) : bool :=
  startsWith sub s
  || match s with
     | [] => false
     | _ :: r => includes sub r
     end.

(** A numeric character reference as the specification writes it: [&#NN;]
    with decimal digits, [&#xHH;] with hexadecimal digits, closed by a
    semicolon; its code point, its text and what follows it. *)
Definition specReference (s : jsstring) : option (N * jsstring * jsstring) :=
  match stripPrefix (lit "&#x") s, stripPrefix (lit "&#") s with
  | Some r, _ =>
      let digits := takeWhile isHexDigit r in
      match stripPrefix (lit ";") (dropWhile isHexDigit r) with
      | Some rest =>
          if isEmpty digits then None
          else Some (parseDigits 16 0 digits, lit "&#x" ++ digits ++ lit ";", rest)
      | None => None
      end
  | None, Some r =>
      let digits := takeWhile (inRange 0x30 0x39) r in
      match stripPrefix (lit ";") (dropWhile (inRange 0x30 0x39) r) with
      | Some rest =>
          if isEmpty digits then None
          else Some (parseDigits 10 0 digits, lit "&#" ++ digits ++ lit ";", rest)
      | None => None
      end
  | None, None => None
  end.

(** Each reference becomes its character; one that names no code point is
    left as it is. *)
Fixpoint specDecodeFrom (fuel : nat) (s : jsstring) : jsstring :=
  match fuel with
  | O => s
  | S fuel' =>
      match s with
      | [] => []
      | c :: r =>
          match specReference s with
          | Some (cp, text, rest) =>
              (if cp <=? 0x10ffff then fromCodePoint cp else text)
              ++ specDecodeFrom fuel' rest
          | None => c :: specDecodeFrom fuel' r
          end
      end
  end.

Definition specDecode (value : jsstring) : jsstring := specDecodeFrom (length value) value.

(** Every match of the pattern of [decodeNumericCharacterReferences] in the
    value is a reference as the specification writes it. *)
Fixpoint referencesWellFormed (value : jsstring) : bool :=
  (match matchReference value with
   | Some _ => bool_decide (is_Some (specReference value))
   | None => true
   end)
  && match value with
     | [] => true
     | _ :: rest => referencesWellFormed rest
     end.

(** The danger check as the specification words it. *)
Definition specDangerous (value : jsstring) : bool :=
  let compact :=
    toLowerCase (List.filter (fun c => negb (isControlOrSpace c)) (specDecode value)) in
  startsWith (lit "javascript:") compact || startsWith (lit "data:") compact.

(** ** Sample collaborators

    Small stand-ins for the libraries, to run the engine on concrete inputs:
    a parser for plain markup, the serializer that prints a tree back, a
    general sanitizer for documents that hold nothing it would take out, and
    CSS parsers that know the few sheets and values of the examples. *)

Module Sample.

Import Dom.

Definition page (body : list node) : forest :=
  [Element 0 (lit "HTML") [] [Element 1 (lit "HEAD") [] []; Element 2 (lit "BODY") [] body]].

Definition wrap (body : string) : jsstring :=
  lit "<html><head></head><body>" ++ lit body ++ lit "</body></html>".

Definition quote : jsstring := [34].

(** *** The tree parser

    Markup made of start tags with double-quoted attribute values, end tags
    and text is read as happy-dom reads it: every end tag closes the nearest
    open element of its name, nothing is implied or moved, and the nodes of a
    template element go into its content. Comments, character references
    and the raw text of [script] and [style] are not provided for. *)

Inductive token :=
| StartTag (name : jsstring) (attrs : list (jsstring * jsstring))
| EndTag (name : jsstring)
| Characters (data : jsstring).

Definition upperUnit (c : N) : N := if inRange 0x61 0x7A c then c - 0x20 else c.

Definition toUpperCase (s : jsstring) : jsstring := upperUnit <$> s.

(** The inside of a tag up to its [>], which a quoted value may hold, and
    what follows the tag. *)
Fixpoint scanTag (quoted : bool) (s : jsstring) : jsstring * jsstring :=
  match s with
  | [] => ([], [])
  | c :: r =>
      if negb quoted && (c =? 62) then ([], r)
      else let scanned := scanTag (xorb quoted (c =? 34)) r in
           (c :: fst scanned, snd scanned)
  end.

Definition endsName (c : N) : bool := isWhiteSpace c || (c =? 61).

(** Attributes [name="value"] separated by white space; a name that stands
    alone has the empty value. *)
Fixpoint scanAttributes (fuel : nat) (s : jsstring) : list (jsstring * jsstring) :=
  match fuel with
  | O => []
  | S fuel' =>
      match dropWhile isWhiteSpace s with
      | [] => []
      | c :: r =>
          let name := toLowerCase (takeWhile (fun x => negb (endsName x)) (c :: r)) in
          let after := dropWhile (fun x => negb (endsName x)) (c :: r) in
          match stripPrefix [61; 34] after with
          | Some value =>
              (name, takeWhile (fun x => negb (x =? 34)) value)
              :: scanAttributes fuel' (drop 1 (dropWhile (fun x => negb (x =? 34)) value))
          | None =>
              if isEmpty name then scanAttributes fuel' r
              else (name, []) :: scanAttributes fuel' after
          end
      end
  end.

Definition tagToken (inside : jsstring) : token :=
  if startsWith [47] inside then EndTag (toUpperCase (trim (drop 1 inside)))
  else StartTag (toUpperCase (takeWhile (fun c => negb (isWhiteSpace c)) inside))
                (scanAttributes (length inside)
                   (dropWhile (fun c => negb (isWhiteSpace c)) inside)).

Fixpoint tokenize (fuel : nat) (s : jsstring) : list token :=
  match fuel with
  | O => []
  | S fuel' =>
      match s with
      | [] => []
      | c :: r =>
          if c =? 60 then
            let scanned := scanTag false r in
            tagToken (fst scanned) :: tokenize fuel' (snd scanned)
          else
            Characters (takeWhile (fun x => negb (x =? 60)) s)
            :: tokenize fuel' (dropWhile (fun x => negb (x =? 60)) s)
      end
  end.

(** An element that is open: its nodes so far, last first. *)
Record frame := {
  frameHandle : nat;
  frameTag : jsstring;
  frameAttrs : list (jsstring * jsstring);
  frameNodes : list node
}.

Definition VOID_TAGS : list jsstring :=
  [lit "BR"; lit "HR"; lit "IMG"; lit "INPUT"; lit "LINK"; lit "META"].

Definition addNode (n : node) (stack : list frame) (top : list node)
  : list frame * list node :=
  match stack with
  | [] => ([], n :: top)
  | f :: rest =>
      ({| frameHandle := frameHandle f; frameTag := frameTag f;
          frameAttrs := frameAttrs f; frameNodes := n :: frameNodes f |} :: rest, top)
  end.

Definition closed (f : frame) : node :=
  Element (frameHandle f) (frameTag f) (frameAttrs f) (rev (frameNodes f)).

Fixpoint closeFrames (n : nat) (stack : list frame) (top : list node)
  : list frame * list node :=
  match n, stack with
  | S n', f :: rest =>
      let added := addNode (closed f) rest top in
      closeFrames n' (fst added) (snd added)
  | _, _ => (stack, top)
  end.

(** How many open elements an end tag of the name closes. *)
Fixpoint depthOf (tag : jsstring) (stack : list frame) : option nat :=
  match stack with
  | [] => None
  | f :: rest => if eqb (frameTag f) tag then Some 1%nat else S <$> depthOf tag rest
  end.

Record builder := {
  openFrames : list frame;
  finished : list node;
  nextHandle : nat
}.

Definition step (b : builder) (t : token) : builder :=
  match t with
  | Characters s =>
      let added := addNode (Text s) (openFrames b) (finished b) in
      {| openFrames := fst added; finished := snd added; nextHandle := nextHandle b |}
  | StartTag name attrs =>
      if bool_decide (name ∈ VOID_TAGS) then
        let added := addNode (Element (nextHandle b) name attrs [])
                             (openFrames b) (finished b) in
        {| openFrames := fst added; finished := snd added;
           nextHandle := S (nextHandle b) |}
      else
        {| openFrames := {| frameHandle := nextHandle b; frameTag := name;
                            frameAttrs := attrs; frameNodes := [] |} :: openFrames b;
           finished := finished b;
           nextHandle := S (nextHandle b) |}
  | EndTag name =>
      match depthOf name (openFrames b) with
      | Some n =>
          let closedTo := closeFrames n (openFrames b) (finished b) in
          {| openFrames := fst closedTo; finished := snd closedTo;
             nextHandle := nextHandle b |}
      | None => b
      end
  end.

Definition build (tokens : list token) : forest :=
  let b := foldl step {| openFrames := []; finished := []; nextHandle := 3 |} tokens in
  rev (snd (closeFrames (length (openFrames b)) (openFrames b) (finished b))).

Definition isRoot (n : node) : bool :=
  match n with
  | Element _ t _ _ => eqb t (lit "HTML")
  | _ => false
  end.

(** A text that brings no [html] element gets one, with an empty head and
    all its nodes in the body. *)
Definition parse (html : jsstring) : forest :=
  let nodes := build (tokenize (length html) html) in
  match List.find isRoot nodes with
  | Some root => [root]
  | None => page nodes
  end.

Fixpoint serializeNode (n : node) : jsstring :=
  match n with
  | Text s => s
  | Comment s => lit "<!--" ++ s ++ lit "-->"
  | Element _ t a c =>
      lit "<" ++ toLowerCase t
      ++ flat_map (fun nv => lit " " ++ nv.1 ++ lit "=" ++ quote ++ nv.2 ++ quote) a
      ++ lit ">"
      ++ (if bool_decide (toUpperCase t ∈ VOID_TAGS) then []
          else flat_map serializeNode c ++ lit "</" ++ toLowerCase t ++ lit ">")
  end.

Definition serialize (d : forest) : jsstring := flat_map serializeNode d.

(** The general sanitizer returns a document as it is when the document
    holds only tags and attributes of the lists it is given and no link it
    objects to. The sample is meant for such documents, and returns every
    text as it is. *)
Definition purifier (tags attrs : gset jsstring) (html : jsstring) : jsstring := html.

(** *** Texts and trees of the examples *)

(** A paragraph that holds a button that holds a paragraph. *)
Definition nestedText : jsstring := lit "<p>a<button><p>b</p></button></p>".
Definition nestedTree : forest :=
  page [Element 3 (lit "P") []
          [Text (lit "a");
           Element 4 (lit "BUTTON") [] [Element 5 (lit "P") [] [Text (lit "b")]]]].

Definition paragraphsText : jsstring := lit "<p>a</p><p>b</p>".

Definition paragraphText : jsstring := lit "<p>x</p>".
Definition paragraphTree : forest := page [Element 3 (lit "P") [] [Text (lit "x")]].

(** A paragraph, and a second one inside a template element. *)
Definition templateText : jsstring := lit "<p>a</p><template><p>b</p></template>".
Definition templateTree : forest :=
  page [Element 3 (lit "P") [] [Text (lit "a")];
        Element 4 (lit "TEMPLATE") [] [Element 5 (lit "P") [] [Text (lit "b")]]].

(** The anchor of the scenario of the specification:
    [<a href="javascript:alert(1)" onclick="x">x</a>]. *)
Definition anchorText : jsstring :=
  lit "<a href=" ++ quote ++ lit "javascript:alert(1)" ++ quote
  ++ lit " onclick=" ++ quote ++ lit "x" ++ quote ++ lit ">x</a>".
Definition anchorTree : forest :=
  page [Element 3 (lit "A")
          [(lit "href", lit "javascript:alert(1)"); (lit "onclick", lit "x")]
          [Text (lit "x")]].

(** The same anchor inside a template element, after a paragraph. *)
Definition hiddenAnchorText : jsstring :=
  lit "<p>t</p><template>" ++ anchorText ++ lit "</template>".
Definition hiddenAnchorTree : forest :=
  page [Element 3 (lit "P") [] [Text (lit "t")];
        Element 4 (lit "TEMPLATE") []
          [Element 5 (lit "A")
             [(lit "href", lit "javascript:alert(1)"); (lit "onclick", lit "x")]
             [Text (lit "x")]]].

(** [<p><a>one</a><a>two</a><a>three</a></p>] *)
Definition anchorsTree : forest :=
  page [Element 3 (lit "P") []
          [Element 4 (lit "A") [] [Text (lit "one")];
           Element 5 (lit "A") [] [Text (lit "two")];
           Element 6 (lit "A") [] [Text (lit "three")]]].

(** [<div><p><a>ok</a></p></div>] *)
Definition wrappedTree : forest :=
  page [Element 3 (lit "DIV") []
          [Element 4 (lit "P") [] [Element 5 (lit "A") [] [Text (lit "ok")]]]].

(** An anchor with a harmless link and an event handler. *)
Definition linkText : jsstring :=
  lit "<a href=" ++ quote ++ lit "https://example.com/" ++ quote
  ++ lit " onclick=" ++ quote ++ lit "x" ++ quote ++ lit ">x</a>".
Definition linkTree : forest :=
  page [Element 3 (lit "A")
          [(lit "href", lit "https://example.com/"); (lit "onclick", lit "x")]
          [Text (lit "x")]].

(** *** CSS *)

(** The value [..."url(x)"...] is a quoted string, the value [url(x)] a call. *)
Definition quotedUrl : jsstring := quote ++ lit "url(x)" ++ quote.

Definition parseCss (css : jsstring) : option Css.root :=
  if eqb css (lit "a{content:" ++ quotedUrl ++ lit "}") then
    Some [Css.Rule 0 (lit "a") [Css.Decl (lit "content") quotedUrl]]
  else if eqb css (lit "a{color:red;background:url(x)}") then
    Some [Css.Rule 0 (lit "a")
            [Css.Decl (lit "color") (lit "red"); Css.Decl (lit "background") (lit "url(x)")]]
  else if eqb css (lit ".header{margin:0;padding:2px}") then
    Some [Css.Rule 0 (lit ".header")
            [Css.Decl (lit "margin") (lit "0"); Css.Decl (lit "padding") (lit "2px")]]
  else if eqb css (lit "color:red") then Some [Css.Decl (lit "color") (lit "red")]
  else Some [].

(** The line feed postcss puts before the closing brace of a rule. *)
Definition lineFeed : jsstring := [10].

(** A rule is printed the way postcss prints one that [postcss.rule] made
    and cloned declarations were appended to, which is what all the rules of
    a filtered sheet are: a space before the brace, the declarations as
    they were written, a line feed after the last. *)
Fixpoint stringifyNode (n : Css.node) : jsstring :=
  match n with
  | Css.Decl p v => p ++ lit ":" ++ v
  | Css.Rule _ sel c =>
      sel ++ lit " {" ++ join (lit ";") (stringifyNode <$> c) ++ lineFeed ++ lit "}"
  | Css.AtRule a p c =>
      lit "@" ++ a ++ lit " " ++ p ++ lit "{" ++ join (lit ";") (stringifyNode <$> c) ++ lit "}"
  | Css.Comment t => lit "/*" ++ t ++ lit "*/"
  end.

Definition stringify (r : Css.root) : jsstring := flat_map stringifyNode r.

Definition parseValue (value : jsstring) : list Css.vnode :=
  if eqb value quotedUrl then [Css.Other (lit "string") (lit "url(x)")]
  else if eqb value (lit "url(x)") then
    [Css.Function (lit "url") [Css.Other (lit "word") (lit "x")]]
  else [Css.Other (lit "word") value].

Definition collaborators : Collaborators :=
  {| parseFromString := parse;
     outerHTML := serialize;
     purifierSanitize := purifier;
     postcssParse := parseCss;
     postcssToString := stringify;
     ruleSelectors := split 44;
     valueParser := parseValue |}.

End Sample.

(** ** Measures and invariants of a pass *)

Definition usedOf (st : PassState) (tag : jsstring) : nat :=
  default 0%nat (usedTagCounts st !! tag).

(** What a tag can still take: nothing for a structural tag, the count less
    the uses for another. *)
Definition weight (used : gmap jsstring nat) (tag : jsstring) (count : nat) : nat :=
  if isStructuralTag tag then 0%nat else (count - default 0%nat (used !! tag))%nat.

Definition slack (counts used : gmap jsstring nat) : nat :=
  map_fold (fun tag count acc => (acc + weight used tag count)%nat) 0%nat counts.

(** The counters of a pass stay within the policy: no tag is used beyond its
    count, the running total and the slack add up to [totalAllowedTags], and
    the saturation flag is raised only when the total is reached. *)
Record countersOk (policy : CompiledPolicy) (st : PassState) : Prop := {
  used_le : forall tag, (usedOf st tag <= allowedCountOf policy tag)%nat;
  used_slack :
    (usedTotalTags st + slack (tagCounts policy) (usedTagCounts st))%nat
    = totalAllowedTagsOf policy;
  saturated_sound :
    countsSaturated st = true -> (totalAllowedTagsOf policy <= usedTotalTags st)%nat
}.

(** The attributes [attrs] of an element with the tag are within the policy:
    each name is in the allowed set computed for the tag, and none starts
    with [on] when JavaScript is not allowed. *)
Definition attributesWithin (policy : CompiledPolicy) (tag : jsstring)
    (attrs : list (jsstring * jsstring)) : Prop :=
  forall nv, nv ∈ attrs ->
    toLowerCase nv.1 ∈ allowedAttrsOf tag (attrAllowlist policy) (allowCommonAttributesOf policy)
    /\ (allowJavaScriptOf policy = false -> startsWith (lit "on") (toLowerCase nv.1) = false).

(** How many elements with the tag a pass has decided to keep: those whose
    handle is not waiting in [rest]. *)
Definition countKept (tag : jsstring) (rest : list nat) (d : Dom.forest) : nat :=
  length (List.filter
            (fun e => eqb (toLowerCase e.2) tag && negb (bool_decide (e.1 ∈ rest)))
            (tagged d)).

(** What holds between two iterations of the pass, [rest] being the handles
    still to visit. *)
Record passOk {env : Collaborators} (policy : CompiledPolicy) (rest : list nat)
    (st : PassState) : Prop := {
  handles_distinct : NoDup (Dom.elements (doc st));
  counters_ok : countersOk policy st;
  kept_within_used :
    forall tag, isStructuralTag tag = false ->
                (countKept tag rest (doc st) <= usedOf st tag)%nat;
  kept_attributes :
    forall e, e ∈ Dom.allElements (doc st) ->
              e.1.1 ∈ rest \/ attributesWithin policy (toLowerCase e.1.2) e.2
}.

(** The attribute filter of the policy for a tag. *)
Definition attributeFilter {env : Collaborators} (policy : CompiledPolicy) (tag : jsstring)
  : list (jsstring * jsstring) -> list (jsstring * jsstring) :=
  filterAttributes tag (attrAllowlist policy) (styleAllowlist policy)
    (allowCommonAttributesOf policy) (allowJavaScriptOf policy).

(** The names [filterAttribute] strips whatever else holds. *)
Definition strippedName (allowedAttrs : gset jsstring) (allowJavaScript : bool)
    (name : jsstring) : bool :=
  (negb allowJavaScript && startsWith (lit "on") (toLowerCase name))
  || negb (bool_decide (toLowerCase name ∈ allowedAttrs)).

Definition countName (name : jsstring) (attrs : list (jsstring * jsstring)) : nat :=
  length (List.filter (fun a => eqb a.1 name) attrs).

(** ** Further reference definitions *)

(** A rule of two segments that allows the attribute on the tag. *)
Definition namesAttribute (tag attr rule : jsstring) : bool :=
  match trim <$> split pipe rule with
  | [p0; p1] =>
      negb (isEmpty tag) && negb (isEmpty attr)
      && eqb (toLowerCase p0) tag && eqb (toLowerCase p1) attr
  | _ => false
  end.

(** A rule of three segments that allows the property under the selector. *)
Definition namesStyle (selector property rule : jsstring) : bool :=
  match trim <$> split pipe rule with
  | [p0; p1; p2] =>
      eqb (toLowerCase p0) (lit "style")
      && negb (isEmpty selector) && negb (isEmpty property)
      && eqb p1 selector && eqb (toLowerCase p2) property
  | _ => false
  end.

(** No set stored in an allowlist is empty. *)
Definition setsInhabited (m : gmap jsstring (gset jsstring)) : Prop :=
  forall key s, m !! key = Some s -> s <> ∅.

(** A rule of one segment that names a tag that is not structural: one that
    adds to [totalAllowedTags]. *)
Definition countedRule (rule : jsstring) : bool :=
  match trim <$> split pipe rule with
  | [p0] => negb (isEmpty (toLowerCase p0)) && negb (isStructuralTag (toLowerCase p0))
  | _ => false
  end.

(** What the loop of [filterAttributes] does with one attribute of the
    snapshot: it is removed, or it stays, a [style] attribute with its
    filtered value. *)
Definition keepAttribute {env : Collaborators} (tag : jsstring) (allowedAttrs : gset jsstring)
    (styleAllowlist : gmap jsstring (gset jsstring)) (allowJavaScript : bool)
    (attr : jsstring * jsstring) : option (jsstring * jsstring) :=
  let name := toLowerCase (fst attr) in
  if negb allowJavaScript && startsWith (lit "on") name then None
  else if negb (bool_decide (name ∈ allowedAttrs)) then None
  else if eqb name (lit "style") then
    let filtered := filterInlineStyle tag (snd attr) styleAllowlist in
    if bool_decide (length filtered = 0%nat) then None else Some (fst attr, filtered)
  else if negb allowJavaScript && bool_decide (name ∈ URL_ATTRS) then
    if isDangerousUrlValue name (snd attr) then None else Some attr
  else Some attr.

(** Run [g] on the attributes of every element of a tree; [g] is given the
    handle and the tag name of the element. *)
Fixpoint mapAttributesOf
    (g : nat -> jsstring -> list (jsstring * jsstring) -> list (jsstring * jsstring))
    (n : Dom.node) : Dom.node :=
  match n with
  | Dom.Element h t a c => Dom.Element h t (g h t a) (mapAttributesOf g <$> c)
  | _ => n
  end.

Definition mapAttributes
    (g : nat -> jsstring -> list (jsstring * jsstring) -> list (jsstring * jsstring))
    (d : Dom.forest) : Dom.forest :=
  mapAttributesOf g <$> d.

(** The document with the attributes of every element filtered, except
    those of the elements that wait in [rest]. *)
Definition filteredExcept {env : Collaborators} (policy : CompiledPolicy)
    (rest : list nat) (d : Dom.forest) : Dom.forest :=
  mapAttributes (fun h t a => if bool_decide (h ∈ rest) then a
                              else attributeFilter policy (toLowerCase t) a) d.

(** Every element of the document is one the tag enforcer keeps: no style
    element, a script element only when JavaScript is allowed, and of every
    tag that is not structural no more elements than the policy counts. *)
Definition withinBudgets (policy : CompiledPolicy) (d : Dom.forest) : bool :=
  forallb (fun e : nat * jsstring =>
             let tag := toLowerCase e.2 in
             negb (eqb tag (lit "style"))
             && (negb (eqb tag (lit "script")) || allowJavaScriptOf policy)
             && (isStructuralTag tag
                 || Nat.leb (countTag tag d) (allowedCountOf policy tag)))
          (tagged d).

(** The policy with another ceiling on the number of passes. *)
Definition withMaxPasses (m : Z) (policy : CompiledPolicy) : CompiledPolicy :=
  {| tagCounts := tagCounts policy;
     attrAllowlist := attrAllowlist policy;
     styleAllowlist := styleAllowlist policy;
     config := {| allowCommonAttributes := allowCommonAttributes (config policy);
                  allowJavaScript := allowJavaScript (config policy);
                  maxPasses := Some m |} |}.

(** Inputs of the examples. *)

Definition sampleAttributes : list (jsstring * jsstring) :=
  [(lit "href", lit "https://example.com/"); (lit "onclick", lit "x");
   (lit "title", lit "t")].

Definition sampleAllowlist : gmap jsstring (gset jsstring) :=
  {[ lit "a" := {[ lit "href"; lit "onclick" ]} ]}.

Definition sampleStyled : list (jsstring * jsstring) :=
  [(lit "style", lit "color:red;background:url(x)")].

Definition sampleStyleRules : gmap jsstring (gset jsstring) :=
  {[ lit "*" := {[ lit "color"; lit "background" ]} ]}.

Definition linkPolicy : CompiledPolicy :=
  compileRules [lit "a"; lit "a|href"; lit "a|onclick"] emptyConfig.

Definition scriptTree : Dom.forest :=
  Sample.page [Dom.Element 3 (lit "SCRIPT") [] [Dom.Text (lit "x")];
               Dom.Element 4 (lit "STYLE") [] [Dom.Text (lit "p{color:red}")]].

(** * Properties *)

(** ** JavaScript strings *)

Section StringFacts.

Example split_three :
  split pipe (lit "style| .a |Color") = [lit "style"; lit " .a "; lit "Color"].
Proof. reflexivity. Qed.

Example split_empty : split pipe [] = [[]].
Proof. reflexivity. Qed.

Example trim_spaces : trim (lit "  a b  ") = lit "a b".
Proof. reflexivity. Qed.

Example parseInt_leading_digits :
  parseInt (lit "100a") 10 = Some 100 /\ parseInt (lit "a1") 10 = None
  /\ parseInt (lit "6A") 16 = Some 106.
Proof. vm_compute. done. Qed.

Example fromCodePoint_pair : fromCodePoint 0x1F600 = [0xD83D; 0xDE00].
Proof. reflexivity. Qed.

Lemma startsWith_prefix (p s : jsstring) : startsWith p s = true <-> p `prefix_of` s.
Proof.
  revert s. induction p as [|a p IH]; intros s; simpl.
  - split; [intros _; apply prefix_nil | done].
  - destruct s as [|b s].
    + split; [done | intros Hp; apply prefix_nil_inv in Hp; done].
    + rewrite andb_true_iff, N.eqb_eq, IH. split.
      * intros [-> Hp]. by apply prefix_cons.
      * intros Hp. split; [by eapply prefix_cons_inv_1 | by eapply prefix_cons_inv_2].
Qed.

Lemma removeControlAndSpace_filter (s : jsstring) :
  removeControlAndSpace s = List.filter (fun c => negb (isControlOrSpace c)) s.
Proof.
  induction s as [|c s IH]; simpl; [done|].
  destruct (isControlOrSpace c); simpl; by rewrite IH.
Qed.

Lemma dropWhile_length p (s : jsstring) : (length (dropWhile p s) <= length s)%nat.
Proof. induction s as [|c s IH]; simpl; [lia|]. destruct (p c); simpl; lia. Qed.

Lemma stripPrefix_Some (p s r : jsstring) : stripPrefix p s = Some r -> s = p ++ r.
Proof.
  revert s. induction p as [|a p IH]; intros s; simpl.
  - by intros [= ->].
  - destruct s as [|b s]; [done|].
    destruct (N.eqb_spec a b) as [->|]; [|done].
    intros Hs. by rewrite (IH _ Hs).
Qed.

(** A match consumes at least one code unit and leaves a suffix. *)
Lemma matchReference_shorter (s m raw rest : jsstring) :
  matchReference s = Some (m, raw, rest) -> (length rest < length s)%nat.
Proof.
  unfold matchReference.
  destruct (stripPrefix (lit "&#") s) as [r|] eqn:Hr; [|done].
  apply stripPrefix_Some in Hr. subst s.
  set (r1 := match stripPrefix (lit "x") r with Some r' => r' | None => r end).
  assert (length r1 <= length r)%nat as Hr1.
  { unfold r1. destruct (stripPrefix (lit "x") r) as [r'|] eqn:Hx; [|lia].
    apply stripPrefix_Some in Hx. subst r. rewrite length_app. lia. }
  clearbody r1.
  destruct (isEmpty (takeWhile isHexDigit r1)); [done|].
  pose proof (dropWhile_length isHexDigit r1) as Hd.
  destruct (stripPrefix (lit ";") (dropWhile isHexDigit r1)) as [r3|] eqn:H3.
  - apply stripPrefix_Some in H3. rewrite H3, length_app in Hd.
    intros [= <- <- <-]. rewrite length_app. simpl in *. lia.
  - intros [= <- <- <-]. rewrite length_app. simpl. lia.
Qed.

(** The fuel [decodeNumericCharacterReferences] gives the scan is enough:
    more fuel changes nothing. *)
Lemma decodeFrom_enough (fuel : nat) (s : jsstring) :
  (length s <= fuel)%nat -> decodeFrom fuel s = decodeFrom (length s) s.
Proof.
  revert s. induction (lt_wf fuel) as [fuel _ IH]. intros s Hlen.
  destruct s as [|c r]; [by destruct fuel|].
  destruct fuel as [|fuel]; [simpl in Hlen; lia|].
  change (length (c :: r)) with (S (length r)).
  simpl decodeFrom.
  destruct (matchReference (c :: r)) as [[[m raw] rest]|] eqn:Hm.
  - apply matchReference_shorter in Hm. simpl in Hm, Hlen.
    rewrite (IH fuel) by lia. rewrite (IH (length r)) by lia. done.
  - simpl in Hlen. rewrite (IH fuel) by lia. done.
Qed.

End StringFacts.

(** ** Rule compiler *)

Section CompilerFacts.

Example compileRules_ex :
  let p := compileRules [lit "a"; lit "A "; lit "a|HREF"; lit "style|.h|Margin"] emptyConfig in
  tagCounts p !! lit "a" = Some 2%nat
  /\ attrAllowlist p !! lit "a" = Some {[lit "href"]}
  /\ styleAllowlist p !! lit ".h" = Some {[lit "margin"]}.
Proof. vm_compute. auto. Qed.

Lemma isEmpty_toLowerCase (s : jsstring) : isEmpty (toLowerCase s) = isEmpty s.
Proof. by destruct s. Qed.

(** [compileRules] handles the rules from left to right, one
    [compileRule] each. *)
Lemma compileRules_snoc (rules : list jsstring) (rule : jsstring) (cfg : SanitizerConfig) :
  compileRules (rules ++ [rule]) cfg = compileRule (compileRules rules cfg) rule.
Proof. unfold compileRules. by rewrite foldl_app. Qed.

Lemma compileRule_config (acc : CompiledPolicy) (rule : jsstring) :
  config (compileRule acc rule) = config acc.
Proof.
  unfold compileRule.
  destruct (trim <$> split pipe rule) as [|p0 [|p1 [|p2 [|p3 ps]]]]; try done.
  - by destruct (isEmpty (toLowerCase p0)).
  - by destruct (isEmpty (toLowerCase p0) || isEmpty (toLowerCase p1)).
  - destruct (eqb (toLowerCase p0) (lit "style")); [|done].
    by destruct (isEmpty p1 || isEmpty (toLowerCase p2)).
Qed.

Lemma compileRules_config (rules : list jsstring) (cfg : SanitizerConfig) :
  config (compileRules rules cfg) = cfg.
Proof.
  induction rules as [|rule rules IH] using rev_ind; [done|].
  by rewrite compileRules_snoc, compileRule_config.
Qed.

(** C9, as amended: a rule of exactly three segments leaves the tag budgets
    and the attribute allowlist alone, and adds the lower-cased property under
    the selector, whose case is kept, exactly when the first trimmed token
    read without regard to case is [style] and the trimmed selector and
    property are not empty; otherwise the style allowlist is unchanged too. *)
Theorem compileRules_style_rule (before : list jsstring) (rule s0 s1 s2 : jsstring)
    (cfg : SanitizerConfig) :
  split pipe rule = [s0; s1; s2] ->
  let old := compileRules before cfg in
  let new := compileRules (before ++ [rule]) cfg in
  tagCounts new = tagCounts old
  /\ attrAllowlist new = attrAllowlist old
  /\ styleAllowlist new =
       if eqb (toLowerCase (trim s0)) (lit "style")
          && negb (isEmpty (trim s1)) && negb (isEmpty (trim s2))
       then addTo (trim s1) (toLowerCase (trim s2)) (styleAllowlist old)
       else styleAllowlist old.
Proof.
  intros Hsplit old new. unfold new, old.
  rewrite compileRules_snoc. unfold compileRule. rewrite Hsplit. simpl.
  rewrite isEmpty_toLowerCase.
  destruct (eqb (toLowerCase (trim s0)) (lit "style")); simpl; [|done].
  destruct (isEmpty (trim s1)); simpl; [done|].
  by destruct (isEmpty (trim s2)).
Qed.

Lemma compileRules_style_rule_witness :
  split pipe (lit "style|.Header| Margin") = [lit "style"; lit ".Header"; lit " Margin"]
  /\ styleAllowlist (compileRules ([lit "p"] ++ [lit "style|.Header| Margin"]) emptyConfig)
     = addTo (lit ".Header") (lit "margin") (styleAllowlist (compileRules [lit "p"] emptyConfig)).
Proof.
  split; [reflexivity|].
  exact (proj2 (proj2 (compileRules_style_rule [lit "p"] (lit "style|.Header| Margin")
                         (lit "style") (lit ".Header") (lit " Margin") emptyConfig
                         eq_refl))).
Defined.

(** C9, as stated, fails: the first trimmed token of [STYLE|a|color] is not
    exactly [style], and the property is added all the same. *)
Lemma compileRules_style_token_case :
  trim <$> split pipe (lit "STYLE|a|color") = [lit "STYLE"; lit "a"; lit "color"]
  /\ lit "STYLE" <> lit "style"
  /\ styleAllowlist (compileRules [] emptyConfig) !! lit "a" = None
  /\ styleAllowlist (compileRules [lit "STYLE|a|color"] emptyConfig) !! lit "a"
     = Some {[lit "color"]}.
Proof. vm_compute. repeat split; done. Qed.

End CompilerFacts.

(** ** Convergence driver *)

Section DriverFacts.

Context {env : Collaborators}.

(** C8: the one-shot form is the two-phase form. *)
Theorem sanitize_two_phase (html : jsstring) (rules : list jsstring)
    (cfg : SanitizerConfig) :
  sanitize html rules cfg = sanitizeWithPolicy html (compileRules rules cfg).
Proof. reflexivity. Qed.

Lemma passLoop_spec (policy : CompiledPolicy) (remaining : nat) :
  forall (current : jsstring) (ran : nat),
  let once := fun c => sanitizeOnceWithPolicy c policy in
  exists k : nat,
    (passLoop policy remaining current ran).2 = (ran + k)%nat
    /\ (k <= remaining)%nat
    /\ (passLoop policy remaining current ran).1 = Nat.iter k once current
    /\ (forall j, (S j < k)%nat -> once (Nat.iter j once current) <> Nat.iter j once current)
    /\ ((k < remaining)%nat ->
        exists j, k = S j /\ once (Nat.iter j once current) = Nat.iter j once current).
Proof.
  induction remaining as [|n IH]; intros current ran once.
  - exists 0%nat. simpl. repeat split; [lia | lia | intros; lia | intros; lia].
  - simpl. unfold eqb. case_bool_decide as Hstable.
    + exists 1%nat. simpl. repeat split; [lia | lia | intros; lia |].
      intros _. exists 0%nat. done.
    + destruct (IH (sanitizeOnceWithPolicy current policy) (S ran))
        as (k & Hran & Hk & Hres & Hbefore & Hlast).
      exists (S k). rewrite Hran, Hres. rewrite Nat.iter_succ_r.
      repeat split; [lia | lia | |].
      * intros [|j] Hj; [done|].
        rewrite Nat.iter_succ_r. apply Hbefore. lia.
      * intros Hlt. destruct Hlast as (j & -> & Hj); [lia|].
        exists (S j). split; [done|]. by rewrite Nat.iter_succ_r.
Qed.

(** C7: the driver returns the text after [r] passes, where [r], the number
    of passes it ran, is at most [maxPasses]; no pass before the last
    returned its input, and when [r] is below the ceiling the last pass did;
    when no pass within the ceiling returns its input, the text after
    [maxPasses] passes is returned. The function is total: no input makes it
    fail. *)
Theorem sanitizeWithPolicy_driver (html : jsstring) (policy : CompiledPolicy) :
  let once := fun c => sanitizeOnceWithPolicy c policy in
  let ceiling := Z.to_nat (maxPassesOf policy) in
  let r := passesRun html policy in
  sanitizeWithPolicy html policy = Nat.iter r once html
  /\ (Z.of_nat r <= Z.max 0 (maxPassesOf policy))%Z
  /\ (forall j, (S j < r)%nat -> once (Nat.iter j once html) <> Nat.iter j once html)
  /\ ((r < ceiling)%nat ->
      exists j, r = S j /\ once (Nat.iter j once html) = Nat.iter j once html)
  /\ ((forall j, (j < ceiling)%nat -> once (Nat.iter j once html) <> Nat.iter j once html) ->
      r = ceiling /\ sanitizeWithPolicy html policy = Nat.iter ceiling once html).
Proof.
  intros once ceiling r. unfold r, passesRun, sanitizeWithPolicy.
  destruct (passLoop_spec policy (Z.to_nat (maxPassesOf policy)) html 0)
    as (k & Hran & Hk & Hres & Hbefore & Hlast).
  fold ceiling in Hran, Hk, Hres, Hlast |- *. simpl in Hran. rewrite Hran, Hres.
  split; [done|]. split; [lia|]. split; [exact Hbefore|]. split; [exact Hlast|].
  intros Hnever.
  destruct (decide (k < ceiling)%nat) as [Hlt|Hge].
  - destruct (Hlast Hlt) as (j & -> & Hj). exfalso. apply (Hnever j); [lia | exact Hj].
  - by replace k with ceiling by lia.
Qed.

(** C10: with [maxPasses] zero or negative the loop body never runs, so no
    filtering pass and no call of the general sanitizer happens, and the text
    comes back as it went in. *)
Theorem sanitizeWithPolicy_no_pass (html : jsstring) (policy : CompiledPolicy) (m : Z) :
  maxPasses (config policy) = Some m -> (m <= 0)%Z ->
  sanitizeWithPolicy html policy = html /\ passesRun html policy = 0%nat.
Proof.
  intros Hm Hle. unfold sanitizeWithPolicy, passesRun, maxPassesOf. rewrite Hm. simpl.
  replace (Z.to_nat m) with 0%nat by lia. done.
Qed.

End DriverFacts.

Lemma sanitizeWithPolicy_no_pass_witness :
  let policy := compileRules [lit "p"]
                  {| allowCommonAttributes := None; allowJavaScript := None;
                     maxPasses := Some 0%Z |} in
  maxPasses (config policy) = Some 0%Z
  /\ sanitizeWithPolicy (env := Sample.collaborators) Sample.nestedText policy
     = Sample.nestedText.
Proof.
  intros policy. split; [reflexivity|].
  refine (proj1 (sanitizeWithPolicy_no_pass (env := Sample.collaborators)
                   Sample.nestedText policy 0%Z eq_refl _)).
  discriminate.
Defined.

(** ** URL danger check *)

Section UrlFacts.

Lemma decode_nil : decodeNumericCharacterReferences [] = [].
Proof. reflexivity. Qed.

(** Where the pattern matches, the match is replaced and the scan goes on
    behind it. *)
Lemma decode_match (s m raw rest : jsstring) :
  matchReference s = Some (m, raw, rest) ->
  decodeNumericCharacterReferences s
  = decodeReference m raw ++ decodeNumericCharacterReferences rest.
Proof.
  intros Hm. pose proof (matchReference_shorter _ _ _ _ Hm) as Hlen.
  unfold decodeNumericCharacterReferences.
  destruct s as [|c r]; [done|].
  change (length (c :: r)) with (S (length r)). simpl decodeFrom. rewrite Hm.
  simpl in Hlen. by rewrite (decodeFrom_enough (length r) rest) by lia.
Qed.

(** Where it does not, the code unit is copied. *)
Lemma decode_no_match (c : N) (r : jsstring) :
  matchReference (c :: r) = None ->
  decodeNumericCharacterReferences (c :: r) = c :: decodeNumericCharacterReferences r.
Proof.
  intros Hm. unfold decodeNumericCharacterReferences.
  change (length (c :: r)) with (S (length r)). simpl decodeFrom. by rewrite Hm.
Qed.

Lemma takeWhile_dropWhile p (s : jsstring) : takeWhile p s ++ dropWhile p s = s.
Proof. induction s as [|c s IH]; simpl; [done|]. destruct (p c); simpl; by rewrite ?IH. Qed.

Lemma takeWhile_all p (s : jsstring) : Forall (fun c => p c = true) (takeWhile p s).
Proof.
  induction s as [|c s IH]; simpl; [constructor|].
  destruct (p c) eqn:Hc; by constructor.
Qed.

(** A run of the class followed by something outside it is what
    [takeWhile] and [dropWhile] split off. *)
Lemma span_unique p (a b : jsstring) :
  Forall (fun c => p c = true) a ->
  match b with [] => True | c :: _ => p c = false end ->
  takeWhile p (a ++ b) = a /\ dropWhile p (a ++ b) = b.
Proof.
  intros Ha Hb. induction Ha as [|c a Hc _ IH]; simpl.
  - destruct b as [|c b]; [done|]. simpl. by rewrite Hb.
  - rewrite Hc. destruct IH as [-> ->]. done.
Qed.

Lemma stripPrefix_app (p r : jsstring) : stripPrefix p (p ++ r) = Some r.
Proof. induction p as [|a p IH]; simpl; [done|]. by rewrite N.eqb_refl. Qed.

(** A match is a prefix of the text, and what follows is the rest. *)
Lemma matchReference_split (t m raw rest : jsstring) :
  matchReference t = Some (m, raw, rest) -> t = m ++ rest.
Proof.
  unfold matchReference.
  destruct (stripPrefix (lit "&#") t) as [r|] eqn:Hr; [|done].
  apply stripPrefix_Some in Hr. subst t.
  assert (r = match stripPrefix (lit "x") r with Some _ => lit "x" | None => [] end
              ++ match stripPrefix (lit "x") r with Some r' => r' | None => r end) as Hx.
  { destruct (stripPrefix (lit "x") r) as [r'|] eqn:Hx; [|done].
    by apply stripPrefix_Some in Hx. }
  set (x := match stripPrefix (lit "x") r with Some _ => lit "x" | None => [] end) in *.
  set (r1 := match stripPrefix (lit "x") r with Some r' => r' | None => r end) in *.
  clearbody x r1. subst r.
  destruct (isEmpty (takeWhile isHexDigit r1)); [done|].
  pose proof (takeWhile_dropWhile isHexDigit r1) as Hsplit.
  destruct (stripPrefix (lit ";") (dropWhile isHexDigit r1)) as [r3|] eqn:H3.
  - apply stripPrefix_Some in H3. intros [= <- <- <-].
    rewrite <- Hsplit at 1. rewrite H3. simpl. by rewrite <- !app_assoc.
  - intros [= <- <- <-]. rewrite <- Hsplit at 1. simpl. by rewrite <- !app_assoc.
Qed.

Lemma decimal_is_hex (c : N) : inRange 0x30 0x39 c = true -> isHexDigit c = true.
Proof. unfold isHexDigit. by intros ->. Qed.

Lemma digitValue_hex (c : N) : isHexDigit c = true -> is_Some (digitValue 16 c).
Proof.
  unfold isHexDigit, digitValue, inRange.
  destruct (0x30 <=? c) eqn:H1, (c <=? 0x39) eqn:H2, (0x61 <=? c) eqn:H3,
    (c <=? 0x66) eqn:H4, (0x41 <=? c) eqn:H5, (c <=? 0x46) eqn:H6; simpl; try done;
    intros _;
    repeat match goal with
           | H : (_ <=? _) = true |- _ => apply N.leb_le in H
           | H : (_ <=? _) = false |- _ => apply N.leb_gt in H
           end;
    match goal with |- is_Some (if ?b then _ else _) =>
      assert (b = true) as -> by (apply N.ltb_lt; lia) end; done.
Qed.

Lemma digitValue_decimal (c : N) : inRange 0x30 0x39 c = true -> is_Some (digitValue 10 c).
Proof.
  unfold digitValue. intros Hc. rewrite Hc. unfold inRange in Hc.
  apply andb_true_iff in Hc as [H1%N.leb_le H2%N.leb_le].
  assert ((c - 0x30 <? 10) = true) as -> by (apply N.ltb_lt; lia). done.
Qed.

Lemma decimal_not_x (c : N) :
  inRange 0x30 0x39 c = true -> (120 =? lowerUnit c) = false.
Proof.
  unfold inRange, lowerUnit, inRange.
  intros [H1%N.leb_le H2%N.leb_le]%andb_true_iff.
  assert ((0x41 <=? c) = false) as -> by (apply N.leb_gt; lia).
  assert ((0xC0 <=? c) = false) as -> by (apply N.leb_gt; lia).
  cbn [orb andb]. apply N.eqb_neq. lia.
Qed.

(** A reference of the specification is a match of the pattern, with the
    same text and rest, and the callback decodes it to the same thing. *)
Lemma specReference_matches (t text rest : jsstring) (cp : N) :
  specReference t = Some (cp, text, rest) ->
  exists raw, matchReference t = Some (text, raw, rest)
    /\ decodeReference text raw = (if cp <=? 0x10ffff then fromCodePoint cp else text).
Proof.
  unfold specReference.
  destruct (stripPrefix (lit "&#x") t) as [r|] eqn:Hx.
  - apply stripPrefix_Some in Hx. subst t.
    destruct (stripPrefix (lit ";") (dropWhile isHexDigit r)) as [rest'|] eqn:Hsemi; [|done].
    destruct (takeWhile isHexDigit r) as [|d digits] eqn:Hdigits; [done|].
    intros Heq. change (isEmpty (d :: digits)) with false in Heq. cbv iota in Heq.
    assert (cp = parseDigits 16 0 (d :: digits)
            /\ text = lit "&#x" ++ (d :: digits) ++ lit ";" /\ rest = rest')
      as (-> & -> & ->) by (repeat split; congruence).
    clear Heq. exists (lit "x" ++ d :: digits). split.
    + unfold matchReference.
      change (lit "&#x" ++ r) with (lit "&#" ++ lit "x" ++ r).
      rewrite stripPrefix_app, stripPrefix_app, Hdigits, Hsemi. done.
    + unfold decodeReference.
      change (startsWith (lit "x") (toLowerCase (lit "x" ++ d :: digits))) with true.
      cbv iota. change (drop 1 (lit "x" ++ d :: digits)) with (d :: digits).
      unfold parseInt.
      destruct (digitValue_hex d) as [v ->].
      { pose proof (takeWhile_all isHexDigit r) as Hall. rewrite Hdigits in Hall.
        by apply Forall_cons in Hall as [? _]. }
      by rewrite N.leb_antisym, negb_if.
  - destruct (stripPrefix (lit "&#") t) as [r|] eqn:Hr; [|done].
    apply stripPrefix_Some in Hr. subst t.
    destruct (stripPrefix (lit ";") (dropWhile (inRange 0x30 0x39) r)) as [rest'|] eqn:Hsemi;
      [|done].
    destruct (takeWhile (inRange 0x30 0x39) r) as [|d digits] eqn:Hdigits; [done|].
    intros Heq. change (isEmpty (d :: digits)) with false in Heq. cbv iota in Heq.
    assert (cp = parseDigits 10 0 (d :: digits)
            /\ text = lit "&#" ++ (d :: digits) ++ lit ";" /\ rest = rest')
      as (-> & -> & ->) by (repeat split; congruence).
    clear Heq.
    assert (stripPrefix (lit "x") r = None) as Hnox.
    { destruct (stripPrefix (lit "x") r) as [r'|] eqn:Hr'; [|done].
      apply stripPrefix_Some in Hr'. subst r.
      change (lit "&#" ++ lit "x" ++ r') with (lit "&#x" ++ r') in Hx.
      by rewrite stripPrefix_app in Hx. }
    apply stripPrefix_Some in Hsemi.
    pose proof (takeWhile_all (inRange 0x30 0x39) r) as Hall. rewrite Hdigits in Hall.
    destruct (span_unique isHexDigit (d :: digits) (lit ";" ++ rest')) as [Htake Hdrop].
    { eapply Forall_impl; [exact Hall|]. intros c. apply decimal_is_hex. }
    { done. }
    assert (r = (d :: digits) ++ lit ";" ++ rest') as Hsplit.
    { by rewrite <- (takeWhile_dropWhile (inRange 0x30 0x39) r), Hdigits, Hsemi. }
    exists (d :: digits). split.
    + unfold matchReference. rewrite stripPrefix_app, Hnox. rewrite Hsplit, Htake, Hdrop.
      simpl isEmpty. cbv iota. change ([] ++ d :: digits) with (d :: digits).
      by rewrite stripPrefix_app.
    + unfold decodeReference.
      apply Forall_cons in Hall as [Hd _].
      assert (startsWith (lit "x") (toLowerCase (d :: digits)) = false) as ->.
      { change (startsWith (lit "x") (toLowerCase (d :: digits)))
          with ((120 =? lowerUnit d) && true).
        by rewrite decimal_not_x. }
      unfold parseInt. destruct (digitValue_decimal d Hd) as [v ->].
      by rewrite N.leb_antisym, negb_if.
Qed.

(** On a value whose matches are all well formed the scan of the source and
    the decoding of the specification go in step. *)
Lemma referencesWellFormed_suffix (value t : jsstring) :
  referencesWellFormed value = true -> t `suffix_of` value ->
  matchReference t <> None -> specReference t <> None.
Proof.
  induction value as [|c r IH]; intros Hwf Hsuffix Hm.
  - apply suffix_nil_inv in Hsuffix. subst t. done.
  - destruct t as [|x t']; [done|].
    apply suffix_cons_inv in Hsuffix as [Heq|Hsuffix]; [rewrite Heq in *|].
    + cbn [referencesWellFormed] in Hwf. apply andb_true_iff in Hwf as [Hhere _].
      destruct (matchReference (c :: r)); [|done].
      apply bool_decide_eq_true in Hhere as [found Hfound]. by rewrite Hfound.
    + cbn [referencesWellFormed] in Hwf. apply andb_true_iff in Hwf as [_ Hrest].
      by apply IH.
Qed.

Lemma decode_agrees (value : jsstring) :
  referencesWellFormed value = true ->
  decodeNumericCharacterReferences value = specDecode value.
Proof.
  intros Hwf'. pose proof (referencesWellFormed_suffix value) as Hwf.
  specialize (fun t => Hwf t Hwf').
  unfold decodeNumericCharacterReferences, specDecode.
  assert (forall fuel t, t `suffix_of` value -> decodeFrom fuel t = specDecodeFrom fuel t)
    as Hgen; [|by apply Hgen].
  induction fuel as [|fuel IH]; intros t Hsuffix; [done|].
  destruct t as [|c r]; [done|]. simpl.
  destruct (matchReference (c :: r)) as [[[m raw] rest]|] eqn:Hm.
  - destruct (specReference (c :: r)) as [[[cp text] rest']|] eqn:Hs.
    + destruct (specReference_matches _ _ _ _ Hs) as (raw' & Hm' & Hdec).
      rewrite Hm in Hm'. injection Hm' as -> -> ->.
      rewrite Hdec. f_equal. apply IH.
      apply matchReference_split in Hm. etrans; [|exact Hsuffix].
      exists text. exact Hm.
    + exfalso. apply (Hwf (c :: r) Hsuffix); [by rewrite Hm | done].
  - destruct (specReference (c :: r)) as [[[cp text] rest']|] eqn:Hs.
    + destruct (specReference_matches _ _ _ _ Hs) as (raw' & Hm' & _). congruence.
    + f_equal. apply IH. etrans; [|exact Hsuffix]. by exists [c].
Qed.

(** So on such a value the check is the check of the specification. *)
Lemma isDangerousUrl_agrees (value : jsstring) :
  referencesWellFormed value = true -> isDangerousUrl value = specDangerous value.
Proof.
  intros Hwf. unfold isDangerousUrl, specDangerous.
  by rewrite removeControlAndSpace_filter, (decode_agrees value Hwf).
Qed.

(** C3, as amended: a value is dangerous exactly when, after each match of
    [&#], an optional [x], one or more hexadecimal digits and an optional
    semicolon is replaced as [decodeNumericCharacterReferences] does, every
    control and white space character is taken out and the rest is
    lower-cased, it starts with [javascript:] or with [data:]; and on a value
    in which every such match is a reference [&#NN;] or [&#xHH;] that is the
    check as the specification words it. *)
Theorem isDangerousUrl_normalized (value : jsstring) :
  let compact :=
    toLowerCase (List.filter (fun c => negb (isControlOrSpace c))
                             (decodeNumericCharacterReferences value)) in
  (isDangerousUrl value = true
   <-> lit "javascript:" `prefix_of` compact \/ lit "data:" `prefix_of` compact)
  /\ (referencesWellFormed value = true -> isDangerousUrl value = specDangerous value).
Proof.
  intros compact. split; [|apply isDangerousUrl_agrees].
  unfold isDangerousUrl. rewrite removeControlAndSpace_filter. fold compact.
  by rewrite orb_true_iff, !startsWith_prefix.
Qed.

Lemma isDangerousUrl_normalized_witness :
  referencesWellFormed (lit " java&#x73;cript:alert(1)") = true
  /\ isDangerousUrl (lit " java&#x73;cript:alert(1)")
     = specDangerous (lit " java&#x73;cript:alert(1)").
Proof.
  split; [reflexivity|].
  exact (proj2 (isDangerousUrl_normalized (lit " java&#x73;cript:alert(1)")) eq_refl).
Defined.

(** C3, as stated, fails: [&#100a;] and [&#58] are not references of the
    form [&#NN;] or [&#xHH;], yet the check decodes them, to [d] and to a
    colon, and calls the values dangerous. *)
Lemma isDangerousUrl_lenient_references :
  isDangerousUrl (lit "&#100a;ata:") = true
  /\ specDangerous (lit "&#100a;ata:") = false
  /\ isDangerousUrl (lit "data&#58") = true
  /\ specDangerous (lit "data&#58") = false.
Proof. vm_compute. done. Qed.

Example isDangerousUrl_obfuscated :
  isDangerousUrl (lit " java&#x73;cript:alert(1)") = true
  /\ specDangerous (lit " java&#x73;cript:alert(1)") = true
  /\ isDangerousUrl (lit "https://example.com/?q=javascript:") = false.
Proof. vm_compute. done. Qed.

End UrlFacts.

(** ** Counters of a pass and the saturation shortcut *)

Section CounterFacts.

Context {env : Collaborators}.

Lemma slack_comm (used : gmap jsstring nat) (j1 j2 : jsstring) (z1 z2 y : nat) :
  (y + weight used j2 z2 + weight used j1 z1)%nat
  = (y + weight used j1 z1 + weight used j2 z2)%nat.
Proof. lia. Qed.

Lemma slack_insert (counts used : gmap jsstring nat) (tag : jsstring) (count : nat) :
  counts !! tag = None ->
  slack (<[tag := count]> counts) used = (slack counts used + weight used tag count)%nat.
Proof.
  intros Hnone. unfold slack.
  rewrite map_fold_insert_L; [done | | done].
  intros. apply slack_comm.
Qed.

Lemma slack_delete (counts used : gmap jsstring nat) (tag : jsstring) (count : nat) :
  counts !! tag = Some count ->
  slack counts used = (slack (delete tag counts) used + weight used tag count)%nat.
Proof.
  intros Hsome. unfold slack.
  rewrite (map_fold_delete_L _ _ tag count counts); [done | | done].
  intros. apply slack_comm.
Qed.

Lemma slack_local (counts used1 used2 : gmap jsstring nat) :
  (forall tag count, counts !! tag = Some count ->
                     weight used1 tag count = weight used2 tag count) ->
  slack counts used1 = slack counts used2.
Proof.
  induction counts as [|tag count counts Hnone IH] using map_ind; intros Hw.
  - done.
  - rewrite !slack_insert by done.
    rewrite IH, (Hw tag count); [done | by rewrite lookup_insert_eq |].
    intros tag' count' Hl. apply Hw. rewrite lookup_insert_ne; [done|].
    intros ->. congruence.
Qed.

Lemma total_slack (policy : CompiledPolicy) :
  totalAllowedTagsOf policy = slack (tagCounts policy) ∅.
Proof.
  unfold totalAllowedTagsOf.
  induction (tagCounts policy) as [|tag count counts Hnone IH] using map_ind.
  - done.
  - rewrite slack_insert by done.
    rewrite map_fold_insert_L; [| |done].
    + rewrite IH. unfold weight. rewrite lookup_empty. simpl.
      destruct (isStructuralTag tag); lia.
    + intros j1 j2 z1 z2 y _ _ _.
      destruct (isStructuralTag j1), (isStructuralTag j2); lia.
Qed.

(** When nothing is left to take, every tag that is not structural has used
    up its count. *)
Lemma slack_zero (policy : CompiledPolicy) (st : PassState) (tag : jsstring) :
  slack (tagCounts policy) (usedTagCounts st) = 0%nat ->
  isStructuralTag tag = false ->
  (allowedCountOf policy tag <= usedOf st tag)%nat.
Proof.
  intros Hzero Hns. unfold allowedCountOf, usedOf.
  destruct (tagCounts policy !! tag) as [count|] eqn:Hc; simpl; [|lia].
  rewrite (slack_delete _ _ _ _ Hc) in Hzero.
  unfold weight in Hzero. rewrite Hns in Hzero. lia.
Qed.

Lemma countersOk_initial (policy : CompiledPolicy) (d : Dom.forest) :
  countersOk policy (initialState policy d).
Proof.
  split; simpl.
  - intros tag. unfold usedOf. simpl. rewrite lookup_empty. simpl. lia.
  - by rewrite total_slack.
  - intros Hz. apply Nat.eqb_eq in Hz. lia.
Qed.

(** Only the counters matter. *)
Lemma countersOk_same (policy : CompiledPolicy) (st st' : PassState) :
  usedTagCounts st' = usedTagCounts st ->
  usedTotalTags st' = usedTotalTags st ->
  (countsSaturated st' = true ->
   countsSaturated st = true \/ (totalAllowedTagsOf policy <= usedTotalTags st)%nat) ->
  countersOk policy st -> countersOk policy st'.
Proof.
  intros Hu Ht Hs [Hle Hslack Hsat]. split.
  - intros tag. unfold usedOf. rewrite Hu. apply Hle.
  - by rewrite Hu, Ht.
  - intros Hflag. rewrite Ht. destruct (Hs Hflag); auto.
Qed.

Lemma countersOk_setDoc (policy : CompiledPolicy) (d : Dom.forest) (st : PassState) :
  countersOk policy st -> countersOk policy (setDoc d st).
Proof. apply countersOk_same; simpl; auto. Qed.

(** Keeping one more element of a tag with room left. *)
Lemma countersOk_use (policy : CompiledPolicy) (st : PassState) (tag : jsstring) :
  isStructuralTag tag = false ->
  (usedOf st tag < allowedCountOf policy tag)%nat ->
  countersOk policy st ->
  countersOk policy
    {| doc := doc st;
       usedTagCounts := <[tag := (usedOf st tag + 1)%nat]> (usedTagCounts st);
       usedTotalTags := (usedTotalTags st + 1)%nat;
       countsSaturated := countsSaturated st |}.
Proof.
  intros Hns Hlt [Hle Hslack Hsat]. split; simpl.
  - intros tag'. unfold usedOf at 1. simpl.
    destruct (decide (tag = tag')) as [<-|Hne].
    + rewrite lookup_insert_eq. simpl. lia.
    + rewrite lookup_insert_ne by done. apply Hle.
  - unfold allowedCountOf in Hlt.
    destruct (tagCounts policy !! tag) as [count|] eqn:Hc; simpl in Hlt; [|lia].
    rewrite <- Hslack. rewrite !(slack_delete (tagCounts policy) _ tag count Hc).
    rewrite (slack_local (delete tag (tagCounts policy))
               (<[tag := (usedOf st tag + 1)%nat]> (usedTagCounts st)) (usedTagCounts st)).
    + unfold weight. rewrite Hns, lookup_insert_eq. simpl. fold (usedOf st tag). lia.
    + intros tag' count' Hl. unfold weight.
      rewrite lookup_insert_ne; [done|]. intros ->. by rewrite lookup_delete_eq in Hl.
  - intros Hflag. specialize (Hsat Hflag).
    unfold allowedCountOf in Hlt.
    destruct (tagCounts policy !! tag) as [count|] eqn:Hc; simpl in Hlt; [|lia].
    rewrite (slack_delete (tagCounts policy) _ tag count Hc) in Hslack.
    unfold weight in Hslack. rewrite Hns in Hslack. fold (usedOf st tag) in Hslack. lia.
Qed.

Lemma countersOk_finishElement (policy : CompiledPolicy) (h : nat) (element : Dom.node)
    (tag : jsstring) (isStructural : bool) (st : PassState) :
  countersOk policy st -> countersOk policy (finishElement policy h element tag isStructural st).
Proof.
  intros Hok. unfold finishElement.
  set (st1 := setDoc _ st).
  assert (countersOk policy st1) as Hok1 by by apply countersOk_setDoc.
  destruct (negb isStructural && negb (countsSaturated st1)
            && Nat.leb (totalAllowedTagsOf policy) (usedTotalTags st1)) eqn:Hcond.
  - apply andb_true_iff in Hcond as [_ Hle]. apply Nat.leb_le in Hle.
    set (st2 := {| doc := doc st1; usedTagCounts := usedTagCounts st1;
                   usedTotalTags := usedTotalTags st1; countsSaturated := true |}).
    assert (countersOk policy st2) as Hok2.
    { apply (countersOk_same policy st1); simpl; auto. }
    destruct (eqb tag (lit "style")); [by apply countersOk_setDoc | done].
  - destruct (eqb tag (lit "style")); [by apply countersOk_setDoc | done].
Qed.

Lemma enforceBudget_countersOk (policy : CompiledPolicy) (h : nat) (tag : jsstring)
    (st : PassState) :
  isStructuralTag tag = false -> countersOk policy st ->
  match enforceBudget policy h tag st with
  | Continue st' | Proceed st' => countersOk policy st'
  end.
Proof.
  intros Hns Hok. unfold enforceBudget.
  destruct (countsSaturated st) eqn:Hflag.
  - destruct (Nat.eqb _ 0); by apply countersOk_setDoc.
  - destruct (Nat.eqb _ 0); [by apply countersOk_setDoc|].
    fold (usedOf st tag).
    destruct (Nat.leb_spec (allowedCountOf policy tag) (usedOf st tag)) as [|Hlt].
    + by apply countersOk_setDoc.
    + pose proof (countersOk_use policy st tag Hns Hlt Hok) as Hu.
      by rewrite Hflag in Hu.
Qed.

(** With the counters in order the saturation branch decides as the
    per-tag counting does. *)
Lemma enforceBudget_counting (policy : CompiledPolicy) (h : nat) (tag : jsstring)
    (st : PassState) :
  isStructuralTag tag = false -> countersOk policy st ->
  enforceBudget policy h tag st = enforceBudgetCounting policy h tag st.
Proof.
  intros Hns [Hle Hslack Hsat]. unfold enforceBudget, enforceBudgetCounting.
  destruct (countsSaturated st) eqn:Hflag; [|done].
  destruct (Nat.eqb (allowedCountOf policy tag) 0) eqn:Hzero; [done|].
  fold (usedOf st tag).
  assert (allowedCountOf policy tag <= usedOf st tag)%nat as Hfull.
  { apply slack_zero; [|done]. specialize (Hsat eq_refl). lia. }
  apply Nat.leb_le in Hfull. by rewrite Hfull.
Qed.

Lemma visit_countersOk (policy : CompiledPolicy) (st : PassState) (h : nat) :
  countersOk policy st -> countersOk policy (visit policy st h).
Proof.
  intros Hok. unfold visit.
  destruct (Dom.findElement h (doc st)) as [element|]; [|done].
  destruct (negb (allowJavaScriptOf policy) && eqb _ (lit "script"));
    [by apply countersOk_setDoc|].
  destruct (eqb _ (lit "style") && negb (allowStyleTagOf policy));
    [by apply countersOk_setDoc|].
  destruct (isStructuralTag (toLowerCase (tagNameOf element))) eqn:Hs.
  - by apply countersOk_finishElement.
  - pose proof (enforceBudget_countersOk policy h _ st Hs Hok) as Hb.
    destruct (enforceBudget policy h (toLowerCase (tagNameOf element)) st); [done|].
    by apply countersOk_finishElement.
Qed.

Lemma visit_counting (policy : CompiledPolicy) (st : PassState) (h : nat) :
  countersOk policy st -> visit policy st h = visitCounting policy st h.
Proof.
  intros Hok. unfold visit, visitCounting.
  destruct (Dom.findElement h (doc st)) as [element|]; [|done].
  destruct (negb (allowJavaScriptOf policy) && eqb _ (lit "script")); [done|].
  destruct (eqb _ (lit "style") && negb (allowStyleTagOf policy)); [done|].
  destruct (isStructuralTag (toLowerCase (tagNameOf element))) eqn:Hs; [done|].
  by rewrite enforceBudget_counting.
Qed.

Lemma enforce_countersOk (policy : CompiledPolicy) (hs : list nat) (st : PassState) :
  countersOk policy st -> countersOk policy (foldl (visit policy) st hs).
Proof.
  revert st. induction hs as [|h hs IH]; intros st Hok; simpl; [done|].
  apply IH. by apply visit_countersOk.
Qed.

(** C6: the pass with the saturation branch and the pass that only ever
    counts per tag leave the same document, and the same counters. *)
Theorem saturation_shortcut_is_transparent (policy : CompiledPolicy) (d : Dom.forest) :
  enforce policy d = enforceCounting policy d
  /\ filterDocument policy d = doc (enforceCounting policy d).
Proof.
  assert (forall hs st, countersOk policy st ->
            foldl (visit policy) st hs = foldl (visitCounting policy) st hs) as Hfold.
  { induction hs as [|h hs IH]; intros st Hok; simpl; [done|].
    rewrite <- (visit_counting policy st h Hok). apply IH. by apply visit_countersOk. }
  assert (enforce policy d = enforceCounting policy d) as Heq.
  { apply Hfold, countersOk_initial. }
  split; [done|]. unfold filterDocument. by rewrite Heq.
Qed.

End CounterFacts.

(** ** The element tree *)

Section DomFacts.

Import Dom.

Lemma node_forall_ind (P : node -> Prop) :
  (forall s, P (Text s)) ->
  (forall s, P (Comment s)) ->
  (forall h t a c, Forall P c -> P (Element h t a c)) ->
  forall n, P n.
Proof.
  intros HT HC HE. fix IH 1. intros [s|s|h t a c]; [apply HT | apply HC |].
  apply HE. induction c as [|x c IHc]; constructor; [apply IH | exact IHc].
Qed.

Lemma tagged_nil : tagged [] = [].
Proof. reflexivity. Qed.

Lemma tagged_app (d1 d2 : forest) : tagged (d1 ++ d2) = tagged d1 ++ tagged d2.
Proof. unfold tagged, allElements. by rewrite flat_map_app, fmap_app. Qed.

Lemma tagged_cons (n : node) (d : forest) : tagged (n :: d) = tagged [n] ++ tagged d.
Proof. apply (tagged_app [n] d). Qed.

Lemma tagged_element h t a c : tagged [Element h t a c] = (h, t) :: tagged c.
Proof. unfold tagged, allElements. simpl. by rewrite app_nil_r. Qed.

Lemma elements_tagged (d : forest) : elements d = (tagged d).*1.
Proof.
  induction d as [|n d IH]; [done|].
  rewrite tagged_cons, fmap_app, <- IH. unfold elements at 1. simpl. f_equal.
  induction n as [s|s|h t a c IHc] using node_forall_ind; [done | done |].
  rewrite tagged_element. simpl. f_equal.
  induction IHc as [|x c Hx _ IHc']; [done|].
  rewrite tagged_cons, fmap_app. simpl. by rewrite Hx, IHc'.
Qed.

Lemma allElements_app (d1 d2 : forest) :
  allElements (d1 ++ d2) = allElements d1 ++ allElements d2.
Proof. unfold allElements. by rewrite flat_map_app. Qed.

Lemma allElements_cons (n : node) (d : forest) :
  allElements (n :: d) = allElements [n] ++ allElements d.
Proof. apply (allElements_app [n] d). Qed.

Lemma allElements_element h t a c :
  allElements [Element h t a c] = (h, t, a) :: allElements c.
Proof. unfold allElements. simpl. by rewrite app_nil_r. Qed.

Lemma tagged_allElements (d : forest) :
  tagged d = (fun e => (e.1.1, e.1.2)) <$> allElements d.
Proof. reflexivity. Qed.

Lemma subnodes_cons (n : node) (d : forest) : subnodes (n :: d) = subnodesOf n ++ subnodes d.
Proof. reflexivity. Qed.

(** What [findElement] returns is an element of the tree with that handle. *)
Lemma findElement_Some (h : nat) (d : forest) (n : node) :
  findElement h d = Some n -> n ∈ subnodes d /\ handleOf n = h.
Proof.
  revert n. induction d as [|x d IHd]; intros n; [done|].
  rewrite subnodes_cons. simpl findElement.
  assert (forall m, findNode h x = Some m -> m ∈ subnodesOf x /\ handleOf m = h) as Hx.
  { clear. induction x as [s|s|h' t a c IHc] using node_forall_ind; intros m; [done | done |].
    simpl. destruct (Nat.eqb_spec h h') as [->|Hne].
    - intros [= <-]. split; [left | done].
    - intros Hgo. cut (m ∈ flat_map subnodesOf c /\ handleOf m = h).
      { intros [Hin ?]. split; [by right | done]. }
      induction IHc as [|y c Hy _ IHc']; [done|].
      simpl. destruct (findNode h y) as [m'|] eqn:Hf.
      + injection Hgo as ->. destruct (Hy _ eq_refl). split; [|done].
        apply elem_of_app. by left.
      + destruct (IHc' Hgo). split; [|done]. apply elem_of_app. by right. }
  destruct (findNode h x) as [m|] eqn:Hf.
  - intros [= <-]. destruct (Hx _ eq_refl). split; [|done]. apply elem_of_app. by left.
  - intros Hd. destruct (IHd _ Hd). split; [|done]. apply elem_of_app. by right.
Qed.

(** An element that is not found is not in the tree. *)
Lemma findElement_None (h : nat) (d : forest) :
  findElement h d = None -> h ∉ elements d.
Proof.
  induction d as [|x d IHd]; [intros _; apply not_elem_of_nil|].
  simpl. unfold elements. simpl. fold (elements d).
  assert (findNode h x = None -> h ∉ handlesOf x) as Hx.
  { clear. induction x as [s|s|h' t a c IHc] using node_forall_ind;
      [intros _; apply not_elem_of_nil | intros _; apply not_elem_of_nil |].
    simpl. destruct (Nat.eqb_spec h h') as [->|Hne]; [done|].
    intros Hgo. apply not_elem_of_cons. split; [done|].
    induction IHc as [|y c Hy _ IHc']; [apply not_elem_of_nil|].
    simpl. destruct (findNode h y) as [m'|] eqn:Hf; [done|].
    apply not_elem_of_app. split; [by apply Hy | by apply IHc']. }
  destruct (findNode h x) as [m|] eqn:Hf; [done|].
  intros Hd. apply not_elem_of_app. split; [by apply Hx | by apply IHd].
Qed.

(** An element of the tree holds its own elements. *)
Lemma subnodes_tagged (n : node) (d : forest) :
  n ∈ subnodes d -> tagged [n] `sublist_of` tagged d.
Proof.
  induction d as [|x d IHd]; [by intros ?%elem_of_nil|].
  rewrite subnodes_cons, (tagged_cons x d). intros [Hin|Hin]%elem_of_app.
  - apply sublist_inserts_r. clear IHd. revert Hin.
    induction x as [s|s|h t a c IHc] using node_forall_ind;
      [by intros ?%elem_of_nil | by intros ?%elem_of_nil |].
    simpl. intros [->|Hin]%elem_of_cons; [done|].
    rewrite tagged_element. apply sublist_cons.
    induction IHc as [|y c Hy _ IHc']; [by apply elem_of_nil in Hin|].
    simpl in Hin. rewrite (tagged_cons y c). apply elem_of_app in Hin as [Hin|Hin].
    + apply sublist_inserts_r. by apply Hy.
    + apply sublist_inserts_l. by apply IHc'.
  - apply sublist_inserts_l. by apply IHd.
Qed.

Lemma subnodes_allElements (n : node) (d : forest) :
  n ∈ subnodes d -> allElements [n] ⊆ allElements d.
Proof.
  induction d as [|x d IHd]; [by intros ?%elem_of_nil|].
  rewrite subnodes_cons, (allElements_cons x d). intros [Hin|Hin]%elem_of_app.
  - intros e He. apply elem_of_app. left. clear IHd. revert Hin e He.
    induction x as [s|s|h t a c IHc] using node_forall_ind;
      [by intros ?%elem_of_nil | by intros ?%elem_of_nil |].
    cbn [subnodesOf]. intros [->|Hin]%elem_of_cons; [done|].
    intros e He. rewrite allElements_element. right.
    induction IHc as [|y c Hy _ IHc']; [by apply elem_of_nil in Hin|].
    simpl in Hin. rewrite (allElements_cons y c). apply elem_of_app.
    apply elem_of_app in Hin as [Hin|Hin]; [left; by apply Hy | right; by apply IHc'].
  - intros e He. apply elem_of_app. right. by apply IHd.
Qed.

End DomFacts.

Section SubstFacts.

Import Dom.

Lemma subst_cons (k : nat) (f : node -> list node) (x : node) (d : forest) :
  subst k f (x :: d) = substNode k f x ++ subst k f d.
Proof. reflexivity. Qed.

Lemma subnodes_element (n : node) (d : forest) :
  n ∈ subnodes d -> exists h t a c, n = Element h t a c.
Proof.
  induction d as [|x d IHd]; [by intros ?%elem_of_nil|].
  rewrite subnodes_cons. intros [Hin|Hin]%elem_of_app; [|by apply IHd].
  clear IHd. revert Hin.
  induction x as [s|s|h t a c IHc] using node_forall_ind;
    [by intros ?%elem_of_nil | by intros ?%elem_of_nil |].
  cbn [subnodesOf]. intros [->|Hin]%elem_of_cons; [by eauto|].
  induction IHc as [|y c Hy _ IHc']; [by apply elem_of_nil in Hin|].
  simpl in Hin. apply elem_of_app in Hin as [Hin|Hin]; [by apply Hy | by apply IHc'].
Qed.

(** Replacing an element by some of its own elements leaves a sublist of
    the elements of the tree. *)
Lemma tagged_subst_sublist (k : nat) (f : node -> list node) (d : forest) :
  (forall n, tagged (f n) `sublist_of` tagged [n]) ->
  tagged (subst k f d) `sublist_of` tagged d.
Proof.
  intros Hf. induction d as [|x d IHd]; [done|].
  rewrite subst_cons, tagged_app, (tagged_cons x d).
  apply sublist_app; [|exact IHd]. clear IHd.
  induction x as [s|s|h t a c IHc] using node_forall_ind; [done | done |].
  simpl. destruct (Nat.eqb k h); [apply Hf|].
  rewrite !tagged_element. apply sublist_skip.
  induction IHc as [|y c Hy _ IHc']; [done|].
  simpl. rewrite tagged_app, (tagged_cons y c). by apply sublist_app.
Qed.

(** An element of the tree after a replacement was either there before,
    under another handle, or comes from what replaced an element with the
    handle. *)
Lemma allElements_subst_inv (k : nat) (f : node -> list node) (d : forest) e :
  e ∈ allElements (subst k f d) ->
  (e ∈ allElements d /\ e.1.1 <> k)
  \/ (exists n, n ∈ subnodes d /\ handleOf n = k /\ e ∈ allElements (f n)).
Proof.
  induction d as [|x d IHd]; [by intros ?%elem_of_nil|].
  rewrite subst_cons, allElements_app, (allElements_cons x d), subnodes_cons.
  intros [Hin|Hin]%elem_of_app.
  - cut ((e ∈ allElements [x] /\ e.1.1 <> k)
         \/ (exists n, n ∈ subnodesOf x /\ handleOf n = k /\ e ∈ allElements (f n))).
    { intros [[? ?]|(n & ? & ? & ?)]; [left | right].
      - split; [apply elem_of_app; by left | done].
      - exists n. split; [apply elem_of_app; by left | done]. }
    clear IHd. revert Hin.
    induction x as [s|s|h t a c IHc] using node_forall_ind;
      [by intros ?%elem_of_nil | by intros ?%elem_of_nil |].
    cbn [substNode subnodesOf]. destruct (Nat.eqb_spec k h) as [->|Hne].
    + intros Hin. right. exists (Element h t a c). split; [by left | done].
    + rewrite !allElements_element. intros [->|Hin]%elem_of_cons.
      * left. split; [by left | simpl; congruence].
      * cut ((e ∈ allElements c /\ e.1.1 <> k)
             \/ (exists n, n ∈ flat_map subnodesOf c /\ handleOf n = k
                           /\ e ∈ allElements (f n))).
        { intros [[? ?]|(n & ? & ? & ?)]; [left | right].
          - split; [by right | done].
          - exists n. split; [by right | done]. }
        induction IHc as [|y c Hy _ IHc']; [by apply elem_of_nil in Hin|].
        simpl in Hin. rewrite allElements_app in Hin.
        rewrite (allElements_cons y c). simpl flat_map.
        apply elem_of_app in Hin as [Hin|Hin].
        -- destruct (Hy Hin) as [[? ?]|(n & ? & ? & ?)]; [left | right].
           ++ split; [apply elem_of_app; by left | done].
           ++ exists n. split; [apply elem_of_app; by left | done].
        -- destruct (IHc' Hin) as [[? ?]|(n & ? & ? & ?)]; [left | right].
           ++ split; [apply elem_of_app; by right | done].
           ++ exists n. split; [apply elem_of_app; by right | done].
  - destruct (IHd Hin) as [[? ?]|(n & ? & ? & ?)]; [left | right].
    + split; [apply elem_of_app; by right | done].
    + exists n. split; [apply elem_of_app; by right | done].
Qed.

Lemma elements_allElements (d : forest) : elements d = (fun e => e.1.1) <$> allElements d.
Proof.
  rewrite elements_tagged, tagged_allElements, <- list_fmap_compose. done.
Qed.

Lemma elem_of_elements (k : nat) (d : forest) :
  k ∈ elements d <-> exists e, e ∈ allElements d /\ e.1.1 = k.
Proof.
  rewrite elements_allElements, list_elem_of_fmap. split.
  - intros (e & -> & He). by exists e.
  - intros (e & He & <-). by exists e.
Qed.

(** Under distinct handles, an element of the tree does not hold its own
    handle again. *)
Lemma subnodes_NoDup (d : forest) h t a c :
  NoDup (elements d) -> Element h t a c ∈ subnodes d -> h ∉ elements c.
Proof.
  intros Hnd Hin. apply subnodes_tagged in Hin.
  rewrite tagged_element in Hin.
  apply (fmap_sublist fst) in Hin. rewrite <- elements_tagged in Hin.
  apply (sublist_NoDup _ _ Hnd) in Hin. simpl in Hin.
  rewrite <- elements_tagged in Hin. by apply NoDup_cons in Hin as [? _].
Qed.

(** Under distinct handles, a handle names one tag. *)
Lemma subnodes_same_tag (d : forest) (n1 n2 : node) :
  NoDup (elements d) -> n1 ∈ subnodes d -> n2 ∈ subnodes d ->
  handleOf n1 = handleOf n2 -> tagNameOf n1 = tagNameOf n2.
Proof.
  intros Hnd H1 H2 Hh.
  destruct (subnodes_element _ _ H1) as (h1 & t1 & a1 & c1 & ->).
  destruct (subnodes_element _ _ H2) as (h2 & t2 & a2 & c2 & ->).
  simpl in *. subst h2.
  apply subnodes_tagged in H1, H2. rewrite tagged_element in H1, H2.
  assert ((h1, t1) ∈ tagged d) as Hin1 by (eapply elem_of_sublist; [by left | exact H1]).
  assert ((h1, t2) ∈ tagged d) as Hin2 by (eapply elem_of_sublist; [by left | exact H2]).
  rewrite elements_tagged in Hnd. clear -Hnd Hin1 Hin2.
  induction (tagged d) as [|[h t] l IH]; [by apply elem_of_nil in Hin1|].
  simpl in Hnd. apply NoDup_cons in Hnd as [Hh Hnd].
  apply elem_of_cons in Hin1 as [Heq1|Hin1]; apply elem_of_cons in Hin2 as [Heq2|Hin2].
  - congruence.
  - injection Heq1 as <- <-. exfalso. apply Hh. apply list_elem_of_fmap. by exists (h1, t2).
  - injection Heq2 as <- <-. exfalso. apply Hh. apply list_elem_of_fmap. by exists (h1, t1).
  - by apply IH.
Qed.

Lemma remove_tagged (k : nat) (d : forest) : tagged (remove k d) `sublist_of` tagged d.
Proof. apply tagged_subst_sublist. intros n. apply sublist_nil_l. Qed.

Lemma unwrap_tagged (k : nat) (d : forest) : tagged (unwrapElement k d) `sublist_of` tagged d.
Proof.
  apply tagged_subst_sublist. intros [s|s|h t a c]; simpl; [done | done |].
  rewrite tagged_element. by apply sublist_cons.
Qed.

Lemma withAttributes_tagged (k : nat) f (d : forest) :
  tagged (withAttributes k f d) `sublist_of` tagged d.
Proof.
  apply tagged_subst_sublist. intros [s|s|h t a c]; [done | done |].
  by rewrite !tagged_element.
Qed.

Lemma setTextContent_tagged (k : nat) s (d : forest) :
  tagged (setTextContent k s d) `sublist_of` tagged d.
Proof.
  apply tagged_subst_sublist. intros [s'|s'|h t a c]; [done | done |].
  rewrite !tagged_element. apply sublist_skip, sublist_nil_l.
Qed.

Lemma remove_allElements (k : nat) (d : forest) e :
  e ∈ allElements (remove k d) -> e ∈ allElements d /\ e.1.1 <> k.
Proof.
  intros [?|(n & _ & _ & Hin)]%allElements_subst_inv; [done|].
  by apply elem_of_nil in Hin.
Qed.

Lemma unwrap_allElements (k : nat) (d : forest) e :
  NoDup (elements d) ->
  e ∈ allElements (unwrapElement k d) -> e ∈ allElements d /\ e.1.1 <> k.
Proof.
  intros Hnd [?|(n & Hn & Hk & Hin)]%allElements_subst_inv; [done|].
  destruct (subnodes_element _ _ Hn) as (h & t & a & c & ->). simpl in Hk, Hin. subst h.
  split.
  - apply (subnodes_allElements _ _ Hn). rewrite allElements_element. by right.
  - intros Heq. apply (subnodes_NoDup _ _ _ _ _ Hnd Hn).
    apply elem_of_elements. by exists e.
Qed.

Lemma setTextContent_allElements (k : nat) s (d : forest) e :
  e ∈ allElements (setTextContent k s d) -> e ∈ allElements d.
Proof.
  intros [[? _]|(n & Hn & Hk & Hin)]%allElements_subst_inv; [done|].
  destruct (subnodes_element _ _ Hn) as (h & t & a & c & ->).
  rewrite allElements_element in Hin. apply elem_of_cons in Hin as [->|Hin].
  - apply (subnodes_allElements _ _ Hn). rewrite allElements_element. by left.
  - by apply elem_of_nil in Hin.
Qed.

(** After [withAttributes] an element is an old one under another handle, or
    the element with the handle, its attributes filtered. *)
Lemma withAttributes_allElements (k : nat) f (d : forest) e :
  NoDup (elements d) ->
  e ∈ allElements (withAttributes k f d) ->
  (e ∈ allElements d /\ e.1.1 <> k)
  \/ (exists t a c, Element k t a c ∈ subnodes d /\ e = (k, t, f a)).
Proof.
  intros Hnd [?|(n & Hn & Hk & Hin)]%allElements_subst_inv; [by left|].
  destruct (subnodes_element _ _ Hn) as (h & t & a & c & ->). simpl in Hk. subst h.
  rewrite allElements_element in Hin. apply elem_of_cons in Hin as [->|Hin].
  - right. by exists t, a, c.
  - left. split.
    + apply (subnodes_allElements _ _ Hn). rewrite allElements_element. by right.
    + intros Heq. apply (subnodes_NoDup _ _ _ _ _ Hnd Hn).
      apply elem_of_elements. by exists e.
Qed.

Lemma sublist_elements (d d' : forest) :
  tagged d' `sublist_of` tagged d -> elements d' `sublist_of` elements d.
Proof. intros Hs. rewrite !elements_tagged. by apply fmap_sublist. Qed.

End SubstFacts.

(** ** The snapshot of a pass *)

Section SnapshotFacts.

Import Dom.

Lemma snapshot_sublist (d : forest) : snapshot d `sublist_of` elements d.
Proof.
  assert (forall l, Forall (fun n => snapshotOf n `sublist_of` handlesOf n) l ->
                    flat_map snapshotOf l `sublist_of` flat_map handlesOf l) as Hforest.
  { induction 1 as [|x l Hx _ IH]; [done|]. simpl. by apply sublist_app. }
  apply Hforest, Forall_forall. intros n _.
  induction n as [s|s|h t a c IHc] using node_forall_ind; [done | done |].
  simpl. apply sublist_skip. destruct (isTemplate t); [apply sublist_nil_l | by apply Hforest].
Qed.

Lemma snapshot_elements (d : forest) (h : nat) : h ∈ snapshot d -> h ∈ elements d.
Proof. intros Hh. eapply elem_of_sublist; [exact Hh | apply snapshot_sublist]. Qed.

Lemma elem_of_hidden (d : forest) (h : nat) :
  h ∈ hidden d <-> h ∈ elements d /\ h ∉ snapshot d.
Proof.
  unfold hidden. rewrite list_elem_of_In, filter_In, <- list_elem_of_In.
  by rewrite negb_true_iff, bool_decide_eq_false.
Qed.

(** A document with no element inside the content of a template element. *)
Lemma hidden_nil (d : forest) : snapshot d = elements d -> hidden d = [].
Proof.
  intros Hfull. destruct (hidden d) as [|h l] eqn:Hh; [done|].
  assert (h ∈ hidden d) as Hin by (rewrite Hh; left).
  apply elem_of_hidden in Hin as [Hin Hout]. by rewrite Hfull in Hout.
Qed.

(** Every element is in the snapshot or hidden from it. *)
Lemma waiting_all (d : forest) (h : nat) : h ∈ elements d -> h ∈ snapshot d ++ hidden d.
Proof.
  intros Hh. apply elem_of_app. destruct (decide (h ∈ snapshot d)); [by left | right].
  by apply elem_of_hidden.
Qed.

Lemma filter_sublist {A} (p : A -> bool) (l : list A) : List.filter p l `sublist_of` l.
Proof.
  induction l as [|x l IH]; [done|]. simpl.
  destruct (p x); [by apply sublist_skip | by apply sublist_cons].
Qed.

Lemma waiting_NoDup (d : forest) : NoDup (elements d) -> NoDup (snapshot d ++ hidden d).
Proof.
  intros Hnd. apply NoDup_app. split; [|split].
  - eapply sublist_NoDup; [exact Hnd | apply snapshot_sublist].
  - intros h Hs Hh. by apply elem_of_hidden in Hh as [_ Hout].
  - eapply sublist_NoDup; [exact Hnd | apply filter_sublist].
Qed.

End SnapshotFacts.

(** ** Attribute filter *)

Section AttributeFacts.

Context {env : Collaborators}.

Import Dom.

Lemma eqb_true (a b : jsstring) : eqb a b = true <-> a = b.
Proof. apply bool_decide_eq_true. Qed.

Lemma eqb_false (a b : jsstring) : eqb a b = false <-> a <> b.
Proof. apply bool_decide_eq_false. Qed.

Lemma countName_remove_same (n : jsstring) (l : list (jsstring * jsstring)) :
  countName n (removeAttribute n l) = pred (countName n l).
Proof.
  unfold countName. induction l as [|a l IH]; [done|].
  simpl. destruct (eqb a.1 n) eqn:Ha; simpl; [done|]. by rewrite Ha.
Qed.

Lemma countName_remove_other (m n : jsstring) (l : list (jsstring * jsstring)) :
  m <> n -> countName n (removeAttribute m l) = countName n l.
Proof.
  intros Hne. unfold countName. induction l as [|a l IH]; [done|].
  simpl. destruct (eqb a.1 m) eqn:Ha; simpl.
  - apply eqb_true in Ha. apply eqb_false in Hne. rewrite Ha. by rewrite Hne.
  - destruct (eqb a.1 n); simpl; by rewrite IH.
Qed.

Lemma countName_set_other (m n v : jsstring) (l : list (jsstring * jsstring)) :
  m <> n -> countName n (setAttribute m v l) = countName n l.
Proof.
  intros Hne. unfold countName. induction l as [|a l IH]; simpl.
  - apply eqb_false in Hne. by rewrite Hne.
  - destruct (eqb a.1 m) eqn:Ha; simpl.
    + apply eqb_true in Ha. apply eqb_false in Hne. rewrite Ha. by rewrite Hne.
    + destruct (eqb a.1 n); simpl; by rewrite IH.
Qed.

Lemma countName_cons (n : jsstring) (a : jsstring * jsstring) (l : list (jsstring * jsstring)) :
  countName n (a :: l) = ((if eqb a.1 n then 1 else 0) + countName n l)%nat.
Proof. unfold countName. simpl. by destruct (eqb a.1 n). Qed.

(** One step of the attribute loop: a name that is to be stripped never
    occurs more often in the list than among the attributes still to
    visit. *)
Lemma filterAttribute_counts (tag : jsstring) (allowedAttrs : gset jsstring)
    (styleAllowlist : gmap jsstring (gset jsstring)) (allowJS : bool)
    (cur todo : list (jsstring * jsstring)) (a : jsstring * jsstring) :
  (forall n, strippedName allowedAttrs allowJS n = true ->
             (countName n cur <= countName n (a :: todo))%nat) ->
  forall n, strippedName allowedAttrs allowJS n = true ->
            (countName n (filterAttribute tag allowedAttrs styleAllowlist allowJS cur a)
             <= countName n todo)%nat.
Proof.
  intros Hinv n Hn. specialize (Hinv n Hn). rewrite countName_cons in Hinv.
  assert (strippedName allowedAttrs allowJS a.1 = true ->
          (countName n (removeAttribute a.1 cur) <= countName n todo)%nat) as Hstrip.
  { intros _. destruct (eqb a.1 n) eqn:Ha.
    - apply eqb_true in Ha. rewrite Ha, countName_remove_same. lia.
    - apply eqb_false in Ha. rewrite countName_remove_other by done. lia. }
  assert (strippedName allowedAttrs allowJS a.1 = false ->
          a.1 <> n /\ (countName n cur <= countName n todo)%nat) as Hkeep.
  { intros Ha. assert (a.1 <> n) as Hne by congruence.
    split; [done|]. apply eqb_false in Hne. by rewrite Hne in Hinv. }
  unfold filterAttribute. unfold strippedName in Hstrip, Hkeep.
  destruct (negb allowJS && startsWith (lit "on") (toLowerCase a.1)); [by apply Hstrip|].
  destruct (negb (bool_decide (toLowerCase a.1 ∈ allowedAttrs))); [by apply Hstrip|].
  destruct (Hkeep eq_refl) as [Hne Hle].
  destruct (eqb (toLowerCase a.1) (lit "style")).
  { case_bool_decide.
    - by rewrite countName_remove_other.
    - by rewrite countName_set_other. }
  destruct (negb allowJS && bool_decide (toLowerCase a.1 ∈ URL_ATTRS)); [|done].
  destruct (isDangerousUrlValue _ _); [|done].
  by rewrite countName_remove_other.
Qed.

Lemma filterAttributes_counts (tag : jsstring) (allowedAttrs : gset jsstring)
    (styleAllowlist : gmap jsstring (gset jsstring)) (allowJS : bool)
    (todo cur : list (jsstring * jsstring)) :
  (forall n, strippedName allowedAttrs allowJS n = true ->
             (countName n cur <= countName n todo)%nat) ->
  forall n, strippedName allowedAttrs allowJS n = true ->
            countName n (foldl (filterAttribute tag allowedAttrs styleAllowlist allowJS)
                               cur todo) = 0%nat.
Proof.
  revert cur. induction todo as [|a todo IH]; intros cur Hinv n Hn; simpl.
  - specialize (Hinv n Hn). unfold countName in Hinv at 2. simpl in Hinv. lia.
  - apply IH; [|done]. by apply filterAttribute_counts.
Qed.

(** What [filterAttributes] leaves on an element is within the policy. *)
Lemma filterAttributes_within (policy : CompiledPolicy) (tag : jsstring)
    (attrs : list (jsstring * jsstring)) :
  attributesWithin policy tag
    (filterAttributes tag (attrAllowlist policy) (styleAllowlist policy)
       (allowCommonAttributesOf policy) (allowJavaScriptOf policy) attrs).
Proof.
  intros nv Hin. unfold filterAttributes in Hin.
  set (allowed := allowedAttrsOf tag (attrAllowlist policy) (allowCommonAttributesOf policy)) in *.
  destruct (strippedName allowed (allowJavaScriptOf policy) nv.1) eqn:Hbad.
  - exfalso.
    pose proof (filterAttributes_counts tag allowed (styleAllowlist policy)
                  (allowJavaScriptOf policy) attrs attrs (fun _ _ => le_n _) nv.1 Hbad) as Hz.
    unfold countName in Hz. apply length_zero_iff_nil in Hz.
    assert (nv ∈ List.filter (fun a => eqb a.1 nv.1)
              (foldl (filterAttribute tag allowed (styleAllowlist policy)
                        (allowJavaScriptOf policy)) attrs attrs)) as Hf.
    { apply list_elem_of_In, filter_In. split; [by apply list_elem_of_In|].
      by apply eqb_true. }
    rewrite Hz in Hf. by apply elem_of_nil in Hf.
  - unfold strippedName in Hbad. apply orb_false_iff in Hbad as [Hon Hallowed].
    apply negb_false_iff, bool_decide_eq_true in Hallowed. split; [done|].
    intros Hjs. rewrite Hjs in Hon. exact Hon.
Qed.

End AttributeFacts.

(** ** One pass over the tree *)

Section PassFacts.

Context {env : Collaborators}.

Import Dom.

Lemma script_not_structural : isStructuralTag (lit "script") = false.
Proof. reflexivity. Qed.

Lemma style_not_structural : isStructuralTag (lit "style") = false.
Proof. reflexivity. Qed.

(** An element that is kept has its attributes filtered; a style element
    may then leave the tree or get a new text. The counters stay. *)
Lemma finishElement_shape (policy : CompiledPolicy) (k : nat) (n : node)
    (tag : jsstring) (isStructural : bool) (st : PassState) :
  let d1 := withAttributes k (attributeFilter policy tag) (doc st) in
  exists d2 flag,
    finishElement policy k n tag isStructural st
    = {| doc := d2; usedTagCounts := usedTagCounts st;
         usedTotalTags := usedTotalTags st; countsSaturated := flag |}
    /\ (d2 = d1
        \/ (tag = lit "style"
            /\ (d2 = remove k d1 \/ exists s, d2 = setTextContent k s d1))).
Proof.
  intros d1. unfold finishElement. fold (attributeFilter policy tag). fold d1.
  assert (forall st2, doc st2 = d1 -> usedTagCounts st2 = usedTagCounts st ->
            usedTotalTags st2 = usedTotalTags st ->
            exists d2 flag,
              (if eqb tag (lit "style")
               then setDoc (filterStyleElement k n (styleAllowlist policy) (doc st2)) st2
               else st2)
              = {| doc := d2; usedTagCounts := usedTagCounts st;
                   usedTotalTags := usedTotalTags st; countsSaturated := flag |}
              /\ (d2 = d1
                  \/ (tag = lit "style"
                      /\ (d2 = remove k d1 \/ exists s, d2 = setTextContent k s d1)))) as Hgen.
  { intros st2 Hd Hu Ht. destruct (eqb tag (lit "style")) eqn:Hstyle.
    - apply eqb_true in Hstyle.
      exists (filterStyleElement k n (styleAllowlist policy) (doc st2)), (countsSaturated st2).
      split; [unfold setDoc; by rewrite Hu, Ht|].
      right. split; [done|]. unfold filterStyleElement. rewrite Hd.
      case_bool_decide; [by left | right; by eexists].
    - exists d1, (countsSaturated st2). split; [|by left].
      destruct st2; simpl in *; by subst. }
  destruct (negb isStructural && negb (countsSaturated (setDoc d1 st))
            && Nat.leb (totalAllowedTagsOf policy) (usedTotalTags (setDoc d1 st)));
    by apply Hgen.
Qed.

(** The three ways an iteration of the pass can go: the element is gone
    already; it is taken out, removed or unwrapped, and then it is not
    structural; or it is kept, counted when it is not structural. *)
Lemma visit_cases (policy : CompiledPolicy) (st : PassState) (k : nat) :
  (findElement k (doc st) = None /\ visit policy st k = st)
  \/ (exists n, findElement k (doc st) = Some n
        /\ isStructuralTag (toLowerCase (tagNameOf n)) = false
        /\ (visit policy st k = setDoc (remove k (doc st)) st
            \/ visit policy st k = setDoc (unwrapElement k (doc st)) st))
  \/ (exists n st1, findElement k (doc st) = Some n
        /\ ((isStructuralTag (toLowerCase (tagNameOf n)) = true /\ st1 = st)
            \/ (isStructuralTag (toLowerCase (tagNameOf n)) = false
                /\ (usedOf st (toLowerCase (tagNameOf n))
                    < allowedCountOf policy (toLowerCase (tagNameOf n)))%nat
                /\ st1 = {| doc := doc st;
                            usedTagCounts :=
                              <[toLowerCase (tagNameOf n)
                                := (usedOf st (toLowerCase (tagNameOf n)) + 1)%nat]>
                                (usedTagCounts st);
                            usedTotalTags := (usedTotalTags st + 1)%nat;
                            countsSaturated := countsSaturated st |}))
        /\ visit policy st k
           = finishElement policy k n (toLowerCase (tagNameOf n))
               (isStructuralTag (toLowerCase (tagNameOf n))) st1).
Proof.
  unfold visit. destruct (findElement k (doc st)) as [n|] eqn:Hfind; [|by left].
  right. set (tag := toLowerCase (tagNameOf n)).
  destruct (negb (allowJavaScriptOf policy) && eqb tag (lit "script")) eqn:Hscript.
  { left. exists n. split; [done|]. split; [|by left].
    apply andb_true_iff in Hscript as [_ Heq%eqb_true]. unfold tag in Heq.
    rewrite Heq. apply script_not_structural. }
  destruct (eqb tag (lit "style") && negb (allowStyleTagOf policy)) eqn:Hstyle.
  { left. exists n. split; [done|]. split; [|by left].
    apply andb_true_iff in Hstyle as [Heq%eqb_true _]. unfold tag in Heq.
    rewrite Heq. apply style_not_structural. }
  destruct (isStructuralTag tag) eqn:Hs.
  { right. exists n, st. split; [done|]. split; [by left|]. fold tag. by rewrite Hs. }
  unfold enforceBudget. fold (usedOf st tag).
  destruct (countsSaturated st) eqn:Hflag.
  { left. exists n. split; [done|]. split; [done|].
    destruct (Nat.eqb _ 0); [by right | by left]. }
  destruct (Nat.eqb _ 0).
  { left. exists n. split; [done|]. split; [done|]. by right. }
  destruct (Nat.leb_spec (allowedCountOf policy tag) (usedOf st tag)) as [|Hlt].
  { left. exists n. split; [done|]. split; [done|]. by left. }
  right. eexists n, _. split; [done|]. split; [|fold tag; by rewrite Hs].
  right. split; [done|]. split; done.
Qed.

(** A pass never adds an element. *)
Lemma finishElement_tagged (policy : CompiledPolicy) (k : nat) (n : node)
    (tag : jsstring) (isStructural : bool) (st : PassState) :
  tagged (doc (finishElement policy k n tag isStructural st)) `sublist_of` tagged (doc st).
Proof.
  destruct (finishElement_shape policy k n tag isStructural st) as (d2 & flag & -> & Hd2).
  simpl. destruct Hd2 as [->|[_ [->|[s ->]]]].
  - apply withAttributes_tagged.
  - etrans; [apply remove_tagged | apply withAttributes_tagged].
  - etrans; [apply setTextContent_tagged | apply withAttributes_tagged].
Qed.

Lemma visit_tagged (policy : CompiledPolicy) (st : PassState) (k : nat) :
  tagged (doc (visit policy st k)) `sublist_of` tagged (doc st).
Proof.
  destruct (visit_cases policy st k)
    as [[_ ->]|[(n & _ & _ & [->| ->])|(n & st1 & _ & Hst1 & ->)]].
  - done.
  - apply remove_tagged.
  - apply unwrap_tagged.
  - etrans; [apply finishElement_tagged|].
    by destruct Hst1 as [[_ ->]|(_ & _ & ->)].
Qed.

Lemma visit_NoDup (policy : CompiledPolicy) (st : PassState) (k : nat) :
  NoDup (elements (doc st)) -> NoDup (elements (doc (visit policy st k))).
Proof.
  intros Hnd. eapply sublist_NoDup; [exact Hnd|].
  apply sublist_elements, visit_tagged.
Qed.

Lemma findElement_tagged (k : nat) (d : forest) (n : node) :
  findElement k d = Some n -> (k, tagNameOf n) ∈ tagged d.
Proof.
  intros [Hn Hk]%findElement_Some.
  destruct (subnodes_element _ _ Hn) as (h & t & a & c & ->). simpl in *. subst h.
  apply subnodes_tagged in Hn. rewrite tagged_element in Hn.
  eapply elem_of_sublist; [by left | exact Hn].
Qed.

Lemma tagged_unique (d : forest) (k : nat) (t1 t2 : jsstring) :
  NoDup (elements d) -> (k, t1) ∈ tagged d -> (k, t2) ∈ tagged d -> t1 = t2.
Proof.
  rewrite elements_tagged.
  induction (tagged d) as [|[h t] l IH]; intros Hnd Hin1 Hin2;
    [by apply elem_of_nil in Hin1|].
  simpl in Hnd. apply NoDup_cons in Hnd as [Hh Hnd].
  apply elem_of_cons in Hin1 as [Heq1|Hin1]; apply elem_of_cons in Hin2 as [Heq2|Hin2].
  - congruence.
  - injection Heq1 as <- <-. exfalso. apply Hh. apply list_elem_of_fmap. by exists (k, t2).
  - injection Heq2 as <- <-. exfalso. apply Hh. apply list_elem_of_fmap. by exists (k, t1).
  - by apply IH.
Qed.

Lemma remove_absent (k : nat) (d : forest) : k ∉ elements (remove k d).
Proof. intros (e & [_ Hne]%remove_allElements & Hk)%elem_of_elements. done. Qed.

Lemma unwrap_absent (k : nat) (d : forest) :
  NoDup (elements d) -> k ∉ elements (unwrapElement k d).
Proof.
  intros Hnd (e & He & Hk)%elem_of_elements.
  by destruct (unwrap_allElements k d e Hnd He).
Qed.

End PassFacts.

(** ** Budgets and attributes after a pass *)

Section BudgetFacts.

Context {env : Collaborators}.

Import Dom.

Lemma filter_length_sublist {A} (p : A -> bool) (l1 l2 : list A) :
  l1 `sublist_of` l2 -> (length (List.filter p l1) <= length (List.filter p l2))%nat.
Proof.
  induction 1 as [|x l1 l2 _ IH|x l1 l2 _ IH]; simpl; [done | |].
  - destruct (p x); simpl; lia.
  - destruct (p x); simpl; lia.
Qed.

Lemma countKept_sublist (tag : jsstring) (rest : list nat) (d d' : forest) :
  tagged d' `sublist_of` tagged d -> (countKept tag rest d' <= countKept tag rest d)%nat.
Proof. apply filter_length_sublist. Qed.

(** A handle that is not in the tree can leave the waiting list. *)
Lemma countKept_absent (tag : jsstring) (k : nat) (rest : list nat) (d : forest) :
  k ∉ elements d -> countKept tag rest d = countKept tag (k :: rest) d.
Proof.
  intros Hk. unfold countKept. f_equal. apply filter_ext_in. intros e He.
  f_equal. f_equal. apply bool_decide_ext. rewrite elem_of_cons.
  split; [by right|]. intros [Heq|?]; [|done]. exfalso. apply Hk.
  rewrite elements_tagged. apply list_elem_of_fmap. exists e.
  split; [done | by apply list_elem_of_In].
Qed.

(** Visiting the element with handle [k] and tag [t] lets at most that one
    element into the count. *)
Lemma countKept_visit (tag t : jsstring) (k : nat) (rest : list nat) (d : forest) :
  NoDup (elements d) -> (k, t) ∈ tagged d ->
  (countKept tag rest d
   <= countKept tag (k :: rest) d + (if eqb (toLowerCase t) tag then 1 else 0))%nat.
Proof.
  rewrite elements_tagged. unfold countKept.
  induction (tagged d) as [|[h t'] l IH]; intros Hnd Hin; [by apply elem_of_nil in Hin|].
  simpl in Hnd. apply NoDup_cons in Hnd as [Hh Hnd]. cbn [List.filter].
  destruct (decide (h = k)) as [->|Hne].
  - assert (t' = t) as ->.
    { apply elem_of_cons in Hin as [Heq|Hin]; [congruence|].
      exfalso. apply Hh. apply list_elem_of_fmap. by exists (k, t). }
    assert (List.filter (fun e : nat * jsstring =>
                           eqb (toLowerCase e.2) tag && negb (bool_decide (e.1 ∈ rest))) l
            = List.filter (fun e : nat * jsstring =>
                             eqb (toLowerCase e.2) tag && negb (bool_decide (e.1 ∈ k :: rest))) l)
      as ->.
    { apply filter_ext_in. intros e He. f_equal. f_equal. apply bool_decide_ext.
      rewrite elem_of_cons. split; [by right|]. intros [Heq|?]; [|done].
      exfalso. apply Hh. apply list_elem_of_fmap. exists e.
      split; [done | by apply list_elem_of_In]. }
    simpl. rewrite (bool_decide_true (k ∈ k :: rest)) by left.
    rewrite andb_false_r.
    destruct (eqb (toLowerCase t) tag); simpl; [|lia].
    destruct (negb (bool_decide (k ∈ rest))); simpl; lia.
  - assert ((k, t) ∈ l) as Hin'.
    { apply elem_of_cons in Hin as [Heq|?]; [congruence | done]. }
    specialize (IH Hnd Hin'). simpl.
    assert (bool_decide (h ∈ k :: rest) = bool_decide (h ∈ rest)) as ->.
    { apply bool_decide_ext. rewrite elem_of_cons.
      split; [intros [?|?]; done | by right]. }
    destruct (eqb (toLowerCase t') tag && negb (bool_decide (h ∈ rest))); simpl; lia.
Qed.

(** The kept elements of a tag never outnumber its uses. *)
Lemma visit_kept (policy : CompiledPolicy) (st : PassState) (k : nat) (rest : list nat) :
  NoDup (elements (doc st)) ->
  (forall tag, isStructuralTag tag = false ->
               (countKept tag (k :: rest) (doc st) <= usedOf st tag)%nat) ->
  forall tag, isStructuralTag tag = false ->
              (countKept tag rest (doc (visit policy st k)) <= usedOf (visit policy st k) tag)%nat.
Proof.
  intros Hnd Hinv tag Hns. specialize (Hinv tag Hns).
  destruct (visit_cases policy st k)
    as [[Hnone ->]|[(n & _ & _ & Hout)|(n & st1 & Hfind & Hst1 & ->)]].
  - apply findElement_None in Hnone. by rewrite (countKept_absent tag k).
  - assert (exists d', visit policy st k = setDoc d' st
                       /\ tagged d' `sublist_of` tagged (doc st) /\ k ∉ elements d')
      as (d' & -> & Hsub & Habs).
    { destruct Hout as [Hv|Hv]; eexists; (split; [exact Hv|]).
      - split; [apply remove_tagged | apply remove_absent].
      - split; [apply unwrap_tagged | by apply unwrap_absent]. }
    simpl. change (usedOf (setDoc d' st) tag) with (usedOf st tag).
    rewrite (countKept_absent tag k rest d' Habs).
    etrans; [by apply countKept_sublist | done].
  - pose proof (finishElement_tagged policy k n (toLowerCase (tagNameOf n))
                  (isStructuralTag (toLowerCase (tagNameOf n))) st1) as Hsub.
    destruct (finishElement_shape policy k n (toLowerCase (tagNameOf n))
                (isStructuralTag (toLowerCase (tagNameOf n))) st1) as (d2 & flag & Heq & _).
    rewrite Heq in Hsub |- *. simpl in Hsub. unfold usedOf at 1. simpl.
    assert (doc st1 = doc st) as Hdoc by by destruct Hst1 as [[_ ->]|(_ & _ & ->)].
    rewrite Hdoc in Hsub.
    pose proof (countKept_visit tag (tagNameOf n) k rest (doc st) Hnd
                  (findElement_tagged _ _ _ Hfind)) as Hstep.
    pose proof (countKept_sublist tag rest _ _ Hsub) as Hmono.
    destruct Hst1 as [[Hs ->]|(Hs' & _ & ->)].
    + destruct (eqb (toLowerCase (tagNameOf n)) tag) eqn:Htag.
      * apply eqb_true in Htag. congruence.
      * fold (usedOf st tag). lia.
    + simpl. destruct (eqb (toLowerCase (tagNameOf n)) tag) eqn:Htag.
      * apply eqb_true in Htag. subst tag. rewrite lookup_insert_eq. simpl. lia.
      * apply eqb_false in Htag. rewrite lookup_insert_ne by done.
        fold (usedOf st tag). lia.
Qed.

(** Every element a pass has decided to keep has its attributes within the
    policy. *)
Lemma visit_attributes (policy : CompiledPolicy) (st : PassState) (k : nat)
    (rest : list nat) :
  NoDup (elements (doc st)) ->
  (forall e, e ∈ allElements (doc st) ->
             e.1.1 ∈ k :: rest \/ attributesWithin policy (toLowerCase e.1.2) e.2) ->
  forall e, e ∈ allElements (doc (visit policy st k)) ->
            e.1.1 ∈ rest \/ attributesWithin policy (toLowerCase e.1.2) e.2.
Proof.
  intros Hnd Hinv e He.
  assert (e ∈ allElements (doc st) -> e.1.1 <> k ->
          e.1.1 ∈ rest \/ attributesWithin policy (toLowerCase e.1.2) e.2) as Hold.
  { intros Hin Hne. destruct (Hinv e Hin) as [[?|?]%elem_of_cons|?]; auto. done. }
  destruct (visit_cases policy st k)
    as [[Hnone Hv]|[(n & _ & _ & [Hv|Hv])|(n & st1 & Hfind & Hst1 & Hv)]];
    rewrite Hv in He.
  - apply Hold; [done|]. intros Hk. apply (findElement_None _ _ Hnone).
    apply elem_of_elements. by exists e.
  - simpl in He. apply remove_allElements in He as [? ?]. by apply Hold.
  - simpl in He. apply unwrap_allElements in He as [? ?]; [|done]. by apply Hold.
  - destruct (finishElement_shape policy k n (toLowerCase (tagNameOf n))
                (isStructuralTag (toLowerCase (tagNameOf n))) st1) as (d2 & flag & Heq & Hd2).
    rewrite Heq in He. simpl in He.
    assert (doc st1 = doc st) as Hdoc by by destruct Hst1 as [[_ ->]|(_ & _ & ->)].
    rewrite Hdoc in Hd2.
    assert (e ∈ allElements (withAttributes k
                               (attributeFilter policy (toLowerCase (tagNameOf n))) (doc st)))
      as He1.
    { destruct Hd2 as [->|[_ [->|[s ->]]]]; [done | |].
      - by apply remove_allElements in He as [? _].
      - by apply setTextContent_allElements in He. }
    apply withAttributes_allElements in He1 as [[? ?]|(t & a & c & Hsub & ->)]; [| |done].
    + by apply Hold.
    + right. simpl.
      apply findElement_Some in Hfind as [Hn Hk].
      assert (tagNameOf n = t) as <-.
      { by apply (subnodes_same_tag (doc st) n (Element k t a c)). }
      apply filterAttributes_within.
Qed.

End BudgetFacts.

Section SpineFacts.

Context {env : Collaborators}.

Import Dom.

Lemma structuralIn_app (h : nat) (d1 d2 : forest) :
  structuralIn h (d1 ++ d2) = structuralIn h d1 || structuralIn h d2.
Proof. apply existsb_app. Qed.

(** A replacement that keeps the structural spine through the elements it
    replaces keeps it through the tree. *)
Lemma structuralIn_subst (h k : nat) (f : node -> list node) (l : list (nat * jsstring))
    (d : forest) :
  (forall n, handleOf n = k -> (k, tagNameOf n) ∈ l ->
             onStructuralSpine h n = true -> structuralIn h (f n) = true) ->
  tagged d ⊆ l ->
  structuralIn h d = true -> structuralIn h (subst k f d) = true.
Proof.
  intros Hf. induction d as [|x d IHd]; [done|].
  rewrite (tagged_cons x d), subst_cons, structuralIn_app.
  intros Hsub. change (structuralIn h (x :: d)) with (onStructuralSpine h x || structuralIn h d).
  intros [Hx|Hd]%orb_true_iff; apply orb_true_iff; [left | right].
  2:{ apply IHd; [|done]. intros e He. apply Hsub, elem_of_app. by right. }
  assert (tagged [x] ⊆ l) as Hsubx.
  { intros e He. apply Hsub, elem_of_app. by left. }
  clear IHd Hsub. revert Hsubx Hx.
  induction x as [s|s|h' t a c IHc] using node_forall_ind; [done | done |].
  intros Hsub Hx. cbn [substNode]. destruct (Nat.eqb_spec k h') as [->|Hne].
  - apply Hf; [done | | done]. apply Hsub. rewrite tagged_element. by left.
  - simpl in Hx |- *. rewrite orb_false_r.
    apply andb_true_iff in Hx as [Ht Hx]. rewrite Ht. simpl.
    apply orb_true_iff in Hx as [Hx|Hx]; [by rewrite Hx|].
    apply orb_true_iff. right.
    rewrite tagged_element in Hsub.
    assert (tagged c ⊆ l) as Hsubc.
    { intros e He. apply Hsub. by right. }
    clear Hsub. induction IHc as [|y c Hy _ IHc']; [done|].
    simpl in Hx. simpl. rewrite existsb_app. rewrite (tagged_cons y c) in Hsubc.
    apply orb_true_iff in Hx as [Hx|Hx]; apply orb_true_iff; [left | right].
    + apply Hy; [|done]. intros e He. apply Hsubc, elem_of_app. by left.
    + apply IHc'; [done|]. intros e He. apply Hsubc, elem_of_app. by right.
Qed.

(** Taking out or rewriting an element that is not structural. *)
Lemma structuralIn_subst_other (h k : nat) (f : node -> list node) (d : forest) :
  (forall t, (k, t) ∈ tagged d -> isStructuralTag (toLowerCase t) = false) ->
  structuralIn h d = true -> structuralIn h (subst k f d) = true.
Proof.
  intros Hk. apply (structuralIn_subst h k f (tagged d)); [|done].
  intros n Hh Hin Hspine. specialize (Hk _ Hin).
  destruct n as [s|s|h' t a c]; [done | done |].
  simpl in Hk, Hspine. by rewrite Hk in Hspine.
Qed.

Lemma structuralIn_withAttributes (h k : nat) g (d : forest) :
  structuralIn h d = true -> structuralIn h (withAttributes k g d) = true.
Proof.
  apply (structuralIn_subst h k _ (tagged d)); [|done].
  intros [s|s|h' t a c] _ _ Hspine; [done | done |].
  simpl in Hspine |- *. by rewrite orb_false_r.
Qed.

Lemma findNode_element (k h : nat) t a (c : forest) :
  findNode k (Element h t a c)
  = if Nat.eqb k h then Some (Element h t a c) else findElement k c.
Proof.
  simpl. destruct (Nat.eqb k h); [done|].
  induction c as [|x c IH]; [done|]. simpl. by destruct (findNode k x).
Qed.

Lemma findElement_app (k : nat) (l1 l2 : forest) :
  findElement k (l1 ++ l2)
  = match findElement k l1 with
    | Some z => Some z
    | None => findElement k l2
    end.
Proof.
  induction l1 as [|z l1 IH]; [done|]. simpl. destruct (findNode k z); [done | apply IH].
Qed.

Lemma findElement_singleton (k : nat) (x : node) : findElement k [x] = findNode k x.
Proof. simpl. by destruct (findNode k x). Qed.

(** Filtering the attributes of an element leaves it where it is. *)
Lemma findElement_withAttributes (k : nat) g (d : forest) (n : node) :
  findElement k d = Some n ->
  exists t a c, n = Element k t a c
    /\ findElement k (withAttributes k g d) = Some (Element k t (g a) c).
Proof.
  unfold withAttributes.
  set (f := fun n => match n with
                     | Element h' t a c => [Element h' t (g a) c]
                     | _ => [n]
                     end).
  set (ok := fun (found : option node) (after : forest) =>
               match found with
               | Some m => exists t a c, m = Element k t a c
                             /\ findElement k after = Some (Element k t (g a) c)
               | None => findElement k after = None
               end).
  assert (forall l, Forall (fun x => ok (findNode k x) (substNode k f x)) l ->
                    ok (findElement k l) (flat_map (substNode k f) l)) as Hforest.
  { induction 1 as [|x l Hx _ IH]; [done|].
    simpl. unfold ok in *. rewrite findElement_app.
    destruct (findNode k x) as [m|].
    - destruct Hx as (t & a & c & -> & Hfind). exists t, a, c. by rewrite Hfind.
    - rewrite Hx. exact IH. }
  assert (forall x, ok (findNode k x) (substNode k f x)) as Hnode.
  { induction x as [s|s|h t a c IHc] using node_forall_ind; [done | done |].
    rewrite findNode_element. cbn [substNode].
    destruct (Nat.eqb_spec k h) as [->|Hne].
    - exists t, a, c. split; [done|]. simpl. by rewrite Nat.eqb_refl.
    - specialize (Hforest c IHc). unfold ok in *.
      rewrite findElement_singleton, findNode_element.
      destruct (Nat.eqb_spec k h); [done|]. exact Hforest. }
  intros Hfind.
  assert (ok (findElement k d) (subst k f d)) as Hok.
  { apply Hforest, Forall_forall. intros x _. apply Hnode. }
  unfold ok in Hok. by rewrite Hfind in Hok.
Qed.

(** A structural element is never counted, removed or unwrapped when it is
    visited: the counters stay, and the element stays where it is, with its
    children, its attributes filtered. *)
Lemma visit_structural_element (policy : CompiledPolicy) (st : PassState) (k : nat)
    (n : node) :
  findElement k (doc st) = Some n ->
  isStructuralTag (toLowerCase (tagNameOf n)) = true ->
  usedTagCounts (visit policy st k) = usedTagCounts st
  /\ usedTotalTags (visit policy st k) = usedTotalTags st
  /\ exists t a c, n = Element k t a c
       /\ findElement k (doc (visit policy st k))
          = Some (Element k t (attributeFilter policy (toLowerCase t) a) c).
Proof.
  intros Hfind Hs. unfold visit. rewrite Hfind.
  set (tag := toLowerCase (tagNameOf n)) in *.
  assert (eqb tag (lit "script") = false) as ->.
  { apply eqb_false. intros Heq. rewrite Heq in Hs. done. }
  assert (eqb tag (lit "style") = false) as Hstyle.
  { apply eqb_false. intros Heq. rewrite Heq in Hs. done. }
  rewrite Hstyle, andb_false_r, Hs. cbn [andb].
  unfold finishElement. cbn [negb andb]. rewrite Hstyle. simpl.
  split; [done|]. split; [done|].
  destruct (findElement_withAttributes k (attributeFilter policy tag) _ _ Hfind)
    as (t & a & c & -> & Hfound).
  exists t, a, c. split; [done|]. exact Hfound.
Qed.

(** Tag enforcement never takes away a structural element that sits on a
    structural spine. *)
Lemma visit_structural (policy : CompiledPolicy) (st : PassState) (k h : nat) :
  NoDup (elements (doc st)) ->
  structuralIn h (doc st) = true -> structuralIn h (doc (visit policy st k)) = true.
Proof.
  intros Hnd Hh.
  destruct (visit_cases policy st k)
    as [[_ ->]|[(n & Hfind & Hns & Hv)|(n & st1 & Hfind & Hst1 & ->)]]; [done | |].
  - assert (forall t, (k, t) ∈ tagged (doc st) -> isStructuralTag (toLowerCase t) = false)
      as Hk.
    { intros t Ht.
      by rewrite (tagged_unique _ _ _ _ Hnd Ht (findElement_tagged _ _ _ Hfind)). }
    destruct Hv as [-> | ->]; simpl; by apply structuralIn_subst_other.
  - destruct (finishElement_shape policy k n (toLowerCase (tagNameOf n))
                (isStructuralTag (toLowerCase (tagNameOf n))) st1) as (d2 & flag & -> & Hd2).
    simpl.
    assert (doc st1 = doc st) as Hdoc by by destruct Hst1 as [[_ ->]|(_ & _ & ->)].
    rewrite Hdoc in Hd2.
    set (d1 := withAttributes k (attributeFilter policy (toLowerCase (tagNameOf n))) (doc st))
      in Hd2.
    assert (structuralIn h d1 = true) as Hd1 by by apply structuralIn_withAttributes.
    destruct Hd2 as [->|[Hstyle Hd2]]; [done|].
    assert (forall t, (k, t) ∈ tagged d1 -> isStructuralTag (toLowerCase t) = false) as Hk.
    { intros t Ht.
      assert ((k, t) ∈ tagged (doc st)) as Ht'.
      { eapply elem_of_sublist; [exact Ht | apply withAttributes_tagged]. }
      rewrite (tagged_unique _ _ _ _ Hnd Ht' (findElement_tagged _ _ _ Hfind)).
      rewrite Hstyle. apply style_not_structural. }
    destruct Hd2 as [->|[s ->]]; by apply structuralIn_subst_other.
Qed.

End SpineFacts.

Section PassTheorems.

Context {env : Collaborators}.

Import Dom.

Lemma passOk_visit (policy : CompiledPolicy) (k : nat) (rest : list nat) (st : PassState) :
  passOk policy (k :: rest) st -> passOk policy rest (visit policy st k).
Proof.
  intros [Hnd Hc Hk Ha]. split.
  - by apply visit_NoDup.
  - by apply visit_countersOk.
  - by apply visit_kept.
  - by apply visit_attributes.
Qed.

(** What holds of the elements that wait, and is kept by every iteration
    as one of them leaves the waiting list, holds after the loop of those
    the snapshot does not list. *)
Lemma foldl_visit_waiting (policy : CompiledPolicy)
    (Inv : list nat -> PassState -> Prop) (l after : list nat) (st : PassState) :
  (forall k rest st', Inv (k :: rest) st' -> Inv rest (visit policy st' k)) ->
  Inv (l ++ after) st -> Inv after (foldl (visit policy) st l).
Proof.
  intros Hstep. revert st. induction l as [|k l IH]; intros st Hinv; simpl; [done|].
  by apply IH, Hstep.
Qed.

Lemma passOk_initial (policy : CompiledPolicy) (d : forest) :
  NoDup (elements d) ->
  passOk policy (snapshot d ++ hidden d) (initialState policy d).
Proof.
  intros Hnd. split; simpl; [done | apply countersOk_initial | |].
  - intros tag _. unfold countKept.
    rewrite (filter_ext_in _ (fun _ => false)); [by rewrite filter_false; simpl; lia|].
    intros e He. apply andb_false_iff. right.
    apply negb_false_iff, bool_decide_eq_true, waiting_all.
    rewrite elements_tagged. apply list_elem_of_fmap. exists e.
    split; [done | by apply list_elem_of_In].
  - intros e He. left. apply waiting_all, elem_of_elements. by exists e.
Qed.

Lemma passOk_enforce (policy : CompiledPolicy) (d : forest) :
  NoDup (elements d) -> passOk policy (hidden d) (enforce policy d).
Proof.
  intros Hnd. unfold enforce.
  apply (foldl_visit_waiting policy (passOk policy)); [apply passOk_visit|].
  by apply passOk_initial.
Qed.

Lemma countKept_nil (tag : jsstring) (d : forest) : countKept tag [] d = countTag tag d.
Proof.
  unfold countKept, countTag. f_equal. apply filter_ext. intros e.
  rewrite bool_decide_false by apply not_elem_of_nil. apply andb_true_r.
Qed.

(** After a pass no tag that is not structural occurs more often than the
    policy counts it, among the elements the pass has visited. *)
Lemma filterDocument_counts_visited (policy : CompiledPolicy) (d : forest) (tag : jsstring) :
  NoDup (elements d) -> isStructuralTag tag = false ->
  (countKept tag (hidden d) (filterDocument policy d) <= allowedCountOf policy tag)%nat.
Proof.
  intros Hnd Hns. destruct (passOk_enforce policy d Hnd) as [_ [Hle _ _] Hk _].
  unfold filterDocument. etrans; [by apply Hk | apply Hle].
Qed.

Lemma filterDocument_counts (policy : CompiledPolicy) (d : forest) (tag : jsstring) :
  NoDup (elements d) -> snapshot d = elements d -> isStructuralTag tag = false ->
  (countTag tag (filterDocument policy d) <= allowedCountOf policy tag)%nat.
Proof.
  intros Hnd Hfull Hns. rewrite <- countKept_nil, <- (hidden_nil d Hfull).
  by apply filterDocument_counts_visited.
Qed.

Lemma filterDocument_structural (policy : CompiledPolicy) (d : forest) (h : nat) :
  NoDup (elements d) -> structuralIn h d = true ->
  structuralIn h (filterDocument policy d) = true.
Proof.
  intros Hnd. unfold filterDocument, enforce.
  assert (NoDup (elements (doc (initialState policy d)))) as Hnd0 by done.
  change d with (doc (initialState policy d)) at 1.
  revert Hnd0. generalize (initialState policy d). generalize (snapshot d).
  induction l as [|k rest IH]; intros st Hst Hh; simpl; [done|].
  apply IH; [by apply visit_NoDup | by apply visit_structural].
Qed.

(** The count [compileRules] gives a tag is its rule-derived budget. *)
Lemma compileRule_count (acc : CompiledPolicy) (rule tag : jsstring) :
  allowedCountOf (compileRule acc rule) tag
  = (allowedCountOf acc tag + (if namesTag tag rule then 1 else 0))%nat.
Proof.
  unfold compileRule, namesTag, allowedCountOf.
  destruct (trim <$> split pipe rule) as [|p0 [|p1 [|p2 [|p3 ps]]]]; try (simpl; lia).
  - destruct (isEmpty (toLowerCase p0)) eqn:He.
    + destruct (eqb (toLowerCase p0) tag) eqn:Ht.
      * apply eqb_true in Ht. rewrite <- Ht, He. simpl. lia.
      * rewrite andb_false_r. lia.
    + simpl. destruct (eqb (toLowerCase p0) tag) eqn:Ht.
      * apply eqb_true in Ht. subst tag. rewrite He, lookup_insert_eq. simpl. lia.
      * apply eqb_false in Ht. rewrite andb_false_r, lookup_insert_ne by done. lia.
  - destruct (isEmpty (toLowerCase p0) || isEmpty (toLowerCase p1)); simpl; lia.
  - destruct (eqb (toLowerCase p0) (lit "style")); [|simpl; lia].
    destruct (isEmpty p1 || isEmpty (toLowerCase p2)); simpl; lia.
Qed.

Lemma compileRules_count (rules : list jsstring) (cfg : SanitizerConfig) (tag : jsstring) :
  allowedCountOf (compileRules rules cfg) tag = ruleBudget tag rules.
Proof.
  induction rules as [|rule rules IH] using rev_ind; [done|].
  rewrite compileRules_snoc, compileRule_count, IH.
  unfold ruleBudget. rewrite List.filter_app, length_app. simpl.
  by destruct (namesTag tag rule).
Qed.

Lemma foldl_visit_tagged (policy : CompiledPolicy) (l : list nat) (st : PassState) :
  tagged (doc (foldl (visit policy) st l)) `sublist_of` tagged (doc st).
Proof.
  revert st. induction l as [|k rest IH]; intros st; simpl; [done|].
  etrans; [apply IH | apply visit_tagged].
Qed.

Lemma enforce_tagged (policy : CompiledPolicy) (d : forest) :
  tagged (filterDocument policy d) `sublist_of` tagged d.
Proof. apply (foldl_visit_tagged policy (snapshot d) (initialState policy d)). Qed.

(** Every element a pass has visited and left in the tree has its
    attributes within the policy. *)
Lemma filterDocument_attributes (policy : CompiledPolicy) (d : forest) :
  NoDup (elements d) ->
  forall e, e ∈ allElements (filterDocument policy d) ->
            e.1.1 ∈ hidden d \/ attributesWithin policy (toLowerCase e.1.2) e.2.
Proof. intros Hnd. by destruct (passOk_enforce policy d Hnd) as [_ _ _ Ha]. Qed.

End PassTheorems.

(** ** The structural spine *)

Section SpineTags.

Context {env : Collaborators}.

Import Dom.

Lemma tagged_member (x : node) (c : forest) : x ∈ c -> tagged [x] ⊆ tagged c.
Proof.
  intros Hx e He. unfold tagged in *. apply list_elem_of_fmap in He as (e' & -> & He').
  apply list_elem_of_fmap. exists e'. split; [done|].
  unfold allElements in *. simpl in He'. rewrite app_nil_r in He'.
  apply list_elem_of_In, in_flat_map. exists x.
  split; by apply list_elem_of_In.
Qed.

(** A tag on the spine belongs to an element on the spine. *)
Lemma spineHolds_handle (tag : jsstring) (n : node) :
  spineHolds tag n = true ->
  exists h t, onStructuralSpine h n = true /\ (h, t) ∈ tagged [n] /\ toLowerCase t = tag.
Proof.
  induction n as [s|s|h0 t0 a c IHc] using node_forall_ind; [done | done |].
  simpl. intros [Hs Hhere]%andb_true_iff. rewrite Hs. simpl.
  apply orb_true_iff in Hhere as [Heq|Hbelow].
  - exists h0, t0. rewrite Nat.eqb_refl. split; [done|].
    split; [rewrite tagged_element; by left | by apply eqb_true].
  - apply existsb_exists in Hbelow as (x & Hx & Hspine).
    apply list_elem_of_In in Hx.
    destruct (proj1 (Forall_forall _ _) IHc x Hx Hspine) as (h & t & Hh & Ht & Htag).
    exists h, t. split; [|split; [|done]].
    + apply orb_true_iff. right. apply existsb_exists. exists x.
      split; [by apply list_elem_of_In | done].
    + rewrite tagged_element. right. by apply (tagged_member x c).
Qed.

Lemma onStructuralSpine_tag (h : nat) (n : node) :
  onStructuralSpine h n = true ->
  exists t, (h, t) ∈ tagged [n] /\ spineHolds (toLowerCase t) n = true.
Proof.
  induction n as [s|s|h0 t0 a c IHc] using node_forall_ind; [done | done |].
  simpl. intros [Hs Hhere]%andb_true_iff. rewrite Hs. simpl.
  apply orb_true_iff in Hhere as [Heq|Hbelow].
  - apply Nat.eqb_eq in Heq as ->. exists t0.
    split; [rewrite tagged_element; by left|].
    apply orb_true_iff. left. by apply eqb_true.
  - apply existsb_exists in Hbelow as (x & Hx & Hspine).
    apply list_elem_of_In in Hx.
    destruct (proj1 (Forall_forall _ _) IHc x Hx Hspine) as (t & Ht & Htag).
    exists t. split.
    + rewrite tagged_element. right. by apply (tagged_member x c).
    + apply orb_true_iff. right. apply existsb_exists. exists x.
      split; [by apply list_elem_of_In | done].
Qed.

Lemma onSpine_handle (tag : jsstring) (d : forest) :
  onSpine tag d = true ->
  exists h t, structuralIn h d = true /\ (h, t) ∈ tagged d /\ toLowerCase t = tag.
Proof.
  intros (x & Hx & Hspine)%existsb_exists. apply list_elem_of_In in Hx.
  destruct (spineHolds_handle tag x Hspine) as (h & t & Hh & Ht & Htag).
  exists h, t. split; [|split; [|done]].
  - apply existsb_exists. exists x. split; [by apply list_elem_of_In | done].
  - by apply (tagged_member x d).
Qed.

Lemma structuralIn_tag (h : nat) (d : forest) :
  structuralIn h d = true ->
  exists t, (h, t) ∈ tagged d /\ onSpine (toLowerCase t) d = true.
Proof.
  intros (x & Hx & Hspine)%existsb_exists. apply list_elem_of_In in Hx.
  destruct (onStructuralSpine_tag h x Hspine) as (t & Ht & Htag).
  exists t. split; [by apply (tagged_member x d)|].
  apply existsb_exists. exists x. split; [by apply list_elem_of_In | done].
Qed.

(** A structural tag on the spine of the document is on the spine of the
    tree a pass leaves. *)
Lemma filterDocument_onSpine (policy : CompiledPolicy) (d : forest) (tag : jsstring) :
  NoDup (elements d) -> onSpine tag d = true -> onSpine tag (filterDocument policy d) = true.
Proof.
  intros Hnd (h & t & Hh & Ht & <-)%onSpine_handle.
  apply (filterDocument_structural policy d h Hnd) in Hh.
  apply structuralIn_tag in Hh as (t' & Ht' & Hspine).
  assert (t' = t) as <-; [|done].
  apply (tagged_unique d h); [done | | done].
  eapply elem_of_sublist; [exact Ht' | apply enforce_tagged].
Qed.

End SpineTags.

(** ** The output of the driver, read back *)

Section OutlineFacts.

Import Dom.

Lemma filter_length_fmap {A B} (f : A -> B) (p : B -> bool) (l : list A) :
  length (List.filter p (f <$> l)) = length (List.filter (fun x => p (f x)) l).
Proof.
  induction l as [|x l IH]; [done|]. rewrite fmap_cons. simpl.
  destruct (p (f x)); simpl; by rewrite IH.
Qed.

Lemma allElements_outline (d : forest) :
  allElements (outline d) = (fun e => (0%nat, e.1.2, e.2)) <$> allElements d.
Proof.
  set (F := fun e : nat * jsstring * list (jsstring * jsstring) => (0%nat, e.1.2, e.2)).
  assert (forall l, Forall (fun n => allElements (outlineOf n) = F <$> allElements [n]) l ->
                    allElements (outline l) = F <$> allElements l) as Hforest.
  { induction 1 as [|x l Hx _ IH]; [done|].
    change (outline (x :: l)) with (outlineOf x ++ outline l).
    rewrite allElements_app, (allElements_cons x l), fmap_app. by rewrite Hx, IH. }
  apply Hforest, Forall_forall. intros n _.
  induction n as [s|s|h t a c IHc] using node_forall_ind; [done | done |].
  cbn [outlineOf]. rewrite !allElements_element, fmap_cons. unfold F at 1. simpl.
  f_equal. by apply Hforest.
Qed.

Lemma countTag_outline (tag : jsstring) (d : forest) :
  countTag tag (outline d) = countTag tag d.
Proof.
  unfold countTag, tagged. rewrite allElements_outline, <- list_fmap_compose.
  by rewrite !filter_length_fmap.
Qed.

Lemma onSpine_outline (tag : jsstring) (d : forest) :
  onSpine tag (outline d) = onSpine tag d.
Proof.
  assert (forall l, Forall (fun n => onSpine tag (outlineOf n) = spineHolds tag n) l ->
                    onSpine tag (outline l) = onSpine tag l) as Hforest.
  { induction 1 as [|x l Hx _ IH]; [done|].
    unfold outline, onSpine in *. simpl. by rewrite existsb_app, Hx, IH. }
  apply Hforest, Forall_forall. intros n _.
  induction n as [s|s|h t a c IHc] using node_forall_ind; [done | done |].
  unfold onSpine. simpl. rewrite orb_false_r. f_equal. f_equal. by apply Hforest.
Qed.

(** Trees with the same outline have the same elements, up to their
    identity. *)
Lemma outline_elements (d d' : forest) h t a :
  outline d = outline d' -> (h, t, a) ∈ allElements d ->
  exists h', (h', t, a) ∈ allElements d'.
Proof.
  intros Heq Hin.
  assert ((0%nat, t, a) ∈ allElements (outline d')) as Hin'.
  { rewrite <- Heq, allElements_outline. apply list_elem_of_fmap. by exists (h, t, a). }
  rewrite allElements_outline in Hin'.
  apply list_elem_of_fmap in Hin' as ([[h' t'] a'] & [= -> ->] & Hin').
  by exists h'.
Qed.

End OutlineFacts.

Section OutputTheorems.

Context {env : Collaborators}.

Import Dom.

Lemma passLoop_lastRead (policy : CompiledPolicy) (remaining : nat) :
  forall (current : jsstring) (ran : nat), remaining <> 0%nat ->
    (passLoop policy remaining current ran).1
    = sanitizeOnceWithPolicy (lastRead policy remaining current) policy.
Proof.
  induction remaining as [|n IH]; intros current ran Hpos; [done|].
  simpl. destruct (eqb (sanitizeOnceWithPolicy current policy) current); [done|].
  destruct n as [|m]; [done|]. by apply IH.
Qed.

(** With a ceiling of one pass or more, what the driver returns is what
    its last pass returned. *)
Lemma sanitizeWithPolicy_lastPassInput (html : jsstring) (policy : CompiledPolicy) :
  (1 <= maxPassesOf policy)%Z ->
  sanitizeWithPolicy html policy
  = sanitizeOnceWithPolicy (lastPassInput html policy) policy.
Proof.
  intros Hpos. unfold sanitizeWithPolicy, lastPassInput.
  apply passLoop_lastRead. lia.
Qed.

(** The text [sanitize] returns, when at least one pass runs, made of the
    tree the last pass left. *)
Lemma sanitize_lastPass (html : jsstring) (rules : list jsstring) (cfg : SanitizerConfig) :
  let policy := compileRules rules cfg in
  (1 <= maxPassesOf policy)%Z ->
  sanitize html rules cfg
  = applyDomPurify
      (outerHTML (filterDocument policy (parseFromString (lastPassInput html policy))))
      policy.
Proof. intros policy Hpos. by apply sanitizeWithPolicy_lastPassInput. Qed.

(** C2, as amended: when at least one pass runs, the document the last pass
    read has no element inside the content of a template element, and the
    tree that pass left comes back from the text made of it, then in the
    text [sanitize] returns every tag that is not structural occurs at most
    as often as single-segment rules name it, and not at all when none does;
    and every structural tag that document has on its structural spine the
    output has there too. *)
Theorem sanitize_respects_budgets (html : jsstring) (rules : list jsstring)
    (cfg : SanitizerConfig) :
  let policy := compileRules rules cfg in
  let d := parseFromString (lastPassInput html policy) in
  let out := sanitize html rules cfg in
  (1 <= maxPassesOf policy)%Z ->
  NoDup (elements d) ->
  snapshot d = elements d ->
  readsBack policy (filterDocument policy d) ->
  (forall tag, isStructuralTag tag = false ->
               (countTag tag (parseFromString out) <= ruleBudget tag rules)%nat)
  /\ (forall tag, isStructuralTag tag = false -> ruleBudget tag rules = 0%nat ->
                  countTag tag (parseFromString out) = 0%nat)
  /\ (forall tag, onSpine tag d = true -> onSpine tag (parseFromString out) = true).
Proof.
  intros policy d out Hpos Hnd Hfull Hback. unfold readsBack in Hback.
  assert (out = applyDomPurify (outerHTML (filterDocument policy d)) policy) as Hout
    by by apply sanitize_lastPass.
  clearbody out. subst out.
  set (out := applyDomPurify (outerHTML (filterDocument policy d)) policy) in *.
  assert (forall tag, isStructuralTag tag = false ->
                      (countTag tag (parseFromString out) <= ruleBudget tag rules)%nat) as Hle.
  { intros tag Hns.
    rewrite <- countTag_outline, Hback, countTag_outline.
    rewrite <- (compileRules_count rules cfg). by apply filterDocument_counts. }
  split; [exact Hle|]. split.
  - intros tag Hns Hz. specialize (Hle tag Hns). lia.
  - intros tag Hspine.
    rewrite <- onSpine_outline, Hback, onSpine_outline.
    by apply filterDocument_onSpine.
Qed.

(** C4, as amended: when at least one pass runs, the document the last pass
    read has no element inside the content of a template element, and the
    tree that pass left comes back from the text made of it, then on every
    element of the text [sanitize] returns each attribute name is in the
    allowed set computed for the tag of the element, and when JavaScript is
    not allowed none starts with [on], whatever the rules allow. *)
Theorem sanitize_filters_attributes (html : jsstring) (rules : list jsstring)
    (cfg : SanitizerConfig) :
  let policy := compileRules rules cfg in
  let d := parseFromString (lastPassInput html policy) in
  let out := sanitize html rules cfg in
  (1 <= maxPassesOf policy)%Z ->
  NoDup (elements d) ->
  snapshot d = elements d ->
  readsBack policy (filterDocument policy d) ->
  forall h tagName attrs, (h, tagName, attrs) ∈ allElements (parseFromString out) ->
  forall name value, (name, value) ∈ attrs ->
    toLowerCase name
      ∈ allowedAttrsOf (toLowerCase tagName) (attrAllowlist policy)
          (allowCommonAttributesOf policy)
    /\ (allowJavaScriptOf policy = false -> startsWith (lit "on") (toLowerCase name) = false).
Proof.
  intros policy d out Hpos Hnd Hfull Hback h tagName attrs He name value Hin.
  assert (out = applyDomPurify (outerHTML (filterDocument policy d)) policy) as Hout
    by by apply sanitize_lastPass.
  clearbody out. subst out.
  destruct (outline_elements _ _ h tagName attrs Hback He) as (h' & He').
  destruct (filterDocument_attributes policy d Hnd _ He') as [Hhidden|Hwithin].
  - rewrite (hidden_nil d Hfull) in Hhidden. by apply elem_of_nil in Hhidden.
  - exact (Hwithin (name, value) Hin).
Qed.

End OutputTheorems.

(** The sample parser on the texts of the examples. *)
Example parse_nested : Sample.parse Sample.nestedText = Sample.nestedTree.
Proof. vm_compute. reflexivity. Qed.

Example parse_template : Sample.parse Sample.templateText = Sample.templateTree.
Proof. vm_compute. reflexivity. Qed.

Example parse_anchor : Sample.parse Sample.anchorText = Sample.anchorTree.
Proof. vm_compute. reflexivity. Qed.

Example parse_hidden_anchor : Sample.parse Sample.hiddenAnchorText = Sample.hiddenAnchorTree.
Proof. vm_compute. reflexivity. Qed.

Example parse_link : Sample.parse Sample.linkText = Sample.linkTree.
Proof. vm_compute. reflexivity. Qed.

(** The snapshot of a pass leaves out what a template element holds. *)
Example snapshot_template :
  Dom.snapshot Sample.templateTree = [0; 1; 2; 3; 4]%nat
  /\ Dom.elements Sample.templateTree = [0; 1; 2; 3; 4; 5]%nat
  /\ Dom.hidden Sample.templateTree = [5%nat].
Proof. vm_compute. done. Qed.

Lemma sanitize_respects_budgets_witness :
  let rules := [lit "p"] in
  let policy := compileRules rules emptyConfig in
  let d := Sample.parse
             (lastPassInput (env := Sample.collaborators) Sample.paragraphsText policy) in
  let out := sanitize (env := Sample.collaborators) Sample.paragraphsText rules emptyConfig in
  (1 <= maxPassesOf policy)%Z
  /\ NoDup (Dom.elements d)
  /\ Dom.snapshot d = Dom.elements d
  /\ readsBack (env := Sample.collaborators) policy
       (filterDocument (env := Sample.collaborators) policy d)
  /\ out = Sample.wrap "<p>a</p>"
  /\ (countTag (lit "p") (Sample.parse out) <= ruleBudget (lit "p") rules)%nat.
Proof.
  intros rules policy d out.
  assert (1 <= maxPassesOf policy)%Z as Hpos by (vm_compute; discriminate).
  assert (NoDup (Dom.elements d)) as Hnd
    by (apply (bool_decide_unpack _); vm_compute; exact I).
  assert (Dom.snapshot d = Dom.elements d) as Hfull by (vm_compute; reflexivity).
  assert (readsBack (env := Sample.collaborators) policy
            (filterDocument (env := Sample.collaborators) policy d)) as Hback
    by (vm_compute; reflexivity).
  split; [exact Hpos|]. split; [exact Hnd|]. split; [exact Hfull|]. split; [exact Hback|].
  split; [vm_compute; reflexivity|].
  exact (proj1 (sanitize_respects_budgets (env := Sample.collaborators)
                  Sample.paragraphsText rules emptyConfig Hpos Hnd Hfull Hback)
               (lit "p") eq_refl).
Defined.

(** C2, as stated, fails. With [maxPasses] zero [sanitize] returns its
    input, here a paragraph that no rule allows. The last part shows a
    second way, which the amended statement leaves open: the elements inside
    a template element are not in the snapshot of a pass, so a paragraph
    that was unwrapped with its template is never counted, and with
    [maxPasses] one the text holds two paragraphs where the rules allow
    one. *)
Lemma sanitize_exceeds_budget :
  let zero := {| allowCommonAttributes := None; allowJavaScript := None;
                 maxPasses := Some 0%Z |} in
  let one := {| allowCommonAttributes := None; allowJavaScript := None;
                maxPasses := Some 1%Z |} in
  let raw := sanitize (env := Sample.collaborators) Sample.paragraphText [] zero in
  let output := sanitize (env := Sample.collaborators) Sample.templateText [lit "p"] one in
  isStructuralTag (lit "p") = false
  /\ ruleBudget (lit "p") [] = 0%nat
  /\ raw = Sample.paragraphText
  /\ countTag (lit "p") (parseFromString (Collaborators := Sample.collaborators) raw) = 1%nat
  /\ ruleBudget (lit "p") [lit "p"] = 1%nat
  /\ countTag (lit "p")
       (filterDocument (env := Sample.collaborators) (compileRules [lit "p"] one)
          Sample.templateTree) = 2%nat
  /\ output = Sample.wrap "<p>a</p><p>b</p>"
  /\ countTag (lit "p") (parseFromString (Collaborators := Sample.collaborators) output)
     = 2%nat.
Proof. vm_compute. done. Qed.

Lemma anchor_handles_distinct : NoDup (Dom.elements Sample.anchorTree).
Proof. apply (bool_decide_unpack _). vm_compute. exact I. Defined.

(** The scenarios of the specification. Of three anchors the first two stay
    when the rules name the tag twice; a wrapper that no rule names goes and
    its content moves up. *)
Example anchors_scenario :
  Sample.serialize
    (filterDocument (env := Sample.collaborators)
       (compileRules [lit "p"; lit "a"; lit "a"] emptyConfig) Sample.anchorsTree)
  = Sample.wrap "<p><a>one</a><a>two</a></p>".
Proof. vm_compute. reflexivity. Qed.

Example wrapper_scenario :
  Sample.serialize
    (filterDocument (env := Sample.collaborators)
       (compileRules [lit "a"; lit "p"] emptyConfig) Sample.wrappedTree)
  = Sample.wrap "<p><a>ok</a></p>".
Proof. vm_compute. reflexivity. Qed.

(** The scenario of the specification: the anchor loses [onclick], though a
    rule allows it, and its [javascript:] link. *)
Example anchor_scenario :
  filterDocument (env := Sample.collaborators)
    (compileRules [lit "a"; lit "a|href"; lit "a|onclick"] emptyConfig) Sample.anchorTree
  = Sample.page [Dom.Element 3 (lit "A") [] [Dom.Text (lit "x")]].
Proof. vm_compute. reflexivity. Qed.

Lemma link_handles_distinct : NoDup (Dom.elements Sample.linkTree).
Proof. apply (bool_decide_unpack _). vm_compute. exact I. Defined.

Lemma sanitize_filters_attributes_witness :
  let rules := [lit "a"; lit "a|href"; lit "a|onclick"] in
  let policy := compileRules rules emptyConfig in
  let d := Sample.parse (lastPassInput (env := Sample.collaborators) Sample.linkText policy) in
  let out := sanitize (env := Sample.collaborators) Sample.linkText rules emptyConfig in
  (1 <= maxPassesOf policy)%Z
  /\ NoDup (Dom.elements d)
  /\ Dom.snapshot d = Dom.elements d
  /\ readsBack (env := Sample.collaborators) policy
       (filterDocument (env := Sample.collaborators) policy d)
  /\ (6%nat, lit "A", [(lit "href", lit "https://example.com/")])
       ∈ Dom.allElements (Sample.parse out)
  /\ toLowerCase (lit "href")
       ∈ allowedAttrsOf (toLowerCase (lit "A")) (attrAllowlist policy)
           (allowCommonAttributesOf policy)
  /\ (allowJavaScriptOf policy = false ->
      startsWith (lit "on") (toLowerCase (lit "href")) = false).
Proof.
  intros rules policy d out.
  assert (1 <= maxPassesOf policy)%Z as Hpos by (vm_compute; discriminate).
  assert (NoDup (Dom.elements d)) as Hnd
    by (apply (bool_decide_unpack _); vm_compute; exact I).
  assert (Dom.snapshot d = Dom.elements d) as Hfull by (vm_compute; reflexivity).
  assert (readsBack (env := Sample.collaborators) policy
            (filterDocument (env := Sample.collaborators) policy d)) as Hback
    by (vm_compute; reflexivity).
  assert ((6%nat, lit "A", [(lit "href", lit "https://example.com/")])
            ∈ Dom.allElements (Sample.parse out)) as He.
  { vm_compute. do 3 apply list_elem_of_further. apply list_elem_of_here. }
  split; [exact Hpos|]. split; [exact Hnd|]. split; [exact Hfull|]. split; [exact Hback|].
  split; [exact He|].
  exact (sanitize_filters_attributes (env := Sample.collaborators)
           Sample.linkText rules emptyConfig Hpos Hnd Hfull Hback
           6%nat (lit "A") [(lit "href", lit "https://example.com/")] He
           (lit "href") (lit "https://example.com/") (list_elem_of_here _ _)).
Defined.

(** C4, as stated, fails. With [maxPasses] zero [sanitize] returns its
    input: the anchor keeps [onclick], and keeps [href], which no rule
    allows. The last part shows a second way, which the amended statement
    leaves open: an anchor inside a template element is not in the snapshot
    of a pass, so when the template is unwrapped the anchor enters the tree
    with its attributes as they were. *)
Lemma sanitize_keeps_handler :
  let zero := {| allowCommonAttributes := None; allowJavaScript := None;
                 maxPasses := Some 0%Z |} in
  let rules := [lit "p"; lit "a"; lit "a|onclick"] in
  let policy := compileRules rules zero in
  let raw := sanitize (env := Sample.collaborators) Sample.anchorText rules zero in
  let kept := [(lit "href", lit "javascript:alert(1)"); (lit "onclick", lit "x")] in
  allowJavaScriptOf policy = false
  /\ raw = Sample.anchorText
  /\ Dom.allElements (parseFromString (Collaborators := Sample.collaborators) raw)
     = [(0%nat, lit "HTML", []); (1%nat, lit "HEAD", []); (2%nat, lit "BODY", []);
        (3%nat, lit "A", kept)]
  /\ startsWith (lit "on") (toLowerCase (lit "onclick")) = true
  /\ (toLowerCase (lit "href")
        ∉ allowedAttrsOf (toLowerCase (lit "A")) (attrAllowlist policy)
            (allowCommonAttributesOf policy))
  /\ Dom.allElements
       (filterDocument (env := Sample.collaborators) (compileRules rules emptyConfig)
          Sample.hiddenAnchorTree)
     = [(0%nat, lit "HTML", []); (1%nat, lit "HEAD", []); (2%nat, lit "BODY", []);
        (3%nat, lit "P", []); (5%nat, lit "A", kept)].
Proof.
  intros zero rules policy raw kept.
  split; [reflexivity|]. split; [vm_compute; reflexivity|].
  split; [vm_compute; reflexivity|]. split; [reflexivity|].
  split; [|vm_compute; reflexivity].
  apply (bool_decide_unpack _). vm_compute. exact I.
Qed.

(** ** CSS filter *)

Section CssFacts.

Context {env : Collaborators}.

Lemma vnode_forall_ind (P : Css.vnode -> Prop) :
  (forall v c, Forall P c -> P (Css.Function v c)) ->
  (forall t v, P (Css.Other t v)) ->
  forall n, P n.
Proof.
  intros HF HO. fix IH 1. intros [v c|t v]; [|apply HO].
  apply HF. induction c as [|x c IHc]; constructor; [apply IH | exact IHc].
Qed.

(** The walk finds a call of [url] exactly when there is one. *)
Lemma visitsUrl_urlCall (n : Css.vnode) : Css.visitsUrl n = true <-> urlCall n.
Proof.
  induction n as [v c IHc|t v] using vnode_forall_ind.
  - simpl. destruct (eqb (toLowerCase v) (lit "url")) eqn:Hv.
    + apply eqb_true in Hv. split; [intros _; by constructor | done].
    + apply eqb_false in Hv. rewrite existsb_exists. split.
      * intros (x & Hx & Hurl). apply (urlCall_below v c x); [by apply list_elem_of_In|].
        rewrite Forall_forall in IHc. apply IHc; [by apply list_elem_of_In | done].
      * inversion 1 as [|? ? x Hx Hurl]; [done|]. subst. exists x.
        split; [by apply list_elem_of_In|].
        rewrite Forall_forall in IHc. by apply IHc.
  - split; [done | inversion 1].
Qed.

Lemma isSafeCssValue_spec (value : jsstring) : isSafeCssValue value = true <-> ~ callsUrl value.
Proof.
  unfold isSafeCssValue, callsUrl. rewrite negb_true_iff. split.
  - intros Hno (n & Hn & Hurl). apply visitsUrl_urlCall in Hurl.
    assert (existsb Css.visitsUrl (valueParser value) = true) as Hex.
    { apply existsb_exists. exists n. split; [by apply list_elem_of_In | done]. }
    congruence.
  - intros Hno. apply not_true_is_false. intros (n & Hn & Hurl)%existsb_exists.
    apply Hno. exists n. split; [by apply list_elem_of_In | by apply visitsUrl_urlCall].
Qed.

Lemma keepsDecl_spec (allowedProps : gset jsstring) (n : Css.node) :
  keepsDecl allowedProps n = true ->
  exists p v, n = Css.Decl p v /\ toLowerCase (trim p) ∈ allowedProps /\ ~ callsUrl v.
Proof.
  destruct n as [p v|h s c|a q c|t]; try done. simpl.
  intros [Hp Hv]%andb_true_iff. exists p, v. split; [done|].
  split; [by apply bool_decide_eq_true in Hp | by apply isSafeCssValue_spec].
Qed.

(** The rules built for a rule of the sheet are all in order. *)
Lemma buildRules_filtered (sa : gmap jsstring (gset jsstring))
    (selectors : list jsstring) (nodes : list Css.node) (fresh : nat) :
  Forall (filteredNode sa) (buildRules sa selectors nodes fresh).1.
Proof.
  unfold buildRules.
  assert (Forall (filteredNode sa) (@nil Css.node, fresh).1) as Hinit by constructor.
  revert Hinit. generalize (@nil Css.node, fresh).
  induction selectors as [|selector selectors IH]; intros acc Hacc; simpl; [done|].
  apply IH. destruct (sa !! selector) as [props|] eqn:Hsel; [|done].
  destruct (List.filter (keepsDecl props) nodes) as [|m kept] eqn:Hkept; [done|].
  simpl. apply Forall_app. split; [done|]. constructor; [|constructor].
  exists props. split; [done|]. intros m' Hm'. rewrite <- Hkept in Hm'.
  apply list_elem_of_In, filter_In in Hm' as [_ Hkeeps]. by apply keepsDecl_spec.
Qed.

Lemma css_subst_cons (h : nat) (news : list Css.node) (x : Css.node) (r : Css.root) :
  Css.subst h news (x :: r) = Css.substNode h news x ++ Css.subst h news r.
Proof. reflexivity. Qed.

(** Declarations are left alone by a replacement of rules. *)
Lemma css_subst_decls (h : nat) (news nodes : list Css.node) :
  (forall m, m ∈ nodes -> exists p v, m = Css.Decl p v) ->
  flat_map (Css.substNode h news) nodes = nodes.
Proof.
  induction nodes as [|m nodes IH]; intros Hd; [done|].
  simpl. destruct (Hd m) as (p & v & ->); [by left|].
  simpl. f_equal. apply IH. intros m' Hm'. apply Hd. by right.
Qed.

Lemma findInRoot_None (h : nat) (r : Css.root) sel c :
  Css.findInRoot h r = None -> Css.Rule h sel c ∉ r.
Proof.
  induction r as [|x r IH]; [intros _; apply not_elem_of_nil|].
  simpl. destruct (Css.findRule h x) eqn:Hx; [done|].
  intros Hr. apply not_elem_of_cons. split; [|by apply IH].
  intros <-. simpl in Hx. by rewrite Nat.eqb_refl in Hx.
Qed.

Lemma sheetOk_subst (sa : gmap jsstring (gset jsstring)) (h : nat) (rest : list nat)
    (news : list Css.node) (r : Css.root) :
  Forall (filteredNode sa) news ->
  sheetOk sa (h :: rest) r -> sheetOk sa rest (Css.subst h news r).
Proof.
  intros Hnews. induction r as [|x r IH]; intros Hok n Hn; [by apply elem_of_nil in Hn|].
  rewrite css_subst_cons in Hn. apply elem_of_app in Hn as [Hn|Hn].
  2:{ apply IH; [|done]. intros m Hm. apply Hok. by right. }
  destruct (Hok x) as [Hx|(h' & sel & c & -> & Hh')]; [by left | |].
  - destruct x as [p v|h' sel c|a q c|t]; simpl in Hn.
    + apply list_elem_of_singleton in Hn as ->. by left.
    + destruct (Nat.eqb h h').
      * left. rewrite Forall_forall in Hnews. by apply Hnews.
      * apply list_elem_of_singleton in Hn as ->. left.
        destruct Hx as (props & Hsel & Hdecls). exists props. split; [done|].
        rewrite css_subst_decls; [done|].
        intros m Hm. destruct (Hdecls m Hm) as (p & v & -> & _). by eauto.
    + done.
    + apply list_elem_of_singleton in Hn as ->. by left.
  - simpl in Hn. destruct (Nat.eqb_spec h h') as [->|Hne].
    + left. rewrite Forall_forall in Hnews. by apply Hnews.
    + apply list_elem_of_singleton in Hn as ->. right.
      eexists _, _, _. split; [done|].
      apply elem_of_cons in Hh' as [?|?]; [congruence | done].
Qed.

Lemma sheetOk_filterCssRule (sa : gmap jsstring (gset jsstring)) (h : nat)
    (rest : list nat) (st : Css.root * nat) :
  sheetOk sa (h :: rest) st.1 -> sheetOk sa rest (filterCssRule sa st h).1.
Proof.
  intros Hok. unfold filterCssRule.
  destruct (Css.findInRoot h st.1) as [[selector nodes]|] eqn:Hfind.
  - destruct (List.filter _ _) as [|s0 sels]; simpl.
    + apply sheetOk_subst; [constructor | done].
    + apply sheetOk_subst; [apply buildRules_filtered | done].
  - intros n Hn. destruct (Hok n Hn) as [?|(h' & sel & c & -> & Hh')]; [by left|].
    right. eexists _, _, _. split; [done|].
    apply elem_of_cons in Hh' as [->|?]; [|done].
    exfalso. by apply (findInRoot_None _ _ sel c Hfind).
Qed.

Lemma sheetOk_initial (sa : gmap jsstring (gset jsstring)) (r : Css.root) :
  sheetOk sa (Css.walkRules (Css.removeAtRules r)) (Css.removeAtRules r).
Proof.
  unfold Css.removeAtRules, Css.walkRules.
  induction r as [|x r IH]; intros n Hn; [by apply elem_of_nil in Hn|].
  simpl in Hn. apply elem_of_app in Hn as [Hn|Hn].
  - destruct x as [p v|h sel c|a q c|t]; simpl in Hn.
    + apply list_elem_of_singleton in Hn as ->. by left.
    + apply list_elem_of_singleton in Hn as ->. right. eexists _, _, _.
      split; [done|]. simpl. by left.
    + by apply elem_of_nil in Hn.
    + apply list_elem_of_singleton in Hn as ->. by left.
  - destruct (IH n Hn) as [?|(h & sel & c & -> & Hh)]; [by left|].
    right. eexists _, _, _. split; [done|]. simpl. rewrite flat_map_app.
    apply elem_of_app. by right.
Qed.

(** Every node at the top of a filtered sheet is in order. *)
Lemma filterCssRoot_filtered (sa : gmap jsstring (gset jsstring)) (r : Css.root) n :
  n ∈ filterCssRoot sa r -> filteredNode sa n.
Proof.
  unfold filterCssRoot.
  pose proof (sheetOk_initial sa r) as Hinit.
  change (Css.removeAtRules r) with
    (Css.removeAtRules r, Css.freshHandle (Css.removeAtRules r)).1 in Hinit at 2.
  revert Hinit. generalize (Css.removeAtRules r, Css.freshHandle (Css.removeAtRules r)).
  generalize (Css.walkRules (Css.removeAtRules r)).
  induction l as [|h rest IH]; intros st Hok; simpl.
  - intros Hn. destruct (Hok n Hn) as [?|(h & sel & c & -> & Hh)]; [done|].
    by apply elem_of_nil in Hh.
  - apply IH. by apply sheetOk_filterCssRule.
Qed.

Lemma inlineDecls_spec (allowedProps : gset jsstring) (nodes : list Css.node) p v :
  (p, v) ∈ inlineDecls allowedProps nodes ->
  exists prop value, Css.Decl prop value ∈ nodes /\ p = toLowerCase (trim prop)
    /\ v = trim value /\ p ∈ allowedProps /\ ~ callsUrl value.
Proof.
  unfold inlineDecls. intros Hin. apply list_elem_of_In, in_flat_map in Hin as (n & Hn & Hin).
  destruct n as [prop value|h s c|a q c|t]; try done.
  destruct (keepsDecl allowedProps (Css.Decl prop value)) eqn:Hk; [|done].
  destruct Hin as [[= <- <-]|[]].
  apply keepsDecl_spec in Hk as (p' & v' & [= <- <-] & Hp & Hv).
  exists prop, value. split; [by apply list_elem_of_In | done].
Qed.

(** [filterInlineStyle] returns its survivors as [prop:value], joined by
    semicolons. *)
Lemma filterInlineStyle_survivors (tag value : jsstring)
    (sa : gmap jsstring (gset jsstring)) :
  filterInlineStyle tag value sa
  = join (lit ";") ((fun d => d.1 ++ lit ":" ++ d.2) <$> inlineSurvivors tag value sa).
Proof.
  unfold filterInlineStyle, inlineSurvivors.
  case_bool_decide; [done|].
  destruct (postcssParse _) as [root|]; [|done].
  by destruct (firstRule root).
Qed.

(** C5, as amended: in a filtered style sheet no at-rule is left and every
    rule has an allowlisted selector and holds only declarations whose
    property is allowlisted for that selector and whose value, as the value
    parser reads it, calls no [url] at any depth; every declaration a filtered
    inline style keeps has its property allowlisted under [*] or under the tag
    and such a value. *)
Theorem css_survivors_allowlisted (sa : gmap jsstring (gset jsstring)) :
  (forall root n, n ∈ filterCssRoot sa root -> filteredNode sa n)
  /\ (forall tag value p v, (p, v) ∈ inlineSurvivors tag value sa ->
        p ∈ default ∅ (sa !! lit "*") ∪ default ∅ (sa !! tag)
        /\ exists value0, v = trim value0 /\ ~ callsUrl value0).
Proof.
  split; [intros root n; apply filterCssRoot_filtered|].
  intros tag value p v. unfold inlineSurvivors.
  case_bool_decide; [by intros ?%elem_of_nil|].
  destruct (postcssParse _) as [root|]; [|by intros ?%elem_of_nil].
  destruct (firstRule root) as [nodes|]; [|by intros ?%elem_of_nil].
  intros (prop & value0 & _ & _ & -> & Hp & Hv)%inlineDecls_spec.
  split; [exact Hp | by exists value0].
Qed.

End CssFacts.

Lemma css_survivors_allowlisted_witness :
  let sa : gmap jsstring (gset jsstring) := {[ lit ".header" := {[ lit "margin" ]} ]} in
  let sheet := [Css.Rule 0 (lit ".header")
                  [Css.Decl (lit "margin") (lit "0"); Css.Decl (lit "padding") (lit "2px")]] in
  let kept := Css.Rule 1 (lit ".header") [Css.Decl (lit "margin") (lit "0")] in
  kept ∈ filterCssRoot (env := Sample.collaborators) sa sheet
  /\ filteredNode (env := Sample.collaborators) sa kept.
Proof.
  intros sa sheet kept.
  assert (kept ∈ filterCssRoot (env := Sample.collaborators) sa sheet) as Hin.
  { vm_compute. apply list_elem_of_here. }
  split; [exact Hin|].
  exact (proj1 (css_survivors_allowlisted (env := Sample.collaborators) sa) sheet kept Hin).
Defined.

(** C5, as stated, fails: a value that is a quoted string holds the text
    [url(] without calling [url], and the declaration survives. The last part
    shows a second way, which the amended statement leaves open: a
    declaration at the top of a sheet, outside every rule, is never looked at,
    allowlisted or not. *)
Lemma css_url_text_survives :
  let sa : gmap jsstring (gset jsstring) := {[ lit "*" := {[ lit "content" ]} ]} in
  inlineSurvivors (env := Sample.collaborators) (lit "p") (lit "content:" ++ Sample.quotedUrl) sa
  = [(lit "content", Sample.quotedUrl)]
  /\ includes (lit "url(") Sample.quotedUrl = true
  /\ filterCssRoot (env := Sample.collaborators) ∅ [Css.Decl (lit "color") (lit "red")]
     = [Css.Decl (lit "color") (lit "red")].
Proof. vm_compute. done. Qed.

(** The scenario of the specification: of [.header{margin:0;padding:2px}]
    with the rule [style|.header|margin], the rule [.header] with the one
    declaration [margin:0] is left, printed as postcss prints a rule it was
    asked to make. *)
Example css_header_scenario :
  filterCss (env := Sample.collaborators) (lit ".header{margin:0;padding:2px}")
    (styleAllowlist (compileRules [lit "style"; lit "style|.header|margin"] emptyConfig))
  = lit ".header {margin:0" ++ Sample.lineFeed ++ lit "}".
Proof. vm_compute. reflexivity. Qed.

(** ** Idempotence *)

Section IdempotenceFacts.

Context {env : Collaborators}.


End IdempotenceFacts.



(** * Further properties

    What the code shows beyond the claims of the specification. *)

(** ** Rule compiler: what the policy holds *)

Section CompilerLookups.

(** A rule that adds nothing: membership is as before. *)
Local Ltac unchanged_rule := split; [by right | by intros [?|?]].

Lemma addTo_elem (key x : jsstring) (m : gmap jsstring (gset jsstring)) (k y : jsstring) :
  y ∈ default ∅ (addTo key x m !! k) <-> (k = key /\ y = x) \/ y ∈ default ∅ (m !! k).
Proof.
  unfold addTo. destruct (decide (k = key)) as [->|Hne].
  - rewrite lookup_insert_eq. simpl. rewrite elem_of_union, elem_of_singleton. tauto.
  - rewrite lookup_insert_ne by done. tauto.
Qed.

Lemma addTo_inhabited (key x : jsstring) (m : gmap jsstring (gset jsstring)) :
  setsInhabited m -> setsInhabited (addTo key x m).
Proof.
  intros Hm k s. unfold addTo. destruct (decide (k = key)) as [->|Hne].
  - rewrite lookup_insert_eq. intros [= <-]. set_solver.
  - rewrite lookup_insert_ne by done. apply Hm.
Qed.

(** Two allowlists that hold the same names under the same keys are the same
    map. *)
Lemma allowlist_ext (m m' : gmap jsstring (gset jsstring)) :
  setsInhabited m -> setsInhabited m' ->
  (forall k a, a ∈ default ∅ (m !! k) <-> a ∈ default ∅ (m' !! k)) ->
  m = m'.
Proof.
  intros Hm Hm' Hext. apply map_eq. intros k. specialize (Hext k).
  destruct (m !! k) as [s|] eqn:Hs, (m' !! k) as [s'|] eqn:Hs'; simpl in Hext.
  - f_equal. apply set_eq. exact Hext.
  - exfalso. apply (Hm _ _ Hs). apply set_eq. intros a. rewrite Hext. done.
  - exfalso. apply (Hm' _ _ Hs'). apply set_eq. intros a. rewrite <- Hext. done.
  - done.
Qed.

Lemma compileRule_tag (acc : CompiledPolicy) (rule tag : jsstring) :
  tagCounts (compileRule acc rule) !! tag
  = if namesTag tag rule then Some (S (default 0%nat (tagCounts acc !! tag)))
    else tagCounts acc !! tag.
Proof.
  unfold compileRule, namesTag.
  destruct (trim <$> split pipe rule) as [|p0 [|p1 [|p2 [|p3 ps]]]]; try done.
  - destruct (isEmpty (toLowerCase p0)) eqn:He.
    + destruct (eqb (toLowerCase p0) tag) eqn:Ht.
      * apply eqb_true in Ht. rewrite <- Ht, He. done.
      * by rewrite andb_false_r.
    + simpl. destruct (eqb (toLowerCase p0) tag) eqn:Ht.
      * apply eqb_true in Ht. subst tag. rewrite He, lookup_insert_eq. simpl.
        f_equal. lia.
      * apply eqb_false in Ht. by rewrite andb_false_r, lookup_insert_ne.
  - by destruct (isEmpty (toLowerCase p0) || isEmpty (toLowerCase p1)).
  - destruct (eqb (toLowerCase p0) (lit "style")); [|done].
    by destruct (isEmpty p1 || isEmpty (toLowerCase p2)).
Qed.

Lemma compileRules_tag (rules : list jsstring) (cfg : SanitizerConfig) (tag : jsstring) :
  tagCounts (compileRules rules cfg) !! tag
  = if Nat.eqb (ruleBudget tag rules) 0 then None else Some (ruleBudget tag rules).
Proof.
  induction rules as [|rule rules IH] using rev_ind; [done|].
  rewrite compileRules_snoc, compileRule_tag, IH.
  assert (ruleBudget tag (rules ++ [rule])
          = (ruleBudget tag rules + (if namesTag tag rule then 1 else 0))%nat) as ->.
  { unfold ruleBudget. rewrite List.filter_app, length_app. simpl.
    by destruct (namesTag tag rule). }
  destruct (namesTag tag rule).
  - rewrite Nat.add_1_r. simpl. f_equal.
    by destruct (Nat.eqb_spec (ruleBudget tag rules) 0) as [->|].
  - by rewrite Nat.add_0_r.
Qed.

Lemma compileRule_attribute (acc : CompiledPolicy) (rule tag attr : jsstring) :
  attr ∈ default ∅ (attrAllowlist (compileRule acc rule) !! tag)
  <-> namesAttribute tag attr rule = true \/ attr ∈ default ∅ (attrAllowlist acc !! tag).
Proof.
  unfold compileRule, namesAttribute.
  destruct (trim <$> split pipe rule) as [|p0 [|p1 [|p2 [|p3 ps]]]].
  - simpl; unchanged_rule.
  - destruct (isEmpty (toLowerCase p0)); simpl; unchanged_rule.
  - destruct (isEmpty (toLowerCase p0)) eqn:H0; simpl.
    { split; [by right|]. intros [H|?]; [|done]. exfalso.
      apply andb_true_iff in H as [[[Ht _]%andb_true_iff Heq%eqb_true]%andb_true_iff _].
      subst tag. by rewrite H0 in Ht. }
    destruct (isEmpty (toLowerCase p1)) eqn:H1; simpl.
    { split; [by right|]. intros [H|?]; [|done]. exfalso.
      apply andb_true_iff in H as [[[_ Ha]%andb_true_iff _]%andb_true_iff Heq%eqb_true].
      subst attr. by rewrite H1 in Ha. }
    rewrite addTo_elem. split.
    + intros [[-> ->]|?]; [left | by right].
      rewrite H0, H1. simpl. unfold eqb. by rewrite !bool_decide_true.
    + intros [H|?]; [left | by right].
      apply andb_true_iff in H as [[_ Ht%eqb_true]%andb_true_iff Ha%eqb_true]. done.
  - destruct (eqb (toLowerCase p0) (lit "style")); [|simpl; unchanged_rule].
    destruct (isEmpty p1 || isEmpty (toLowerCase p2)); simpl; unchanged_rule.
  - simpl; unchanged_rule.
Qed.

Lemma compileRule_attribute_inhabited (acc : CompiledPolicy) (rule : jsstring) :
  setsInhabited (attrAllowlist acc) -> setsInhabited (attrAllowlist (compileRule acc rule)).
Proof.
  intros Hacc. unfold compileRule.
  destruct (trim <$> split pipe rule) as [|p0 [|p1 [|p2 [|p3 ps]]]]; try done.
  - by destruct (isEmpty (toLowerCase p0)).
  - destruct (isEmpty (toLowerCase p0) || isEmpty (toLowerCase p1)); [done|].
    by apply addTo_inhabited.
  - destruct (eqb (toLowerCase p0) (lit "style")); [|done].
    by destruct (isEmpty p1 || isEmpty (toLowerCase p2)).
Qed.

Lemma compileRules_attribute (rules : list jsstring) (cfg : SanitizerConfig)
    (tag attr : jsstring) :
  attr ∈ default ∅ (attrAllowlist (compileRules rules cfg) !! tag)
  <-> exists rule, rule ∈ rules /\ namesAttribute tag attr rule = true.
Proof.
  induction rules as [|rule rules IH] using rev_ind.
  - simpl. split; [set_solver|]. by intros (r & ?%elem_of_nil & _).
  - rewrite compileRules_snoc, compileRule_attribute, IH. split.
    + intros [H|(r & Hr & H)].
      * exists rule. split; [|done]. apply elem_of_app. right. by left.
      * exists r. split; [|done]. apply elem_of_app. by left.
    + intros (r & [Hr|Hr%list_elem_of_singleton]%elem_of_app & H).
      * right. by exists r.
      * left. by subst r.
Qed.

Lemma compileRules_attribute_inhabited (rules : list jsstring) (cfg : SanitizerConfig) :
  setsInhabited (attrAllowlist (compileRules rules cfg)).
Proof.
  induction rules as [|rule rules IH] using rev_ind; [by intros k s|].
  rewrite compileRules_snoc. by apply compileRule_attribute_inhabited.
Qed.

Lemma compileRule_style (acc : CompiledPolicy) (rule selector property : jsstring) :
  property ∈ default ∅ (styleAllowlist (compileRule acc rule) !! selector)
  <-> namesStyle selector property rule = true
      \/ property ∈ default ∅ (styleAllowlist acc !! selector).
Proof.
  unfold compileRule, namesStyle.
  destruct (trim <$> split pipe rule) as [|p0 [|p1 [|p2 [|p3 ps]]]].
  - simpl; unchanged_rule.
  - destruct (isEmpty (toLowerCase p0)); simpl; unchanged_rule.
  - destruct (isEmpty (toLowerCase p0) || isEmpty (toLowerCase p1)); simpl; unchanged_rule.
  - destruct (eqb (toLowerCase p0) (lit "style")); [|simpl; unchanged_rule].
    rewrite !andb_true_l.
    destruct (isEmpty p1) eqn:H1; simpl.
    { split; [by right|]. intros [H|?]; [|done]. exfalso.
      apply andb_true_iff in H as [[[Hs _]%andb_true_iff Heq%eqb_true]%andb_true_iff _].
      subst selector. by rewrite H1 in Hs. }
    destruct (isEmpty (toLowerCase p2)) eqn:H2; simpl.
    { split; [by right|]. intros [H|?]; [|done]. exfalso.
      apply andb_true_iff in H as [[[_ Hp]%andb_true_iff _]%andb_true_iff Heq%eqb_true].
      subst property. by rewrite H2 in Hp. }
    rewrite addTo_elem. split.
    + intros [[-> ->]|?]; [left | by right].
      rewrite H1, H2. simpl. unfold eqb. by rewrite !bool_decide_true.
    + intros [H|?]; [left | by right].
      apply andb_true_iff in H as [[_ Hs%eqb_true]%andb_true_iff Hp%eqb_true]. done.
  - simpl; unchanged_rule.
Qed.

Lemma compileRule_style_inhabited (acc : CompiledPolicy) (rule : jsstring) :
  setsInhabited (styleAllowlist acc) -> setsInhabited (styleAllowlist (compileRule acc rule)).
Proof.
  intros Hacc. unfold compileRule.
  destruct (trim <$> split pipe rule) as [|p0 [|p1 [|p2 [|p3 ps]]]]; try done.
  - by destruct (isEmpty (toLowerCase p0)).
  - by destruct (isEmpty (toLowerCase p0) || isEmpty (toLowerCase p1)).
  - destruct (eqb (toLowerCase p0) (lit "style")); [|done].
    destruct (isEmpty p1 || isEmpty (toLowerCase p2)); [done|].
    by apply addTo_inhabited.
Qed.

Lemma compileRules_style (rules : list jsstring) (cfg : SanitizerConfig)
    (selector property : jsstring) :
  property ∈ default ∅ (styleAllowlist (compileRules rules cfg) !! selector)
  <-> exists rule, rule ∈ rules /\ namesStyle selector property rule = true.
Proof.
  induction rules as [|rule rules IH] using rev_ind.
  - simpl. split; [set_solver|]. by intros (r & ?%elem_of_nil & _).
  - rewrite compileRules_snoc, compileRule_style, IH. split.
    + intros [H|(r & Hr & H)].
      * exists rule. split; [|done]. apply elem_of_app. right. by left.
      * exists r. split; [|done]. apply elem_of_app. by left.
    + intros (r & [Hr|Hr%list_elem_of_singleton]%elem_of_app & H).
      * right. by exists r.
      * left. by subst r.
Qed.

Lemma compileRules_style_inhabited (rules : list jsstring) (cfg : SanitizerConfig) :
  setsInhabited (styleAllowlist (compileRules rules cfg)).
Proof.
  induction rules as [|rule rules IH] using rev_ind; [by intros k s|].
  rewrite compileRules_snoc. by apply compileRule_style_inhabited.
Qed.

Lemma filter_length_permutation {A} (p : A -> bool) (l l' : list A) :
  l ≡ₚ l' -> length (List.filter p l) = length (List.filter p l').
Proof.
  induction 1 as [|x l l' _ IH|x y l|l l' l'' _ IH1 _ IH2]; simpl.
  - done.
  - destruct (p x); simpl; by rewrite IH.
  - by destruct (p x), (p y).
  - by rewrite IH1.
Qed.

(** X1: the tag budgets [compileRules] stores are exactly the rule-derived
    ones: a tag is a key of [tagCounts] when at least one rule of a single
    segment names it (trimmed, without regard to case), its count is the
    number of those rules, no key is stored with the count zero, and the
    empty tag is never counted. *)
Theorem compileRules_tag_budget (rules : list jsstring) (cfg : SanitizerConfig)
    (tag : jsstring) :
  tagCounts (compileRules rules cfg) !! tag
  = (if Nat.eqb (ruleBudget tag rules) 0 then None else Some (ruleBudget tag rules))
  /\ ruleBudget [] rules = 0%nat.
Proof.
  split; [apply compileRules_tag|].
  unfold ruleBudget. rewrite (filter_ext _ (fun _ => false)); [by rewrite filter_false|].
  intros rule. unfold namesTag. by destruct (trim <$> split pipe rule) as [|p0 [|p1 ps]].
Qed.

(** X2: an attribute is in the set [compileRules] stores for a tag exactly
    when some rule of two segments, trimmed and lower-cased, names that tag
    and that attribute, both not empty; repeating a rule changes nothing,
    and no tag is stored with an empty set. *)
Theorem compileRules_attribute_allowlist (rules : list jsstring) (cfg : SanitizerConfig)
    (tag attr : jsstring) :
  (attr ∈ default ∅ (attrAllowlist (compileRules rules cfg) !! tag)
   <-> exists rule, rule ∈ rules /\ namesAttribute tag attr rule = true)
  /\ attrAllowlist (compileRules rules cfg) !! tag <> Some ∅.
Proof.
  split; [apply compileRules_attribute|].
  intros H. by apply (compileRules_attribute_inhabited rules cfg tag ∅).
Qed.

(** X3: a property is in the set [compileRules] stores for a selector
    exactly when some rule of three segments has [style] as its first token
    (without regard to case), that selector as its trimmed second token, its
    case kept, and that property as its trimmed, lower-cased third token,
    both not empty; no selector is stored with an empty set. *)
Theorem compileRules_style_allowlist (rules : list jsstring) (cfg : SanitizerConfig)
    (selector property : jsstring) :
  (property ∈ default ∅ (styleAllowlist (compileRules rules cfg) !! selector)
   <-> exists rule, rule ∈ rules /\ namesStyle selector property rule = true)
  /\ styleAllowlist (compileRules rules cfg) !! selector <> Some ∅.
Proof.
  split; [apply compileRules_style|].
  intros H. by apply (compileRules_style_inhabited rules cfg selector ∅).
Qed.

(** The compiled policy does not depend on the order of the rules. *)
Lemma compileRules_order (rules rules' : list jsstring) (cfg : SanitizerConfig) :
  rules ≡ₚ rules' -> compileRules rules cfg = compileRules rules' cfg.
Proof.
  intros Hperm.
  assert (tagCounts (compileRules rules cfg) = tagCounts (compileRules rules' cfg)) as Ht.
  { apply map_eq. intros tag. rewrite !compileRules_tag.
    assert (ruleBudget tag rules = ruleBudget tag rules') as ->; [|done].
    unfold ruleBudget. by apply filter_length_permutation. }
  assert (attrAllowlist (compileRules rules cfg) = attrAllowlist (compileRules rules' cfg))
    as Ha.
  { apply allowlist_ext; try apply compileRules_attribute_inhabited.
    intros k a. rewrite !compileRules_attribute.
    split; intros (r & Hr & H); exists r; (split; [|done]).
    - by rewrite <- Hperm.
    - by rewrite Hperm. }
  assert (styleAllowlist (compileRules rules cfg) = styleAllowlist (compileRules rules' cfg))
    as Hs.
  { apply allowlist_ext; try apply compileRules_style_inhabited.
    intros k a. rewrite !compileRules_style.
    split; intros (r & Hr & H); exists r; (split; [|done]).
    - by rewrite <- Hperm.
    - by rewrite Hperm. }
  pose proof (compileRules_config rules cfg) as Hc.
  pose proof (compileRules_config rules' cfg) as Hc'.
  destruct (compileRules rules cfg), (compileRules rules' cfg). simpl in *. congruence.
Qed.

End CompilerLookups.

Section CompilerTotals.

Lemma slack_update (counts : gmap jsstring nat) (tag : jsstring) (count : nat) :
  slack (<[tag := count]> counts) ∅
  = (slack (delete tag counts) ∅ + weight ∅ tag count)%nat.
Proof.
  rewrite <- insert_delete_eq. apply slack_insert. apply lookup_delete_eq.
Qed.

Lemma slack_lookup (counts : gmap jsstring nat) (tag : jsstring) :
  slack counts ∅
  = (slack (delete tag counts) ∅ + weight ∅ tag (default 0%nat (counts !! tag)))%nat.
Proof.
  destruct (counts !! tag) as [count|] eqn:Hc; simpl.
  - by apply slack_delete.
  - rewrite delete_id by done. unfold weight. rewrite lookup_empty. simpl.
    destruct (isStructuralTag tag); lia.
Qed.

Lemma compileRule_total (acc : CompiledPolicy) (rule : jsstring) :
  totalAllowedTagsOf (compileRule acc rule)
  = (totalAllowedTagsOf acc + (if countedRule rule then 1 else 0))%nat.
Proof.
  rewrite !total_slack. unfold compileRule, countedRule.
  destruct (trim <$> split pipe rule) as [|p0 [|p1 [|p2 [|p3 ps]]]]; try (simpl; lia).
  - destruct (isEmpty (toLowerCase p0)); [simpl; lia|]. cbn [tagCounts negb andb].
    rewrite slack_update, (slack_lookup (tagCounts acc) (toLowerCase p0)).
    unfold weight. rewrite lookup_empty. simpl.
    destruct (isStructuralTag (toLowerCase p0)); simpl; lia.
  - destruct (isEmpty (toLowerCase p0) || isEmpty (toLowerCase p1)); simpl; lia.
  - destruct (eqb (toLowerCase p0) (lit "style")); [|simpl; lia].
    destruct (isEmpty p1 || isEmpty (toLowerCase p2)); simpl; lia.
Qed.

(** X4: [totalAllowedTags], the total the saturation shortcut compares
    with, is the number of rules of a single segment that name a tag that is
    not structural. *)
Theorem compileRules_total (rules : list jsstring) (cfg : SanitizerConfig) :
  totalAllowedTagsOf (compileRules rules cfg) = length (List.filter countedRule rules).
Proof.
  induction rules as [|rule rules IH] using rev_ind; [done|].
  rewrite compileRules_snoc, compileRule_total, IH, List.filter_app, length_app. simpl.
  by destruct (countedRule rule).
Qed.

(** X5: a [style] element can outlive the tag enforcer exactly when the
    rules name the tag [style] and hold at least one style rule with a
    selector and a property that are not empty. *)
Theorem compileRules_allows_style_elements (rules : list jsstring) (cfg : SanitizerConfig) :
  allowStyleTagOf (compileRules rules cfg) = true
  <-> (0 < ruleBudget (lit "style") rules)%nat
      /\ exists rule selector property,
           rule ∈ rules /\ namesStyle selector property rule = true.
Proof.
  unfold allowStyleTagOf. rewrite andb_true_iff, !Nat.ltb_lt, compileRules_count.
  apply and_iff_compat_l. split.
  - intros Hsize.
    assert (styleAllowlist (compileRules rules cfg) <> ∅) as Hne.
    { intros Hempty. rewrite Hempty, map_size_empty in Hsize. lia. }
    apply map_choose in Hne as (selector & s & Hs).
    assert (s <> ∅) as Hinh by by apply (compileRules_style_inhabited rules cfg selector).
    apply set_choose_L in Hinh as (property & Hp).
    destruct (proj1 (compileRules_style rules cfg selector property)) as (rule & Hr & Hn).
    { by rewrite Hs. }
    by exists rule, selector, property.
  - intros (rule & selector & property & Hr & Hn).
    assert (property ∈ default ∅ (styleAllowlist (compileRules rules cfg) !! selector)) as Hp.
    { apply compileRules_style. by exists rule. }
    destruct (styleAllowlist (compileRules rules cfg) !! selector) as [s|] eqn:Hs;
      [|by apply elem_of_empty in Hp].
    assert (size (styleAllowlist (compileRules rules cfg)) <> 0%nat); [|lia].
    intros Hz. apply map_size_empty_iff in Hz. by rewrite Hz, lookup_empty in Hs.
Qed.

End CompilerTotals.

(** ** The lists handed to the general sanitizer, read off the rules *)

Section PurifierLists.

(** X6: the tags [applyDomPurify] hands to the general sanitizer for a
    compiled policy are the tags the rules give a budget and the structural
    tags, without [script] unless JavaScript is allowed. *)
Theorem allowedTagSetOf_compiled (rules : list jsstring) (cfg : SanitizerConfig)
    (tag : jsstring) :
  tag ∈ allowedTagSetOf (compileRules rules cfg)
  <-> ((0 < ruleBudget tag rules)%nat \/ tag ∈ STRUCTURAL_TAGS)
      /\ (tag = lit "script" -> default false (allowJavaScript cfg) = true).
Proof.
  assert (tag ∈ dom (tagCounts (compileRules rules cfg)) ∪ list_to_set STRUCTURAL_TAGS
          <-> (0 < ruleBudget tag rules)%nat \/ tag ∈ STRUCTURAL_TAGS) as Hbase.
  { rewrite elem_of_union, elem_of_list_to_set, elem_of_dom, compileRules_tag.
    apply or_iff_compat_r.
    destruct (Nat.eqb_spec (ruleBudget tag rules) 0) as [Hz|Hnz].
    - rewrite Hz. split; [by intros [? ?] | lia].
    - split; [lia | by eauto]. }
  unfold allowedTagSetOf, allowJavaScriptOf. rewrite compileRules_config.
  destruct (default false (allowJavaScript cfg)).
  - rewrite Hbase. split; [by intros ? | by intros [? _]].
  - rewrite elem_of_difference, elem_of_singleton, Hbase.
    apply and_iff_compat_l. split; [by intros ? ? | ].
    intros Himp Heq. by specialize (Himp Heq).
Qed.

(** X7: the attribute names [applyDomPurify] hands to the general
    sanitizer for a compiled policy are the attributes some rule of two
    segments allows on some tag, and with [allowCommonAttributes] the common
    ones of every tag. *)
Theorem allowedAttrSetOf_compiled (rules : list jsstring) (cfg : SanitizerConfig)
    (attr : jsstring) :
  attr ∈ allowedAttrSetOf (compileRules rules cfg)
  <-> (exists tag rule, rule ∈ rules /\ namesAttribute tag attr rule = true)
      \/ (default false (allowCommonAttributes cfg) = true
          /\ attr ∈ COMMON_GLOBAL_ATTRS ++ concat COMMON_ATTRS_values).
Proof.
  assert (attr ∈ ⋃ (map_to_list (attrAllowlist (compileRules rules cfg))).*2
          <-> exists tag rule, rule ∈ rules /\ namesAttribute tag attr rule = true) as Hdeclared.
  { rewrite elem_of_union_list. split.
    - intros (s & Hs & Hin). apply list_elem_of_fmap in Hs as ([tag s'] & -> & Hts).
      apply elem_of_map_to_list in Hts. exists tag.
      apply (proj1 (compileRules_attribute rules cfg tag attr)). by rewrite Hts.
    - intros (tag & Hrule).
      apply (proj2 (compileRules_attribute rules cfg tag attr)) in Hrule.
      destruct (attrAllowlist (compileRules rules cfg) !! tag) as [s|] eqn:Hs;
        [|by apply elem_of_empty in Hrule].
      exists s. split; [|done]. apply list_elem_of_fmap. exists (tag, s).
      split; [done|]. by apply elem_of_map_to_list. }
  unfold allowedAttrSetOf. rewrite compileRules_config.
  destruct (default false (allowCommonAttributes cfg)).
  - rewrite !elem_of_union, !elem_of_list_to_set, Hdeclared, elem_of_app. split.
    + intros [[?|?]|?]; [by left | right; by auto | right; by auto].
    + intros [?|[_ [?|?]]]; [left; by left | left; by right | by right].
  - rewrite Hdeclared. split; [by left | by intros [?|[? _]]].
Qed.

End PurifierLists.

(** ** Rules that are dropped *)

Section SplitFacts.

Lemma split_length (sep : N) (s : jsstring) :
  length (split sep s) = S (length (List.filter (fun c : N => N.eqb c sep) s)).
Proof.
  induction s as [|c s IH]; [done|].
  simpl. destruct (c =? sep); simpl; [by rewrite IH|].
  destruct (split sep s) as [|p ps]; [done|]. exact IH.
Qed.

Lemma split_without (sep : N) (s : jsstring) :
  Forall (fun c => (c =? sep) = false) s -> split sep s = [s].
Proof.
  induction 1 as [|c s Hc _ IH]; [done|]. simpl. by rewrite Hc, IH.
Qed.

(** Splitting at a separator splits what is before it and what is after
    it. *)
Lemma split_app (sep : N) (a b : jsstring) :
  split sep (a ++ sep :: b) = split sep a ++ split sep b.
Proof.
  induction a as [|c a IH]; simpl.
  - by rewrite N.eqb_refl.
  - destruct (c =? sep); [by rewrite IH|].
    rewrite IH. pose proof (split_length sep a) as Hlen.
    by destruct (split sep a) as [|p ps].
Qed.

Lemma dropWhile_all p (s : jsstring) :
  Forall (fun c => p c = true) s -> dropWhile p s = [].
Proof. induction 1 as [|c s Hc _ IH]; [done|]. simpl. by rewrite Hc. Qed.

Lemma trim_blank (s : jsstring) :
  Forall (fun c => isWhiteSpace c = true) s -> trim s = [].
Proof. intros Hs. unfold trim. by rewrite (dropWhile_all _ _ Hs). Qed.

End SplitFacts.

Section IgnoredRules.

Lemma compileRule_long (acc : CompiledPolicy) (rule : jsstring) :
  (3 <= length (List.filter (fun c : N => N.eqb c pipe) rule))%nat ->
  compileRule acc rule = acc.
Proof.
  intros Hlen. unfold compileRule.
  pose proof (split_length pipe rule) as Hs.
  assert (4 <= length (trim <$> split pipe rule))%nat as Hparts.
  { rewrite length_fmap. lia. }
  destruct (trim <$> split pipe rule) as [|p0 [|p1 [|p2 [|p3 ps]]]]; simpl in Hparts;
    [lia | lia | lia | lia | done].
Qed.

Lemma compileRule_blank (acc : CompiledPolicy) (rule : jsstring) :
  Forall (fun c => isWhiteSpace c = true) rule -> compileRule acc rule = acc.
Proof.
  intros Hblank. unfold compileRule.
  rewrite (split_without pipe rule).
  - simpl. by rewrite (trim_blank rule Hblank).
  - eapply Forall_impl; [exact Hblank|]. intros c Hc. simpl in Hc.
    destruct (N.eqb_spec c pipe) as [->|]; [done | done].
Qed.

(** X8: a rule of four or more segments, and a rule that is empty or all
    white space, is dropped without a trace: the policy is the one compiled
    without it, wherever in the list it stands. *)
Theorem compileRules_ignores (before after : list jsstring) (rule : jsstring)
    (cfg : SanitizerConfig) :
  (3 <= length (List.filter (fun c : N => N.eqb c pipe) rule))%nat
  \/ Forall (fun c => isWhiteSpace c = true) rule ->
  compileRules (before ++ rule :: after) cfg = compileRules (before ++ after) cfg.
Proof.
  intros Hrule. unfold compileRules. rewrite !foldl_app. simpl. f_equal.
  destruct Hrule as [Hlong|Hblank]; [by apply compileRule_long | by apply compileRule_blank].
Qed.

End IgnoredRules.

Lemma compileRules_ignores_witness :
  ((3 <= length (List.filter (fun c : N => N.eqb c pipe) (lit "a|href|x|y")))%nat
   \/ Forall (fun c => isWhiteSpace c = true) (lit "a|href|x|y"))
  /\ compileRules ([lit "p"] ++ lit "a|href|x|y" :: [lit "a"]) emptyConfig
     = compileRules ([lit "p"] ++ [lit "a"]) emptyConfig.
Proof.
  assert (3 <= length (List.filter (fun c : N => N.eqb c pipe) (lit "a|href|x|y")))%nat as Hlong
    by (vm_compute; lia).
  split; [by left|].
  exact (compileRules_ignores [lit "p"] [lit "a"] (lit "a|href|x|y") emptyConfig
           (or_introl Hlong)).
Defined.

(** ** URL danger check: what is and what is not flagged *)

Section UrlExtras.

Context {env : Collaborators}.

Lemma matchReference_other (c : N) (r : jsstring) :
  c <> 38 -> matchReference (c :: r) = None.
Proof.
  intros Hc. unfold matchReference.
  change (stripPrefix (lit "&#") (c :: r))
    with (if 38 =? c then stripPrefix [35] r else None).
  by destruct (N.eqb_spec 38 c) as [<-|].
Qed.

(** A stretch without an ampersand is copied, and the scan goes on behind
    it. *)
Lemma decode_plain_app (p rest : jsstring) :
  38 ∉ p ->
  decodeNumericCharacterReferences (p ++ rest) = p ++ decodeNumericCharacterReferences rest.
Proof.
  induction p as [|c p IH]; [done|].
  intros [Hc Hp]%not_elem_of_cons. simpl.
  rewrite decode_no_match by (apply matchReference_other; congruence).
  by rewrite IH.
Qed.

Lemma decode_plain (value : jsstring) :
  38 ∉ value -> decodeNumericCharacterReferences value = value.
Proof.
  intros Hv. rewrite <- (app_nil_r value) at 1.
  rewrite decode_plain_app by done. by rewrite decode_nil, app_nil_r.
Qed.

Lemma removeControlAndSpace_app (a b : jsstring) :
  removeControlAndSpace (a ++ b) = removeControlAndSpace a ++ removeControlAndSpace b.
Proof. rewrite !removeControlAndSpace_filter. apply List.filter_app. Qed.

Lemma toLowerCase_app (a b : jsstring) : toLowerCase (a ++ b) = toLowerCase a ++ toLowerCase b.
Proof. apply fmap_app. Qed.

Lemma startsWith_app (p r : jsstring) : startsWith p (p ++ r) = true.
Proof. apply startsWith_prefix. by apply prefix_app_r. Qed.

(** Only an upper-case letter changes under [lowerUnit], and it becomes a
    lower-case letter: a colon comes from a colon. *)
Lemma lowerUnit_colon (c : N) : lowerUnit c = 58 -> c = 58.
Proof.
  unfold lowerUnit.
  destruct (inRange 0x41 0x5A c || (inRange 0xC0 0xDE c && negb (c =? 0xD7))) eqn:Hup;
    [|done].
  intros Hc. assert (c = 26) as -> by lia. done.
Qed.

(** X9: [decodeNumericCharacterReferences] copies text that holds no
    ampersand and goes on decoding behind it; a value without an ampersand
    comes back as it is. *)
Theorem decode_copies_plain_text (p rest : jsstring) :
  38 ∉ p ->
  decodeNumericCharacterReferences (p ++ rest) = p ++ decodeNumericCharacterReferences rest
  /\ decodeNumericCharacterReferences p = p.
Proof. intros Hp. split; [by apply decode_plain_app | by apply decode_plain]. Qed.

(** X10: a value that begins with the letters of [javascript:] or [data:],
    in any case and with control characters or white space anywhere among
    them, is dangerous whatever follows. *)
Theorem isDangerousUrl_scheme (p rest : jsstring) :
  38 ∉ p ->
  toLowerCase (removeControlAndSpace p) = lit "javascript:"
  \/ toLowerCase (removeControlAndSpace p) = lit "data:" ->
  isDangerousUrl (p ++ rest) = true.
Proof.
  intros Hp Hscheme. unfold isDangerousUrl.
  rewrite decode_plain_app, removeControlAndSpace_app, toLowerCase_app by done.
  apply orb_true_iff.
  destruct Hscheme as [-> | ->]; [left | right]; apply startsWith_app.
Qed.

(** X11: a value that holds neither a colon nor an ampersand, a relative
    path for one, is never dangerous. *)
Theorem isDangerousUrl_needs_colon (value : jsstring) :
  38 ∉ value -> 58 ∉ value -> isDangerousUrl value = false.
Proof.
  intros Hamp Hcolon. unfold isDangerousUrl. rewrite decode_plain by done.
  apply not_true_is_false. intros Hd. apply Hcolon.
  assert (58 ∈ toLowerCase (removeControlAndSpace value)) as Hin.
  { apply orb_true_iff in Hd as [Hd|Hd]; apply startsWith_prefix in Hd as [k ->];
      apply elem_of_app; left; apply (bool_decide_unpack _); vm_compute; exact I. }
  apply list_elem_of_fmap in Hin as (c & Hc & Hin).
  symmetry in Hc. apply lowerUnit_colon in Hc. subst c.
  rewrite removeControlAndSpace_filter in Hin.
  apply list_elem_of_In, filter_In in Hin as [Hin _]. by apply list_elem_of_In.
Qed.

(** X12: a [srcset] value is dangerous exactly when the part before a comma
    or the part after it is: the check goes entry by entry. *)
Theorem isDangerousSrcset_comma (a b : jsstring) :
  isDangerousSrcset (a ++ 44 :: b) = isDangerousSrcset a || isDangerousSrcset b.
Proof. unfold isDangerousSrcset. by rewrite split_app, existsb_app. Qed.

Lemma trim_plain (s : jsstring) :
  Forall (fun c => isWhiteSpace c = false) s -> trim s = s.
Proof.
  intros Hs. unfold trim.
  assert (forall l, Forall (fun c => isWhiteSpace c = false) l ->
                    dropWhile isWhiteSpace l = l) as Hdrop.
  { intros l Hl. destruct Hl as [|c l Hc _]; [done|]. simpl. by rewrite Hc. }
  rewrite (Hdrop s Hs), (Hdrop (rev s)); [apply rev_involutive|].
  apply Forall_forall. intros c Hc. apply list_elem_of_In, in_rev in Hc.
  apply (proj1 (Forall_forall _ _) Hs). by apply list_elem_of_In.
Qed.

Lemma takeWhile_plain (s : jsstring) :
  Forall (fun c => isWhiteSpace c = false) s ->
  takeWhile (fun c => negb (isWhiteSpace c)) s = s.
Proof. induction 1 as [|c s Hc _ IH]; [done|]. simpl. by rewrite Hc, IH. Qed.

(** X13: on a value of one entry, with no comma and no white space, the
    [srcset] check is the plain URL check. *)
Theorem isDangerousSrcset_single (value : jsstring) :
  value <> [] ->
  Forall (fun c => c <> 44 /\ isWhiteSpace c = false) value ->
  isDangerousSrcset value = isDangerousUrl value.
Proof.
  intros Hne Hplain. unfold isDangerousSrcset.
  assert (Forall (fun c => isWhiteSpace c = false) value) as Hws.
  { eapply Forall_impl; [exact Hplain|]. by intros c [_ ?]. }
  rewrite split_without.
  - simpl. unfold leadingToken. rewrite (trim_plain value Hws), (takeWhile_plain value Hws).
    destruct value; [done|]. simpl. apply orb_false_r.
  - eapply Forall_impl; [exact Hplain|]. intros c [Hc _]. by apply N.eqb_neq.
Qed.

End UrlExtras.

Lemma isDangerousUrl_scheme_witness :
  let p := [32] ++ lit "JaVa" ++ [9; 10] ++ lit "Script:" in
  (38 ∉ p)
  /\ (toLowerCase (removeControlAndSpace p) = lit "javascript:"
      \/ toLowerCase (removeControlAndSpace p) = lit "data:")
  /\ isDangerousUrl (p ++ lit "alert(1)") = true.
Proof.
  intros p.
  assert (38 ∉ p) as Hamp by (apply (bool_decide_unpack _); vm_compute; exact I).
  assert (toLowerCase (removeControlAndSpace p) = lit "javascript:") as Hscheme
    by reflexivity.
  split; [exact Hamp|]. split; [by left|].
  exact (isDangerousUrl_scheme p (lit "alert(1)") Hamp (or_introl Hscheme)).
Defined.

Lemma decode_copies_plain_text_witness :
  (38 ∉ lit "https://example.com/?a=1")
  /\ decodeNumericCharacterReferences (lit "https://example.com/?a=1" ++ lit "&#106;")
     = lit "https://example.com/?a=1" ++ decodeNumericCharacterReferences (lit "&#106;").
Proof.
  assert (38 ∉ lit "https://example.com/?a=1") as Hamp
    by (apply (bool_decide_unpack _); vm_compute; exact I).
  split; [exact Hamp|].
  exact (proj1 (decode_copies_plain_text (lit "https://example.com/?a=1") (lit "&#106;") Hamp)).
Defined.

Lemma isDangerousUrl_needs_colon_witness :
  (38 ∉ lit "/images/logo.png") /\ (58 ∉ lit "/images/logo.png")
  /\ isDangerousUrl (lit "/images/logo.png") = false.
Proof.
  assert (38 ∉ lit "/images/logo.png") as Hamp
    by (apply (bool_decide_unpack _); vm_compute; exact I).
  assert (58 ∉ lit "/images/logo.png") as Hcolon
    by (apply (bool_decide_unpack _); vm_compute; exact I).
  split; [exact Hamp|]. split; [exact Hcolon|].
  exact (isDangerousUrl_needs_colon (lit "/images/logo.png") Hamp Hcolon).
Defined.

Lemma isDangerousSrcset_single_witness :
  lit "data:image/png;base64" <> []
  /\ Forall (fun c => c <> 44 /\ isWhiteSpace c = false) (lit "data:image/png;base64")
  /\ isDangerousSrcset (lit "data:image/png;base64")
     = isDangerousUrl (lit "data:image/png;base64").
Proof.
  assert (lit "data:image/png;base64" <> []) as Hne by discriminate.
  assert (Forall (fun c => c <> 44 /\ isWhiteSpace c = false) (lit "data:image/png;base64"))
    as Hplain by (apply (bool_decide_unpack _); vm_compute; exact I).
  split; [exact Hne|]. split; [exact Hplain|].
  exact (isDangerousSrcset_single (lit "data:image/png;base64") Hne Hplain).
Defined.

(** ** Attribute filter: one attribute at a time *)

Section AttributeLoop.

Context {env : Collaborators}.

Import Dom.

Lemma removeAttribute_middle (pre todo : list (jsstring * jsstring)) (a : jsstring * jsstring) :
  a.1 ∉ pre.*1 -> removeAttribute a.1 (pre ++ a :: todo) = pre ++ todo.
Proof.
  induction pre as [|b pre IH]; simpl.
  - intros _. by rewrite (proj2 (eqb_true a.1 a.1)).
  - intros [Hb Hpre]%not_elem_of_cons.
    rewrite (proj2 (eqb_false b.1 a.1)) by congruence. by rewrite IH.
Qed.

Lemma setAttribute_middle (pre todo : list (jsstring * jsstring)) (a : jsstring * jsstring)
    (v : jsstring) :
  a.1 ∉ pre.*1 -> setAttribute a.1 v (pre ++ a :: todo) = pre ++ (a.1, v) :: todo.
Proof.
  induction pre as [|b pre IH]; simpl.
  - intros _. by rewrite (proj2 (eqb_true a.1 a.1)).
  - intros [Hb Hpre]%not_elem_of_cons.
    rewrite (proj2 (eqb_false b.1 a.1)) by congruence. by rewrite IH.
Qed.

Lemma keepAttribute_name tag allowed sa js (a b : jsstring * jsstring) :
  keepAttribute tag allowed sa js a = Some b -> b.1 = a.1.
Proof.
  unfold keepAttribute.
  destruct (negb js && startsWith (lit "on") (toLowerCase a.1)); [done|].
  destruct (negb (bool_decide (toLowerCase a.1 ∈ allowed))); [done|].
  destruct (eqb (toLowerCase a.1) (lit "style")).
  { case_bool_decide; [done|]. by intros [= <-]. }
  destruct (negb js && bool_decide (toLowerCase a.1 ∈ URL_ATTRS)).
  - destruct (isDangerousUrlValue _ _); [done|]. by intros [= <-].
  - by intros [= <-].
Qed.

(** One iteration on an attribute whose name is not among those before
    it. *)
Lemma filterAttribute_middle tag allowed sa js
    (pre todo : list (jsstring * jsstring)) (a : jsstring * jsstring) :
  a.1 ∉ pre.*1 ->
  filterAttribute tag allowed sa js (pre ++ a :: todo) a
  = pre ++ option_list (keepAttribute tag allowed sa js a) ++ todo.
Proof.
  intros Ha. unfold filterAttribute, keepAttribute.
  destruct (negb js && startsWith (lit "on") (toLowerCase a.1));
    [by apply removeAttribute_middle|].
  destruct (negb (bool_decide (toLowerCase a.1 ∈ allowed)));
    [by apply removeAttribute_middle|].
  destruct (eqb (toLowerCase a.1) (lit "style")).
  { case_bool_decide; [by apply removeAttribute_middle | by apply setAttribute_middle]. }
  destruct (negb js && bool_decide (toLowerCase a.1 ∈ URL_ATTRS)); [|done].
  destruct (isDangerousUrlValue _ _); [by apply removeAttribute_middle | done].
Qed.

Lemma filterAttribute_loop tag allowed sa js (todo pre : list (jsstring * jsstring)) :
  NoDup ((pre ++ todo).*1) ->
  foldl (filterAttribute tag allowed sa js) (pre ++ todo) todo
  = pre ++ omap (keepAttribute tag allowed sa js) todo.
Proof.
  revert pre. induction todo as [|a todo IH]; intros pre Hnd; [done|].
  rewrite fmap_app in Hnd. apply NoDup_app in Hnd as (Hpre & Hdisj & Htodo).
  rewrite fmap_cons in Hdisj, Htodo. apply NoDup_cons in Htodo as [Ha Htodo].
  assert (a.1 ∉ pre.*1) as Hfresh.
  { intros Hin. apply (Hdisj _ Hin). by left. }
  cbn [foldl]. rewrite filterAttribute_middle by done.
  rewrite app_assoc, IH.
  - rewrite <- app_assoc. f_equal. simpl.
    by destruct (keepAttribute tag allowed sa js a).
  - rewrite !fmap_app. apply NoDup_app. split; [|split; [|done]].
    + apply NoDup_app. split; [done|]. split.
      * intros x Hx Hk. destruct (keepAttribute tag allowed sa js a) as [b|] eqn:Hb;
          [|by apply elem_of_nil in Hk].
        apply keepAttribute_name in Hb. simpl in Hk.
        apply list_elem_of_singleton in Hk. congruence.
      * destruct (keepAttribute tag allowed sa js a); simpl;
          [apply NoDup_singleton | apply NoDup_nil_2].
    + intros x [Hx|Hx]%elem_of_app Htodo'.
      * apply (Hdisj _ Hx). by right.
      * destruct (keepAttribute tag allowed sa js a) as [b|] eqn:Hb;
          [|by apply elem_of_nil in Hx].
        apply keepAttribute_name in Hb. simpl in Hx.
        apply list_elem_of_singleton in Hx. congruence.
Qed.

Lemma filterAttributes_omap tag aa sa (ac js : bool) (attrs : list (jsstring * jsstring)) :
  NoDup (attrs.*1) ->
  filterAttributes tag aa sa ac js attrs
  = omap (keepAttribute tag (allowedAttrsOf tag aa ac) sa js) attrs.
Proof.
  intros Hnd. unfold filterAttributes.
  apply (filterAttribute_loop tag (allowedAttrsOf tag aa ac) sa js attrs []). exact Hnd.
Qed.

Lemma omap_names_sublist tag allowed sa js (attrs : list (jsstring * jsstring)) :
  (omap (keepAttribute tag allowed sa js) attrs).*1 `sublist_of` attrs.*1.
Proof.
  induction attrs as [|a attrs IH]; [done|]. simpl.
  destruct (keepAttribute tag allowed sa js a) as [b|] eqn:Hb.
  - apply keepAttribute_name in Hb. simpl. rewrite Hb. by apply sublist_skip.
  - by apply sublist_cons.
Qed.

Lemma filterAttributes_NoDup tag aa sa (ac js : bool) (attrs : list (jsstring * jsstring)) :
  NoDup (attrs.*1) -> NoDup ((filterAttributes tag aa sa ac js attrs).*1).
Proof.
  intros Hnd. rewrite filterAttributes_omap by done.
  eapply sublist_NoDup; [exact Hnd | apply omap_names_sublist].
Qed.

Lemma style_not_url : lit "style" ∉ URL_ATTRS.
Proof. apply (bool_decide_unpack _). vm_compute. exact I. Qed.

(** With JavaScript disallowed, what stays under a URL-bearing name passed
    the danger check. *)
Lemma keepAttribute_url tag allowed sa (a b : jsstring * jsstring) :
  keepAttribute tag allowed sa false a = Some b ->
  toLowerCase b.1 ∈ URL_ATTRS -> isDangerousUrlValue (toLowerCase b.1) b.2 = false.
Proof.
  intros Hk. pose proof (keepAttribute_name _ _ _ _ _ _ Hk) as Hname. rewrite Hname.
  revert Hk. unfold keepAttribute. cbn [negb andb].
  destruct (startsWith (lit "on") (toLowerCase a.1)); [done|].
  destruct (negb (bool_decide (toLowerCase a.1 ∈ allowed))); [done|].
  destruct (eqb (toLowerCase a.1) (lit "style")) eqn:Hstyle.
  { apply eqb_true in Hstyle. rewrite Hstyle. intros _ Hurl. by apply style_not_url in Hurl. }
  intros Hk Hurl. rewrite (bool_decide_true _ Hurl) in Hk.
  destruct (isDangerousUrlValue (toLowerCase a.1) a.2) eqn:Hd; [done|].
  by injection Hk as <-.
Qed.

Lemma filterAttributes_url tag aa sa (ac : bool) (attrs : list (jsstring * jsstring)) :
  NoDup (attrs.*1) ->
  forall nv, nv ∈ filterAttributes tag aa sa ac false attrs ->
    toLowerCase nv.1 ∈ URL_ATTRS -> isDangerousUrlValue (toLowerCase nv.1) nv.2 = false.
Proof.
  intros Hnd nv. rewrite filterAttributes_omap by done.
  intros (a & _ & Hk)%list_elem_of_omap. by eapply keepAttribute_url.
Qed.

(** X14: on an element whose attribute names are distinct, as those of an
    element are, the loop of [filterAttributes] over the snapshot decides
    each attribute on its own: what is left is the list of the attributes
    that stay, in their order, a [style] attribute with its filtered
    value. *)
Theorem filterAttributes_pointwise tag aa sa (ac js : bool)
    (attrs : list (jsstring * jsstring)) :
  NoDup (attrs.*1) ->
  filterAttributes tag aa sa ac js attrs
  = omap (keepAttribute tag (allowedAttrsOf tag aa ac) sa js) attrs.
Proof. apply filterAttributes_omap. Qed.

(** X15: [filterAttributes] adds no attribute and changes no order, and it
    rewrites no value but that of a [style] attribute. *)
Theorem filterAttributes_keeps_order tag aa sa (ac js : bool)
    (attrs : list (jsstring * jsstring)) :
  NoDup (attrs.*1) ->
  let after := filterAttributes tag aa sa ac js attrs in
  after.*1 `sublist_of` attrs.*1
  /\ List.filter (fun nv => negb (eqb (toLowerCase nv.1) (lit "style"))) after
     `sublist_of` attrs.
Proof.
  intros Hnd after. unfold after. rewrite filterAttributes_omap by done.
  split; [apply omap_names_sublist|].
  clear Hnd after. induction attrs as [|a attrs IH]; [done|]. simpl.
  destruct (keepAttribute tag (allowedAttrsOf tag aa ac) sa js a) as [b|] eqn:Hb;
    [|by apply sublist_cons].
  simpl. destruct (eqb (toLowerCase b.1) (lit "style")) eqn:Hs; simpl;
    [by apply sublist_cons|].
  assert (b = a) as ->; [|by apply sublist_skip].
  pose proof (keepAttribute_name _ _ _ _ _ _ Hb) as Hname. rewrite Hname in Hs.
  revert Hb. unfold keepAttribute. rewrite Hs.
  destruct (negb js && startsWith (lit "on") (toLowerCase a.1)); [done|].
  destruct (negb (bool_decide (toLowerCase a.1 ∈ allowedAttrsOf tag aa ac))); [done|].
  destruct (negb js && bool_decide (toLowerCase a.1 ∈ URL_ATTRS)).
  - destruct (isDangerousUrlValue _ _); [done|]. by intros [= <-].
  - by intros [= <-].
Qed.

(** X16: a [style] attribute that [filterAttributes] leaves holds the
    filtered text of the one that was there, which is not empty; so none is
    left when no property is allowlisted under [*] or under the tag. *)
Theorem filterAttributes_style tag aa sa (ac js : bool)
    (attrs : list (jsstring * jsstring)) :
  NoDup (attrs.*1) ->
  forall name value, (name, value) ∈ filterAttributes tag aa sa ac js attrs ->
    toLowerCase name = lit "style" ->
    inlineAllowedProps tag sa <> ∅
    /\ value <> []
    /\ exists original, (name, original) ∈ attrs
                        /\ value = filterInlineStyle tag original sa.
Proof.
  intros Hnd name value. rewrite filterAttributes_omap by done.
  intros ([n v] & Hin & Hk)%list_elem_of_omap Hstyle.
  pose proof (keepAttribute_name _ _ _ _ _ _ Hk) as Hname. simpl in Hname. subst n.
  revert Hk. unfold keepAttribute. cbn [fst snd]. rewrite Hstyle.
  destruct (negb js && startsWith (lit "on") (lit "style")); [done|].
  destruct (negb (bool_decide (lit "style" ∈ allowedAttrsOf tag aa ac))); [done|].
  rewrite (proj2 (eqb_true (lit "style") (lit "style")) eq_refl).
  case_bool_decide as Hlen; [done|]. intros [= <-].
  split; [|split].
  - intros Hempty. apply Hlen. unfold filterInlineStyle.
    rewrite bool_decide_true; [done|]. rewrite Hempty. apply size_empty.
  - intros Hnil. apply Hlen. by rewrite Hnil.
  - by exists v.
Qed.

(** Without a [style] attribute, what the filter leaves it leaves again. *)
Lemma filterAttributes_fixed tag aa sa (ac js : bool)
    (attrs : list (jsstring * jsstring)) :
  NoDup (attrs.*1) ->
  Forall (fun nv => toLowerCase nv.1 <> lit "style") attrs ->
  filterAttributes tag aa sa ac js (filterAttributes tag aa sa ac js attrs)
  = filterAttributes tag aa sa ac js attrs.
Proof.
  intros Hnd Hstyle.
  rewrite (filterAttributes_omap tag aa sa ac js (filterAttributes tag aa sa ac js attrs))
    by by apply filterAttributes_NoDup.
  rewrite filterAttributes_omap by done. clear Hnd.
  set (keep := keepAttribute tag (allowedAttrsOf tag aa ac) sa js).
  assert (forall a b, toLowerCase a.1 <> lit "style" -> keep a = Some b ->
                      b = a /\ keep b = Some b) as Hfix.
  { intros a b Ha. unfold keep, keepAttribute.
    rewrite (proj2 (eqb_false _ _) Ha).
    destruct (negb js && startsWith (lit "on") (toLowerCase a.1)) eqn:H1; [done|].
    destruct (negb (bool_decide (toLowerCase a.1 ∈ allowedAttrsOf tag aa ac))) eqn:H2;
      [done|].
    destruct (negb js && bool_decide (toLowerCase a.1 ∈ URL_ATTRS)) eqn:H3.
    - destruct (isDangerousUrlValue _ _) eqn:H4; [done|]. intros [= <-].
      by rewrite H1, H2, (proj2 (eqb_false _ _) Ha), H3, H4.
    - intros [= <-]. by rewrite H1, H2, (proj2 (eqb_false _ _) Ha), H3. }
  clearbody keep.
  induction Hstyle as [|a attrs Ha _ IH]; [done|]. simpl.
  destruct (keep a) as [b|] eqn:Hb; [|exact IH].
  destruct (Hfix a b Ha Hb) as [-> Hbb]. simpl. rewrite Hbb. f_equal. exact IH.
Qed.

(** X17: on attributes among which there is no [style], filtering again
    changes nothing. *)
Theorem filterAttributes_idempotent tag aa sa (ac js : bool)
    (attrs : list (jsstring * jsstring)) :
  NoDup (attrs.*1) ->
  Forall (fun nv => toLowerCase nv.1 <> lit "style") attrs ->
  filterAttributes tag aa sa ac js (filterAttributes tag aa sa ac js attrs)
  = filterAttributes tag aa sa ac js attrs.
Proof. apply filterAttributes_fixed. Qed.

End AttributeLoop.

Lemma sample_names_distinct : NoDup (sampleAttributes.*1).
Proof. apply (bool_decide_unpack _). vm_compute. exact I. Defined.

Lemma filterAttributes_pointwise_witness :
  NoDup (sampleAttributes.*1)
  /\ filterAttributes (env := Sample.collaborators) (lit "a") sampleAllowlist ∅ false false
       sampleAttributes
     = omap (keepAttribute (env := Sample.collaborators) (lit "a")
               (allowedAttrsOf (lit "a") sampleAllowlist false) ∅ false)
            sampleAttributes.
Proof.
  split; [exact sample_names_distinct|].
  exact (filterAttributes_pointwise (env := Sample.collaborators) (lit "a") sampleAllowlist ∅
           false false sampleAttributes sample_names_distinct).
Defined.

Lemma filterAttributes_keeps_order_witness :
  NoDup (sampleAttributes.*1)
  /\ (filterAttributes (env := Sample.collaborators) (lit "a") sampleAllowlist ∅ false false
        sampleAttributes).*1 `sublist_of` sampleAttributes.*1.
Proof.
  split; [exact sample_names_distinct|].
  exact (proj1 (filterAttributes_keeps_order (env := Sample.collaborators) (lit "a")
                  sampleAllowlist ∅ false false sampleAttributes sample_names_distinct)).
Defined.

Lemma filterAttributes_style_witness :
  let allowed : gmap jsstring (gset jsstring) := {[ lit "p" := {[ lit "style" ]} ]} in
  let after := filterAttributes (env := Sample.collaborators) (lit "p") allowed
                 sampleStyleRules false false sampleStyled in
  NoDup (sampleStyled.*1)
  /\ (lit "style", lit "color:red") ∈ after
  /\ toLowerCase (lit "style") = lit "style"
  /\ lit "color:red" <> [].
Proof.
  intros allowed after.
  assert (NoDup (sampleStyled.*1)) as Hnd
    by (apply (bool_decide_unpack _); vm_compute; exact I).
  assert ((lit "style", lit "color:red") ∈ after) as Hin
    by (vm_compute; apply list_elem_of_here).
  split; [exact Hnd|]. split; [exact Hin|]. split; [reflexivity|].
  exact (proj1 (proj2 (filterAttributes_style (env := Sample.collaborators) (lit "p") allowed
                         sampleStyleRules false false sampleStyled Hnd
                         (lit "style") (lit "color:red") Hin eq_refl))).
Defined.

Lemma filterAttributes_idempotent_witness :
  let once := filterAttributes (env := Sample.collaborators) (lit "a") sampleAllowlist ∅
                false false in
  NoDup (sampleAttributes.*1)
  /\ Forall (fun nv => toLowerCase nv.1 <> lit "style") sampleAttributes
  /\ once (once sampleAttributes) = once sampleAttributes.
Proof.
  intros once.
  assert (Forall (fun nv : jsstring * jsstring => toLowerCase nv.1 <> lit "style")
            sampleAttributes) as Hstyle
    by (apply (bool_decide_unpack _); vm_compute; exact I).
  split; [exact sample_names_distinct|]. split; [exact Hstyle|].
  exact (filterAttributes_idempotent (env := Sample.collaborators) (lit "a") sampleAllowlist ∅
           false false sampleAttributes sample_names_distinct Hstyle).
Defined.

(** ** One pass over the tree: what is never left *)

Section PassExtras.

Context {env : Collaborators}.

Import Dom.

Lemma countTag_zero (tag : jsstring) (d : forest) :
  (forall e, e ∈ tagged d -> eqb (toLowerCase e.2) tag = false) -> countTag tag d = 0%nat.
Proof.
  intros Hall. unfold countTag.
  rewrite (filter_ext_in _ (fun _ => false)); [by rewrite filter_false|].
  intros e He. apply Hall. by apply list_elem_of_In.
Qed.

Lemma countTag_pos (tag : jsstring) (d : forest) (e : nat * jsstring) :
  e ∈ tagged d -> toLowerCase e.2 = tag -> (0 < countTag tag d)%nat.
Proof.
  intros He Htag. unfold countTag.
  assert (e ∈ List.filter (fun e => eqb (toLowerCase e.2) tag) (tagged d)) as Hin.
  { apply list_elem_of_In, filter_In. split; [by apply list_elem_of_In | by apply eqb_true]. }
  destruct (List.filter _ (tagged d)); [by apply elem_of_nil in Hin | simpl; lia].
Qed.

(** *** Tags the pass takes out whatever their budget *)

Section Banned.

Variable policy : CompiledPolicy.
Variable banned : jsstring -> bool.
Hypothesis banned_removed :
  forall tag, banned tag = true ->
    (negb (allowJavaScriptOf policy) && eqb tag (lit "script"))
    || (eqb tag (lit "style") && negb (allowStyleTagOf policy)) = true.

Lemma visit_banned (st : PassState) (k : nat) (n : node) :
  findElement k (doc st) = Some n -> banned (toLowerCase (tagNameOf n)) = true ->
  visit policy st k = setDoc (remove k (doc st)) st.
Proof.
  intros Hfind Hb. apply banned_removed in Hb. unfold visit. rewrite Hfind.
  destruct (negb (allowJavaScriptOf policy) && eqb (toLowerCase (tagNameOf n)) (lit "script"));
    [done|].
  simpl in Hb. by rewrite Hb.
Qed.

Lemma visit_banned_waiting (st : PassState) (k : nat) (rest : list nat) :
  NoDup (elements (doc st)) ->
  (forall e, e ∈ tagged (doc st) -> banned (toLowerCase e.2) = true -> e.1 ∈ k :: rest) ->
  forall e, e ∈ tagged (doc (visit policy st k)) -> banned (toLowerCase e.2) = true ->
            e.1 ∈ rest.
Proof.
  intros Hnd Hinv e He Hb.
  assert (e ∈ tagged (doc st)) as Hold.
  { eapply elem_of_sublist; [exact He | apply visit_tagged]. }
  pose proof (Hinv e Hold Hb) as Hk. apply elem_of_cons in Hk as [Hk|Hrest]; [|done].
  exfalso.
  destruct (findElement k (doc st)) as [n|] eqn:Hfind.
  - assert (e.2 = tagNameOf n) as Htag.
    { apply (tagged_unique (doc st) k); [done | | by apply findElement_tagged].
      destruct e as [h t]. simpl in *. by subst h. }
    rewrite Htag in Hb. rewrite (visit_banned st k n Hfind Hb) in He. simpl in He.
    apply (remove_absent k (doc st)). rewrite elements_tagged.
    apply list_elem_of_fmap. by exists e.
  - apply (findElement_None _ _ Hfind). rewrite elements_tagged.
    apply list_elem_of_fmap. by exists e.
Qed.

(** An element of a banned tag that a pass leaves is one it has not
    visited. *)
Lemma filterDocument_banned_hidden (d : forest) :
  NoDup (elements d) ->
  forall e, e ∈ tagged (filterDocument policy d) -> banned (toLowerCase e.2) = true ->
            e.1 ∈ hidden d.
Proof.
  intros Hnd. unfold filterDocument, enforce.
  refine (proj2 (foldl_visit_waiting policy
                   (fun rest st =>
                      NoDup (elements (doc st))
                      /\ forall e, e ∈ tagged (doc st) -> banned (toLowerCase e.2) = true ->
                                   e.1 ∈ rest)
                   (snapshot d) (hidden d) (initialState policy d) _ _)).
  - intros k rest st [Hst Hinv].
    split; [by apply visit_NoDup | by apply visit_banned_waiting].
  - split; [done|]. intros e He _. apply waiting_all.
    rewrite elements_tagged. apply list_elem_of_fmap. by exists e.
Qed.

Lemma filterDocument_banned (d : forest) :
  NoDup (elements d) -> snapshot d = elements d ->
  forall e, e ∈ tagged (filterDocument policy d) -> banned (toLowerCase e.2) = false.
Proof.
  intros Hnd Hfull e He. apply not_true_is_false. intros Hb.
  pose proof (filterDocument_banned_hidden d Hnd e He Hb) as Hin.
  rewrite (hidden_nil d Hfull) in Hin. by apply elem_of_nil in Hin.
Qed.

End Banned.

(** *** Properties of the attributes a pass leaves *)

Section AttributeInvariant.

Variable policy : CompiledPolicy.
Variable P : list (jsstring * jsstring) -> Prop.
Variable Q : jsstring -> list (jsstring * jsstring) -> Prop.
Hypothesis filter_preserves :
  forall tag attrs, P attrs -> P (attributeFilter policy tag attrs).
Hypothesis filter_establishes :
  forall tag attrs, P attrs -> Q tag (attributeFilter policy tag attrs).

Lemma visit_attribute_invariant (st : PassState) (k : nat) (rest : list nat) :
  NoDup (elements (doc st)) ->
  (forall e, e ∈ allElements (doc st) ->
             P e.2 /\ (e.1.1 ∈ k :: rest \/ Q (toLowerCase e.1.2) e.2)) ->
  forall e, e ∈ allElements (doc (visit policy st k)) ->
            P e.2 /\ (e.1.1 ∈ rest \/ Q (toLowerCase e.1.2) e.2).
Proof.
  intros Hnd Hinv e He.
  assert (e ∈ allElements (doc st) -> e.1.1 <> k ->
          P e.2 /\ (e.1.1 ∈ rest \/ Q (toLowerCase e.1.2) e.2)) as Hold.
  { intros Hin Hne. destruct (Hinv e Hin) as [Hn [[?|?]%elem_of_cons|?]]; auto. done. }
  destruct (visit_cases policy st k)
    as [[Hnone Hv]|[(n & _ & _ & [Hv|Hv])|(n & st1 & Hfind & Hst1 & Hv)]];
    rewrite Hv in He.
  - apply Hold; [done|]. intros Hk. apply (findElement_None _ _ Hnone).
    apply elem_of_elements. by exists e.
  - simpl in He. apply remove_allElements in He as [? ?]. by apply Hold.
  - simpl in He. apply unwrap_allElements in He as [? ?]; [|done]. by apply Hold.
  - destruct (finishElement_shape policy k n (toLowerCase (tagNameOf n))
                (isStructuralTag (toLowerCase (tagNameOf n))) st1) as (d2 & flag & Heq & Hd2).
    rewrite Heq in He. simpl in He.
    assert (doc st1 = doc st) as Hdoc by by destruct Hst1 as [[_ ->]|(_ & _ & ->)].
    rewrite Hdoc in Hd2.
    assert (e ∈ allElements (withAttributes k
                               (attributeFilter policy (toLowerCase (tagNameOf n))) (doc st)))
      as He1.
    { destruct Hd2 as [->|[_ [->|[s ->]]]]; [done | |].
      - by apply remove_allElements in He as [? _].
      - by apply setTextContent_allElements in He. }
    apply withAttributes_allElements in He1 as [[? ?]|(t & a & c & Hsub & ->)]; [| |done].
    + by apply Hold.
    + simpl.
      assert (P a) as Ha.
      { apply (Hinv (k, t, a)). apply (subnodes_allElements _ _ Hsub).
        rewrite allElements_element. by left. }
      apply findElement_Some in Hfind as [Hn Hk].
      assert (tagNameOf n = t) as <-.
      { by apply (subnodes_same_tag (doc st) n (Element k t a c)). }
      split; [by apply filter_preserves | right; by apply filter_establishes].
Qed.

(** What the attribute filter establishes holds of every element a pass
    has visited and left in the tree. *)
Lemma filterDocument_attribute_invariant (d : forest) :
  NoDup (elements d) ->
  Forall (fun e => P e.2) (allElements d) ->
  forall e, e ∈ allElements (filterDocument policy d) ->
            e.1.1 ∈ hidden d \/ Q (toLowerCase e.1.2) e.2.
Proof.
  intros Hnd Hnames e He.
  cut (P e.2 /\ (e.1.1 ∈ hidden d \/ Q (toLowerCase e.1.2) e.2)); [by intros [_ ?]|].
  revert e He. unfold filterDocument, enforce.
  refine (proj2 (foldl_visit_waiting policy
                   (fun rest st =>
                      NoDup (elements (doc st))
                      /\ forall e, e ∈ allElements (doc st) ->
                                   P e.2 /\ (e.1.1 ∈ rest \/ Q (toLowerCase e.1.2) e.2))
                   (snapshot d) (hidden d) (initialState policy d) _ _)).
  - intros k rest st [Hst Hinv].
    split; [by apply visit_NoDup | by apply visit_attribute_invariant].
  - split; [done|]. intros e He. split; [by apply (proj1 (Forall_forall _ _) Hnames)|].
    left. apply waiting_all, elem_of_elements. by exists e.
Qed.

(** An element that is in the snapshot is not hidden from it. *)
Lemma visited_not_hidden (d : forest) (h : nat) : h ∈ snapshot d -> h ∉ hidden d.
Proof. intros Hs Hh. by apply elem_of_hidden in Hh as [_ Hout]. Qed.

End AttributeInvariant.

(** *** The lists handed to the general sanitizer *)

Lemma allowedAttrsOf_allowedAttrSetOf (policy : CompiledPolicy) (tag : jsstring) :
  allowedAttrsOf tag (attrAllowlist policy) (allowCommonAttributesOf policy)
  ⊆ allowedAttrSetOf policy.
Proof.
  assert (default ∅ (attrAllowlist policy !! tag)
          ⊆ ⋃ (map_to_list (attrAllowlist policy)).*2) as Hdeclared.
  { destruct (attrAllowlist policy !! tag) as [s|] eqn:Hs; simpl; [|set_solver].
    intros x Hx. apply elem_of_union_list. exists s. split; [|done].
    apply list_elem_of_fmap. exists (tag, s). split; [done|].
    by apply elem_of_map_to_list. }
  unfold allowedAttrsOf, allowedAttrSetOf, allowCommonAttributesOf.
  destruct (default false (allowCommonAttributes (config policy))); [|exact Hdeclared].
  assert (list_to_set (C := gset jsstring) (default [] (COMMON_ATTRS tag))
          ⊆ list_to_set (concat COMMON_ATTRS_values)) as Hcommon.
  { unfold COMMON_ATTRS, COMMON_ATTRS_values. intros x.
    rewrite !elem_of_list_to_set. cbn [concat]. rewrite !elem_of_app.
    destruct (eqb tag (lit "a")); [cbn [default]; tauto|].
    destruct (eqb tag (lit "img")); [cbn [default]; tauto|].
    destruct (eqb tag (lit "html")); cbn [default]; [tauto|].
    by intros ?%elem_of_nil. }
  apply union_mono; [apply union_mono; [exact Hdeclared | done] | exact Hcommon].
Qed.

(** X18: with JavaScript disallowed, on every element that a filtering
    pass has visited and left in the tree (an element of its snapshot, which
    lists all elements but those inside the content of a template element),
    the value of every URL-bearing attribute passed the danger check: read
    as [isDangerousUrlValue] reads it, it starts with neither [javascript:]
    nor [data:]. *)
Theorem pass_filters_urls (policy : CompiledPolicy) (d : forest) :
  NoDup (elements d) ->
  Forall (fun e => NoDup (e.2.*1)) (allElements d) ->
  allowJavaScriptOf policy = false ->
  forall h tagName attrs, (h, tagName, attrs) ∈ allElements (filterDocument policy d) ->
  h ∈ snapshot d ->
  forall name value, (name, value) ∈ attrs ->
    toLowerCase name ∈ URL_ATTRS ->
    isDangerousUrlValue (toLowerCase name) value = false.
Proof.
  intros Hnd Hnames Hjs h tagName attrs He Hvisited name value Hin Hurl.
  assert ((h, tagName, attrs).1.1 ∈ hidden d
          \/ forall nv, nv ∈ attrs -> toLowerCase nv.1 ∈ URL_ATTRS ->
                        isDangerousUrlValue (toLowerCase nv.1) nv.2 = false) as [Hhidden|Hsafe].
  { refine (filterDocument_attribute_invariant policy (fun attrs => NoDup (attrs.*1))
              (fun _ attrs => forall nv, nv ∈ attrs -> toLowerCase nv.1 ∈ URL_ATTRS ->
                                         isDangerousUrlValue (toLowerCase nv.1) nv.2 = false)
              _ _ d Hnd Hnames (h, tagName, attrs) He).
    - intros tag a Ha. by apply filterAttributes_NoDup.
    - intros tag a Ha nv. unfold attributeFilter. rewrite Hjs. by apply filterAttributes_url. }
  - by apply visited_not_hidden in Hvisited.
  - exact (Hsafe (name, value) Hin Hurl).
Qed.

(** X19: a filtering pass makes no element, renames none and changes no
    order: the elements of the tree it leaves are, with their tag names and
    in document order, a sublist of the elements of the document, where on
    both sides the elements inside the content of template elements count
    as elements of the tree. *)
Theorem pass_never_adds_elements (policy : CompiledPolicy) (d : forest) :
  tagged (filterDocument policy d) `sublist_of` tagged d.
Proof. apply enforce_tagged. Qed.

(** X20: with JavaScript disallowed no [script] element that a filtering
    pass has visited is left by it, whatever budget the rules give the tag;
    so none is left at all when no element of the document is inside the
    content of a template element. *)
Theorem pass_removes_scripts (policy : CompiledPolicy) (d : forest) :
  NoDup (elements d) -> allowJavaScriptOf policy = false ->
  (forall h tagName, (h, tagName) ∈ tagged (filterDocument policy d) ->
     h ∈ snapshot d -> toLowerCase tagName <> lit "script")
  /\ (snapshot d = elements d ->
      countTag (lit "script") (filterDocument policy d) = 0%nat).
Proof.
  intros Hnd Hjs.
  assert (forall tag, eqb tag (lit "script") = true ->
            (negb (allowJavaScriptOf policy) && eqb tag (lit "script"))
            || (eqb tag (lit "style") && negb (allowStyleTagOf policy)) = true) as Hbanned.
  { intros tag ->. by rewrite Hjs. }
  split.
  - intros h tagName He Hvisited Htag.
    apply (visited_not_hidden d h Hvisited).
    apply (filterDocument_banned_hidden policy _ Hbanned d Hnd (h, tagName) He).
    by apply eqb_true.
  - intros Hfull. apply countTag_zero.
    by apply (filterDocument_banned policy _ Hbanned).
Qed.

(** X21: no [style] element that a filtering pass has visited is left by it
    when the policy has no style rule, or no budget for the tag; so none is
    left at all when no element of the document is inside the content of a
    template element. *)
Theorem pass_removes_style_elements (policy : CompiledPolicy) (d : forest) :
  NoDup (elements d) ->
  styleAllowlist policy = ∅ \/ allowedCountOf policy (lit "style") = 0%nat ->
  (forall h tagName, (h, tagName) ∈ tagged (filterDocument policy d) ->
     h ∈ snapshot d -> toLowerCase tagName <> lit "style")
  /\ (snapshot d = elements d ->
      countTag (lit "style") (filterDocument policy d) = 0%nat).
Proof.
  intros Hnd Hstyle.
  assert (forall tag, eqb tag (lit "style") = true ->
            (negb (allowJavaScriptOf policy) && eqb tag (lit "script"))
            || (eqb tag (lit "style") && negb (allowStyleTagOf policy)) = true) as Hbanned.
  { intros tag ->.
    assert (allowStyleTagOf policy = false) as ->; [|apply orb_true_r].
    unfold allowStyleTagOf. destruct Hstyle as [-> | ->]; [|done].
    rewrite map_size_empty. apply andb_false_r. }
  split.
  - intros h tagName He Hvisited Htag.
    apply (visited_not_hidden d h Hvisited).
    apply (filterDocument_banned_hidden policy _ Hbanned d Hnd (h, tagName) He).
    by apply eqb_true.
  - intros Hfull. apply countTag_zero.
    by apply (filterDocument_banned policy _ Hbanned).
Qed.

Lemma countKept_pos (tag : jsstring) (rest : list nat) (d : forest) (e : nat * jsstring) :
  e ∈ tagged d -> toLowerCase e.2 = tag -> e.1 ∉ rest -> (0 < countKept tag rest d)%nat.
Proof.
  intros He Htag Hrest. unfold countKept.
  assert (e ∈ List.filter
                (fun e => eqb (toLowerCase e.2) tag && negb (bool_decide (e.1 ∈ rest)))
                (tagged d)) as Hin.
  { apply list_elem_of_In, filter_In. split; [by apply list_elem_of_In|].
    apply andb_true_iff. split; [by apply eqb_true|].
    by apply negb_true_iff, bool_decide_eq_false. }
  destruct (List.filter _ (tagged d)); [by apply elem_of_nil in Hin | simpl; lia].
Qed.

(** X22: the list of tags [applyDomPurify] hands to the general sanitizer
    admits every element a filtering pass has visited and left in the
    tree. *)
Theorem pass_tags_admitted (policy : CompiledPolicy) (d : forest) :
  NoDup (elements d) ->
  forall h tagName, (h, tagName) ∈ tagged (filterDocument policy d) ->
    h ∈ snapshot d ->
    toLowerCase tagName ∈ allowedTagSetOf policy.
Proof.
  intros Hnd h tagName He Hvisited.
  apply visited_not_hidden in Hvisited.
  assert (toLowerCase tagName ∈ dom (tagCounts policy) ∪ list_to_set STRUCTURAL_TAGS) as Hin.
  { destruct (isStructuralTag (toLowerCase tagName)) eqn:Hs.
    - apply elem_of_union. right. apply elem_of_list_to_set.
      by apply bool_decide_eq_true in Hs.
    - apply elem_of_union. left. apply elem_of_dom.
      pose proof (filterDocument_counts_visited policy d (toLowerCase tagName) Hnd Hs) as Hle.
      pose proof (countKept_pos (toLowerCase tagName) (hidden d) _ (h, tagName) He eq_refl
                    Hvisited) as Hpos.
      unfold allowedCountOf in Hle.
      destruct (tagCounts policy !! toLowerCase tagName); [done | simpl in Hle; lia]. }
  unfold allowedTagSetOf. destruct (allowJavaScriptOf policy) eqn:Hjs; [done|].
  apply elem_of_difference. split; [done|]. rewrite elem_of_singleton. intros Hscript.
  apply Hvisited.
  apply (filterDocument_banned_hidden policy (fun tag => eqb tag (lit "script"))
           (fun tag Ht => ltac:(by rewrite Ht, Hjs)) d Hnd (h, tagName) He).
  by apply eqb_true.
Qed.

(** X23: the list of attribute names [applyDomPurify] hands to the general
    sanitizer admits every attribute of an element a filtering pass has
    visited and left in the tree. *)
Theorem pass_attributes_admitted (policy : CompiledPolicy) (d : forest) :
  NoDup (elements d) ->
  forall h tagName attrs, (h, tagName, attrs) ∈ allElements (filterDocument policy d) ->
  h ∈ snapshot d ->
  forall name value, (name, value) ∈ attrs ->
    toLowerCase name ∈ allowedAttrSetOf policy.
Proof.
  intros Hnd h tagName attrs He Hvisited name value Hin.
  destruct (filterDocument_attributes policy d Hnd _ He) as [Hhidden|Hwithin].
  - by apply visited_not_hidden in Hvisited.
  - apply (allowedAttrsOf_allowedAttrSetOf policy (toLowerCase tagName)).
    exact (proj1 (Hwithin (name, value) Hin)).
Qed.

End PassExtras.

Lemma link_names_distinct :
  Forall (fun e => NoDup (e.2.*1)) (Dom.allElements Sample.linkTree).
Proof. apply (bool_decide_unpack _). vm_compute. exact I. Defined.

Lemma link_kept :
  (3%nat, lit "A", [(lit "href", lit "https://example.com/")])
    ∈ Dom.allElements (filterDocument (env := Sample.collaborators) linkPolicy Sample.linkTree).
Proof. vm_compute. do 3 apply list_elem_of_further. apply list_elem_of_here. Defined.

Lemma link_visited : 3%nat ∈ Dom.snapshot Sample.linkTree.
Proof. vm_compute. do 3 apply list_elem_of_further. apply list_elem_of_here. Defined.

Lemma pass_filters_urls_witness :
  NoDup (Dom.elements Sample.linkTree)
  /\ Forall (fun e => NoDup (e.2.*1)) (Dom.allElements Sample.linkTree)
  /\ allowJavaScriptOf linkPolicy = false
  /\ 3%nat ∈ Dom.snapshot Sample.linkTree
  /\ toLowerCase (lit "href") ∈ URL_ATTRS
  /\ isDangerousUrlValue (toLowerCase (lit "href")) (lit "https://example.com/") = false.
Proof.
  assert (toLowerCase (lit "href") ∈ URL_ATTRS) as Hurl
    by (vm_compute; apply list_elem_of_here).
  split; [exact link_handles_distinct|]. split; [exact link_names_distinct|].
  split; [reflexivity|]. split; [exact link_visited|]. split; [exact Hurl|].
  exact (pass_filters_urls (env := Sample.collaborators) linkPolicy Sample.linkTree
           link_handles_distinct link_names_distinct eq_refl
           3%nat (lit "A") [(lit "href", lit "https://example.com/")] link_kept link_visited
           (lit "href") (lit "https://example.com/") (list_elem_of_here _ _) Hurl).
Defined.

Lemma script_handles_distinct : NoDup (Dom.elements scriptTree).
Proof. apply (bool_decide_unpack _). vm_compute. exact I. Defined.

Lemma pass_removes_scripts_witness :
  let policy := compileRules [lit "script"; lit "style"] emptyConfig in
  NoDup (Dom.elements scriptTree)
  /\ allowJavaScriptOf policy = false
  /\ Dom.snapshot scriptTree = Dom.elements scriptTree
  /\ allowedCountOf policy (lit "script") = 1%nat
  /\ countTag (lit "script") (filterDocument (env := Sample.collaborators) policy scriptTree)
     = 0%nat.
Proof.
  intros policy. split; [exact script_handles_distinct|]. split; [reflexivity|].
  split; [reflexivity|]. split; [reflexivity|].
  exact (proj2 (pass_removes_scripts (env := Sample.collaborators) policy scriptTree
                  script_handles_distinct eq_refl) eq_refl).
Defined.

Lemma pass_removes_style_elements_witness :
  let policy := compileRules [lit "script"; lit "style"] emptyConfig in
  NoDup (Dom.elements scriptTree)
  /\ (styleAllowlist policy = ∅ \/ allowedCountOf policy (lit "style") = 0%nat)
  /\ Dom.snapshot scriptTree = Dom.elements scriptTree
  /\ allowedCountOf policy (lit "style") = 1%nat
  /\ countTag (lit "style") (filterDocument (env := Sample.collaborators) policy scriptTree)
     = 0%nat.
Proof.
  intros policy.
  assert (styleAllowlist policy = ∅ \/ allowedCountOf policy (lit "style") = 0%nat) as Hstyle
    by (left; reflexivity).
  split; [exact script_handles_distinct|]. split; [exact Hstyle|]. split; [reflexivity|].
  split; [reflexivity|].
  exact (proj2 (pass_removes_style_elements (env := Sample.collaborators) policy scriptTree
                  script_handles_distinct Hstyle) eq_refl).
Defined.

Lemma link_tag_kept :
  (3%nat, lit "A")
    ∈ tagged (filterDocument (env := Sample.collaborators) linkPolicy Sample.linkTree).
Proof. vm_compute. do 3 apply list_elem_of_further. apply list_elem_of_here. Defined.

Lemma pass_tags_admitted_witness :
  NoDup (Dom.elements Sample.linkTree)
  /\ 3%nat ∈ Dom.snapshot Sample.linkTree
  /\ toLowerCase (lit "A") ∈ allowedTagSetOf linkPolicy.
Proof.
  split; [exact link_handles_distinct|]. split; [exact link_visited|].
  exact (pass_tags_admitted (env := Sample.collaborators) linkPolicy Sample.linkTree
           link_handles_distinct 3%nat (lit "A") link_tag_kept link_visited).
Defined.

Lemma pass_attributes_admitted_witness :
  NoDup (Dom.elements Sample.linkTree)
  /\ 3%nat ∈ Dom.snapshot Sample.linkTree
  /\ toLowerCase (lit "href") ∈ allowedAttrSetOf linkPolicy.
Proof.
  split; [exact link_handles_distinct|]. split; [exact link_visited|].
  exact (pass_attributes_admitted (env := Sample.collaborators) linkPolicy Sample.linkTree
           link_handles_distinct 3%nat (lit "A") [(lit "href", lit "https://example.com/")]
           link_kept link_visited (lit "href") (lit "https://example.com/")
           (list_elem_of_here _ _)).
Defined.

(** ** One pass over the tree: what is always kept *)

Section MapFacts.

Import Dom.

Lemma allElements_mapAttributes g (d : forest) :
  allElements (mapAttributes g d)
  = (fun e => (e.1.1, e.1.2, g e.1.1 e.1.2 e.2)) <$> allElements d.
Proof.
  set (F := fun e : nat * jsstring * list (jsstring * jsstring) =>
              (e.1.1, e.1.2, g e.1.1 e.1.2 e.2)).
  assert (forall l, Forall (fun n => allElements [mapAttributesOf g n] = F <$> allElements [n]) l ->
                    allElements (mapAttributes g l) = F <$> allElements l) as Hforest.
  { induction 1 as [|x l Hx _ IH]; [done|].
    unfold mapAttributes. rewrite fmap_cons.
    rewrite (allElements_cons _ (_ <$> l)), (allElements_cons x l), fmap_app.
    fold (mapAttributes g l). by rewrite Hx, IH. }
  apply Hforest, Forall_forall. intros n _.
  induction n as [s|s|h t a c IHc] using node_forall_ind; [done | done |].
  cbn [mapAttributesOf]. rewrite !allElements_element, fmap_cons. unfold F at 1. simpl.
  f_equal. by apply Hforest.
Qed.

Lemma tagged_mapAttributes g (d : forest) : tagged (mapAttributes g d) = tagged d.
Proof.
  unfold tagged. rewrite allElements_mapAttributes, <- list_fmap_compose. done.
Qed.

Lemma elements_mapAttributes g (d : forest) : elements (mapAttributes g d) = elements d.
Proof. by rewrite !elements_tagged, tagged_mapAttributes. Qed.

Lemma mapAttributes_ext g g' (d : forest) :
  (forall h t a, (h, t, a) ∈ allElements d -> g h t a = g' h t a) ->
  mapAttributes g d = mapAttributes g' d.
Proof.
  assert (forall l,
            Forall (fun n => (forall h t a, (h, t, a) ∈ allElements [n] -> g h t a = g' h t a) ->
                             mapAttributesOf g n = mapAttributesOf g' n) l ->
            (forall h t a, (h, t, a) ∈ allElements l -> g h t a = g' h t a) ->
            mapAttributes g l = mapAttributes g' l) as Hforest.
  { induction 1 as [|x l Hx _ IH]; intros Hl; [done|].
    unfold mapAttributes. rewrite !fmap_cons. f_equal.
    - apply Hx. intros h t a Hin. apply Hl. rewrite (allElements_cons x l).
      apply elem_of_app. by left.
    - apply IH. intros h t a Hin. apply Hl. rewrite (allElements_cons x l).
      apply elem_of_app. by right. }
  intros Hd. apply Hforest; [|done]. apply Forall_forall. intros n _.
  induction n as [s|s|h t a c IHc] using node_forall_ind; [done | done |].
  intros Hn. cbn [mapAttributesOf]. f_equal.
  - apply Hn. rewrite allElements_element. by left.
  - apply Hforest; [done|]. intros h' t' a' Hin. apply Hn.
    rewrite allElements_element. by right.
Qed.

Lemma mapAttributes_id g (d : forest) :
  (forall h t a, (h, t, a) ∈ allElements d -> g h t a = a) -> mapAttributes g d = d.
Proof.
  intros Hg. rewrite (mapAttributes_ext g (fun _ _ a => a)) by done. clear Hg.
  assert (forall l, Forall (fun n => mapAttributesOf (fun _ _ a => a) n = n) l ->
                    mapAttributes (fun _ _ a => a) l = l) as Hforest.
  { induction 1 as [|x l Hx _ IH]; [done|].
    unfold mapAttributes. rewrite fmap_cons. f_equal; [exact Hx | exact IH]. }
  apply Hforest, Forall_forall. intros n _.
  induction n as [s|s|h t a c IHc] using node_forall_ind; [done | done |].
  cbn [mapAttributesOf]. f_equal. by apply Hforest.
Qed.

(** Filtering the attributes of one element of a mapped tree is mapping with
    a function that filters there too. *)
Lemma withAttributes_mapAttributes (k : nat) F g g' (d : forest) :
  NoDup (elements d) ->
  (forall h t a, (h, t, a) ∈ allElements d -> h <> k -> g' h t a = g h t a) ->
  (forall t a, (k, t, a) ∈ allElements d -> g' k t a = F (g k t a)) ->
  withAttributes k F (mapAttributes g d) = mapAttributes g' d.
Proof.
  unfold withAttributes, subst.
  set (f := fun n => match n with
                     | Element h' t a c => [Element h' t (F a) c]
                     | _ => [n]
                     end).
  set (ok := fun l : forest =>
               NoDup (elements l) ->
               (forall h t a, (h, t, a) ∈ allElements l -> h <> k -> g' h t a = g h t a) ->
               (forall t a, (k, t, a) ∈ allElements l -> g' k t a = F (g k t a)) ->
               flat_map (substNode k f) (mapAttributes g l) = mapAttributes g' l).
  set (okn := fun n : node =>
                NoDup (handlesOf n) ->
                (forall h t a, (h, t, a) ∈ allElements [n] -> h <> k -> g' h t a = g h t a) ->
                (forall t a, (k, t, a) ∈ allElements [n] -> g' k t a = F (g k t a)) ->
                substNode k f (mapAttributesOf g n) = [mapAttributesOf g' n]).
  assert (forall l, Forall okn l -> ok l) as Hforest.
  { induction 1 as [|x l Hx _ IH]; [done|]. unfold ok, okn in *. intros Hnd H1 H2.
    unfold elements in Hnd. simpl in Hnd. apply NoDup_app in Hnd as (Hx1 & _ & Hl1).
    unfold mapAttributes in *. rewrite !fmap_cons. simpl.
    rewrite Hx, IH; [done | done | | | done | |].
    - intros h t a Hin. apply H1. rewrite (allElements_cons x l).
      apply elem_of_app. by right.
    - intros t a Hin. apply H2. rewrite (allElements_cons x l).
      apply elem_of_app. by right.
    - intros h t a Hin. apply H1. rewrite (allElements_cons x l).
      apply elem_of_app. by left.
    - intros t a Hin. apply H2. rewrite (allElements_cons x l).
      apply elem_of_app. by left. }
  intros Hnd H1 H2. apply Hforest; [|done..]. apply Forall_forall. intros n _.
  clear Hnd H1 H2.
  induction n as [s|s|h t a c IHc] using node_forall_ind; [done | done |].
  unfold okn. intros Hnd H1 H2.
  simpl in Hnd. apply NoDup_cons in Hnd as [Hh Hc].
  cbn [mapAttributesOf substNode].
  destruct (Nat.eqb_spec k h) as [->|Hne].
  - simpl. f_equal. f_equal.
    + symmetry. apply H2. rewrite allElements_element. by left.
    + apply mapAttributes_ext. intros h' t' a' Hin. symmetry. apply H1.
      * rewrite allElements_element. by right.
      * intros ->. apply Hh. apply elem_of_elements. by exists (h, t', a').
  - f_equal. f_equal.
    + symmetry. apply H1; [|done]. rewrite allElements_element. by left.
    + apply (Hforest c IHc Hc).
      * intros h' t' a' Hin. apply H1. rewrite allElements_element. by right.
      * intros t' a' Hin. apply H2. rewrite allElements_element. by right.
Qed.

End MapFacts.

Section KeptFacts.

Import Dom.

Lemma filter_length_le {A} (p q : A -> bool) (l : list A) :
  (forall x, p x = true -> q x = true) ->
  (length (List.filter p l) <= length (List.filter q l))%nat.
Proof.
  intros Hpq. induction l as [|x l IH]; [done|]. simpl.
  destruct (p x) eqn:Hp.
  - rewrite (Hpq x Hp). simpl. lia.
  - destruct (q x); simpl; lia.
Qed.

Lemma countKept_mono (tag : jsstring) (k : nat) (rest : list nat) (d : forest) :
  (countKept tag (k :: rest) d <= countKept tag rest d)%nat.
Proof.
  apply filter_length_le. intros e [Ht Hk]%andb_true_iff.
  rewrite Ht. simpl. apply negb_true_iff, bool_decide_eq_false.
  apply negb_true_iff, bool_decide_eq_false in Hk. intros Hin. apply Hk. by right.
Qed.

Lemma countKept_countTag (tag : jsstring) (rest : list nat) (d : forest) :
  (countKept tag rest d <= countTag tag d)%nat.
Proof. apply filter_length_le. by intros e [Ht _]%andb_true_iff. Qed.

(** An element that leaves the waiting list enters the count of its tag. *)
Lemma countKept_step (tag t : jsstring) (k : nat) (rest : list nat) (d : forest) :
  NoDup (elements d) -> (k, t) ∈ tagged d -> k ∉ rest -> toLowerCase t = tag ->
  (countKept tag (k :: rest) d + 1 <= countKept tag rest d)%nat.
Proof.
  rewrite elements_tagged. intros Hnd Hin Hk Htag.
  pose proof (countKept_mono tag k rest) as Hmono. unfold countKept in *.
  induction (tagged d) as [|[h t'] l IH]; [by apply elem_of_nil in Hin|].
  simpl in Hnd. apply NoDup_cons in Hnd as [Hh Hnd]. cbn [List.filter].
  assert (length (List.filter (fun e : nat * jsstring =>
                     eqb (toLowerCase e.2) tag && negb (bool_decide (e.1 ∈ k :: rest))) l)
          <= length (List.filter (fun e : nat * jsstring =>
                       eqb (toLowerCase e.2) tag && negb (bool_decide (e.1 ∈ rest))) l))%nat
    as Hl.
  { apply filter_length_le. intros e [Ht Hk']%andb_true_iff.
    rewrite Ht. simpl. apply negb_true_iff, bool_decide_eq_false.
    apply negb_true_iff, bool_decide_eq_false in Hk'. intros Hin'. apply Hk'. by right. }
  destruct (decide (h = k)) as [->|Hne].
  - assert (t' = t) as ->.
    { apply elem_of_cons in Hin as [Heq|Hin]; [congruence|].
      exfalso. apply Hh. apply list_elem_of_fmap. by exists (k, t). }
    simpl. rewrite (bool_decide_true (k ∈ k :: rest)) by left.
    rewrite (bool_decide_false (k ∈ rest)) by done.
    rewrite (proj2 (eqb_true _ _) Htag). simpl. lia.
  - assert ((k, t) ∈ l) as Hin'.
    { apply elem_of_cons in Hin as [Heq|?]; [congruence | done]. }
    specialize (IH Hnd Hin'). simpl.
    assert (bool_decide (h ∈ k :: rest) = bool_decide (h ∈ rest)) as ->.
    { apply bool_decide_ext. rewrite elem_of_cons.
      split; [intros [?|?]; done | by right]. }
    destruct (eqb (toLowerCase t') tag && negb (bool_decide (h ∈ rest))); simpl; lia.
Qed.

End KeptFacts.

Section Compliance.

Context {env : Collaborators}.

Import Dom.

Lemma withinBudgets_spec (policy : CompiledPolicy) (d : forest) (h : nat) (t : jsstring) :
  withinBudgets policy d = true -> (h, t) ∈ tagged d ->
  toLowerCase t <> lit "style"
  /\ negb (allowJavaScriptOf policy) && eqb (toLowerCase t) (lit "script") = false
  /\ (isStructuralTag (toLowerCase t) = false ->
      (countTag (toLowerCase t) d <= allowedCountOf policy (toLowerCase t))%nat).
Proof.
  intros Hall Hin. unfold withinBudgets in Hall. rewrite forallb_forall in Hall.
  specialize (Hall (h, t) (proj1 (list_elem_of_In _ _) Hin)). simpl in Hall.
  apply andb_true_iff in Hall as [[Hstyle Hscript]%andb_true_iff Hcount].
  split; [|split].
  - apply negb_true_iff in Hstyle. by apply eqb_false.
  - destruct (allowJavaScriptOf policy); [done|]. simpl.
    rewrite orb_false_r in Hscript. by apply negb_true_iff in Hscript.
  - intros Hs. rewrite Hs in Hcount. simpl in Hcount. by apply Nat.leb_le.
Qed.

(** One iteration of the pass over a document within budgets: the element
    is kept, and its attributes are filtered. *)
Lemma visit_withinBudgets (policy : CompiledPolicy) (d : forest) (k : nat)
    (rest : list nat) (st : PassState) :
  NoDup (elements d) -> withinBudgets policy d = true ->
  k ∈ elements d -> k ∉ rest ->
  doc st = filteredExcept policy (k :: rest) d ->
  countersOk policy st ->
  (forall tag, (usedOf st tag <= countKept tag (k :: rest) d)%nat) ->
  doc (visit policy st k) = filteredExcept policy rest d
  /\ countersOk policy (visit policy st k)
  /\ (forall tag, (usedOf (visit policy st k) tag <= countKept tag rest d)%nat).
Proof.
  intros Hnd Hwithin Hk Hrest Hdoc Hok Hused.
  pose proof (visit_countersOk policy st k Hok) as Hok'.
  assert (tagged (doc st) = tagged d) as Htagged.
  { rewrite Hdoc. apply tagged_mapAttributes. }
  destruct (findElement k (doc st)) as [n|] eqn:Hfind.
  2:{ exfalso. apply (findElement_None _ _ Hfind).
      by rewrite elements_tagged, Htagged, <- elements_tagged. }
  pose proof (findElement_tagged _ _ _ Hfind) as Hkt. rewrite Htagged in Hkt.
  destruct (withinBudgets_spec policy d k (tagNameOf n) Hwithin Hkt)
    as (Hstyle & Hscript & Hcount).
  set (tag := toLowerCase (tagNameOf n)) in *.
  assert (exists st1,
            visit policy st k = finishElement policy k n tag (isStructuralTag tag) st1
            /\ doc st1 = doc st
            /\ (forall tag', (usedOf st1 tag' <= countKept tag' rest d)%nat))
    as (st1 & Hv & Hdoc1 & Hused1).
  { rewrite (visit_counting policy st k Hok). unfold visitCounting. rewrite Hfind.
    fold tag. rewrite Hscript, (proj2 (eqb_false _ _) Hstyle). cbn [andb].
    destruct (isStructuralTag tag) eqn:Hs.
    - exists st. split; [done|]. split; [done|].
      intros tag'. etrans; [apply Hused | apply countKept_mono].
    - specialize (Hcount eq_refl).
      pose proof (countKept_step tag (tagNameOf n) k rest d Hnd Hkt Hrest eq_refl) as Hstep.
      pose proof (countKept_countTag tag rest d) as Hle.
      pose proof (Hused tag) as Hu.
      unfold enforceBudgetCounting. fold (usedOf st tag).
      destruct (Nat.eqb_spec (allowedCountOf policy tag) 0) as [Hz|_]; [lia|].
      destruct (Nat.leb_spec (allowedCountOf policy tag) (usedOf st tag)) as [Hfull|_];
        [lia|].
      eexists. split; [done|]. split; [done|].
      intros tag'. unfold usedOf at 1. simpl.
      destruct (decide (tag = tag')) as [<-|Hne].
      + rewrite lookup_insert_eq. simpl. lia.
      + rewrite lookup_insert_ne by done. fold (usedOf st tag').
        etrans; [apply Hused | apply countKept_mono]. }
  destruct (finishElement_shape policy k n tag (isStructuralTag tag) st1)
    as (d2 & flag & Heq & Hd2).
  rewrite Hv in Hok' |- *. split; [|split; [done|]].
  - rewrite Heq. simpl. destruct Hd2 as [->|[? _]]; [|done].
    rewrite Hdoc1, Hdoc. unfold filteredExcept.
    apply withAttributes_mapAttributes; [done | |].
    + intros h t a _ Hne.
      assert (bool_decide (h ∈ rest) = bool_decide (h ∈ k :: rest)) as ->; [|done].
      apply bool_decide_ext. rewrite elem_of_cons.
      split; [by right | intros [?|?]; done].
    + intros t a Hin. rewrite (bool_decide_true (k ∈ k :: rest)) by left.
      rewrite (bool_decide_false (k ∈ rest)) by done.
      assert (t = tagNameOf n) as ->; [|done].
      apply (tagged_unique d k); [done | | done].
      unfold tagged. apply list_elem_of_fmap. by exists (k, t, a).
  - intros tag'. rewrite Heq. unfold usedOf. simpl. apply Hused1.
Qed.

Lemma enforce_withinBudgets (policy : CompiledPolicy) (d : forest) :
  NoDup (elements d) -> withinBudgets policy d = true ->
  filterDocument policy d = filteredExcept policy (hidden d) d.
Proof.
  intros Hnd Hwithin. unfold filterDocument, enforce.
  assert (forall rest after st,
            NoDup (rest ++ after) -> (forall k, k ∈ rest -> k ∈ elements d) ->
            doc st = filteredExcept policy (rest ++ after) d -> countersOk policy st ->
            (forall tag, (usedOf st tag <= countKept tag (rest ++ after) d)%nat) ->
            doc (foldl (visit policy) st rest) = filteredExcept policy after d) as Hfold.
  { induction rest as [|k rest IH]; intros after st Hrest Hsub Hdoc Hok Hused; [done|].
    simpl in Hrest. apply NoDup_cons in Hrest as [Hk Hrest]. simpl.
    destruct (visit_withinBudgets policy d k (rest ++ after) st Hnd Hwithin
                (Hsub k ltac:(left)) Hk Hdoc Hok Hused) as (Hdoc' & Hok' & Hused').
    apply IH; try done. intros k' Hk'. apply Hsub. by right. }
  apply Hfold; [by apply waiting_NoDup | apply snapshot_elements | |
                apply countersOk_initial |].
  - simpl. unfold filteredExcept. symmetry. apply mapAttributes_id.
    intros h t a Hin. rewrite bool_decide_true; [done|].
    apply waiting_all, elem_of_elements. by exists (h, t, a).
  - intros tag. unfold usedOf. simpl. rewrite lookup_empty. simpl. lia.
Qed.

(** The attribute filter run on the elements of the snapshot. *)
Lemma filteredExcept_hidden (policy : CompiledPolicy) (d : forest) :
  filteredExcept policy (hidden d) d
  = mapAttributes (fun h t a => if bool_decide (h ∈ snapshot d)
                                then attributeFilter policy (toLowerCase t) a else a) d.
Proof.
  unfold filteredExcept. apply mapAttributes_ext. intros h t a Hin.
  assert (h ∈ elements d) as Hh by (apply elem_of_elements; by exists (h, t, a)).
  destruct (decide (h ∈ snapshot d)) as [Hs|Hs].
  - rewrite (bool_decide_true _ Hs), bool_decide_false; [done|].
    by apply visited_not_hidden.
  - rewrite (bool_decide_false _ Hs), bool_decide_true; [done|].
    by apply elem_of_hidden.
Qed.

Lemma filteredExcept_nil (policy : CompiledPolicy) (d : forest) :
  filteredExcept policy [] d
  = mapAttributes (fun _ t a => attributeFilter policy (toLowerCase t) a) d.
Proof.
  unfold filteredExcept. apply mapAttributes_ext. intros h t a _.
  by rewrite bool_decide_false by apply not_elem_of_nil.
Qed.

(** X24: a document within budgets loses no element in a filtering pass:
    nothing is removed or unwrapped, and the pass is the attribute filter
    run on every element of the snapshot, which are all the elements of a
    document that has none inside the content of a template element. *)
Theorem pass_keeps_document_within_budgets (policy : CompiledPolicy) (d : forest) :
  NoDup (elements d) -> withinBudgets policy d = true ->
  filterDocument policy d
  = mapAttributes (fun h t a => if bool_decide (h ∈ snapshot d)
                                then attributeFilter policy (toLowerCase t) a else a) d
  /\ tagged (filterDocument policy d) = tagged d
  /\ (snapshot d = elements d ->
      filterDocument policy d
      = mapAttributes (fun _ t a => attributeFilter policy (toLowerCase t) a) d).
Proof.
  intros Hnd Hwithin.
  rewrite (enforce_withinBudgets policy d Hnd Hwithin).
  split; [apply filteredExcept_hidden|].
  split; [apply tagged_mapAttributes|].
  intros Hfull. rewrite (hidden_nil d Hfull). apply filteredExcept_nil.
Qed.

(** What a pass leaves is within budgets, when the document has no style
    element and no element inside the content of a template element. *)
Lemma filterDocument_withinBudgets (policy : CompiledPolicy) (d : forest) :
  NoDup (elements d) -> snapshot d = elements d -> countTag (lit "style") d = 0%nat ->
  withinBudgets policy (filterDocument policy d) = true.
Proof.
  intros Hnd Hfull Hstyle. unfold withinBudgets. apply forallb_forall. intros [h t] Hin.
  apply list_elem_of_In in Hin. simpl.
  apply andb_true_iff. split; [apply andb_true_iff; split|].
  - apply negb_true_iff, eqb_false. intros Ht.
    assert ((h, t) ∈ tagged d) as Hold.
    { eapply elem_of_sublist; [exact Hin | apply enforce_tagged]. }
    pose proof (countTag_pos (lit "style") d (h, t) Hold Ht). lia.
  - destruct (allowJavaScriptOf policy) eqn:Hjs; [apply orb_true_r|].
    rewrite orb_false_r.
    apply negb_true_iff.
    apply (filterDocument_banned policy (fun tag => eqb tag (lit "script"))
             (fun tag Ht => ltac:(by rewrite Ht, Hjs)) d Hnd Hfull (h, t) Hin).
  - destruct (isStructuralTag (toLowerCase t)) eqn:Hs; [done|]. simpl.
    apply Nat.leb_le. by apply filterDocument_counts.
Qed.

(** X25: on trees a filtering pass is idempotent, for a document with no
    element inside the content of a template element, no [style] element
    and no [style] attribute: a second pass over the tree the first one left
    changes nothing. *)
Theorem pass_idempotent_on_trees (policy : CompiledPolicy) (d : forest) :
  NoDup (elements d) ->
  snapshot d = elements d ->
  countTag (lit "style") d = 0%nat ->
  Forall (fun e => NoDup (e.2.*1)
                   /\ Forall (fun nv => toLowerCase nv.1 <> lit "style") e.2)
         (allElements d) ->
  filterDocument policy (filterDocument policy d) = filterDocument policy d.
Proof.
  intros Hnd Hfull Hstyle Hattrs.
  assert (NoDup (elements (filterDocument policy d))) as Hnd'.
  { eapply sublist_NoDup; [exact Hnd|]. apply sublist_elements, enforce_tagged. }
  rewrite (enforce_withinBudgets policy _ Hnd'
             (filterDocument_withinBudgets policy d Hnd Hfull Hstyle)).
  apply mapAttributes_id. intros h t a Hin.
  destruct (bool_decide _); [done|].
  assert ((h, t, a).1.1 ∈ hidden d
          \/ attributeFilter policy (toLowerCase t) a = a) as [Hhidden|Hfixed]; [|by
    rewrite (hidden_nil d Hfull) in Hhidden; apply elem_of_nil in Hhidden | done].
  refine (filterDocument_attribute_invariant policy
            (fun attrs => NoDup (attrs.*1)
                          /\ Forall (fun nv => toLowerCase nv.1 <> lit "style") attrs)
            (fun tag attrs => attributeFilter policy tag attrs = attrs)
            _ _ d Hnd Hattrs (h, t, a) Hin).
  - intros tag attrs [Hn Hs]. split; [by apply filterAttributes_NoDup|].
    apply Forall_forall. intros nv Hnv.
    unfold attributeFilter in Hnv. rewrite filterAttributes_omap in Hnv by done.
    apply list_elem_of_omap in Hnv as (a0 & Ha0 & Hk).
    apply keepAttribute_name in Hk. rewrite Hk.
    by apply (proj1 (Forall_forall _ _) Hs).
  - intros tag attrs [Hn Hs]. unfold attributeFilter.
    by apply filterAttributes_fixed.
Qed.

End Compliance.

Lemma link_within_budgets : withinBudgets linkPolicy Sample.linkTree = true.
Proof. vm_compute. reflexivity. Defined.

Lemma pass_keeps_document_within_budgets_witness :
  NoDup (Dom.elements Sample.linkTree)
  /\ withinBudgets linkPolicy Sample.linkTree = true
  /\ tagged (filterDocument (env := Sample.collaborators) linkPolicy Sample.linkTree)
     = tagged Sample.linkTree.
Proof.
  split; [exact link_handles_distinct|]. split; [exact link_within_budgets|].
  exact (proj1 (proj2 (pass_keeps_document_within_budgets (env := Sample.collaborators)
                         linkPolicy Sample.linkTree link_handles_distinct
                         link_within_budgets))).
Defined.

Lemma pass_idempotent_on_trees_witness :
  let once := filterDocument (env := Sample.collaborators) linkPolicy in
  NoDup (Dom.elements Sample.linkTree)
  /\ Dom.snapshot Sample.linkTree = Dom.elements Sample.linkTree
  /\ countTag (lit "style") Sample.linkTree = 0%nat
  /\ Forall (fun e => NoDup (e.2.*1)
                      /\ Forall (fun nv => toLowerCase nv.1 <> lit "style") e.2)
            (Dom.allElements Sample.linkTree)
  /\ once (once Sample.linkTree) = once Sample.linkTree.
Proof.
  intros once.
  assert (Forall (fun e : nat * jsstring * list (jsstring * jsstring) =>
                    NoDup (e.2.*1)
                    /\ Forall (fun nv : jsstring * jsstring =>
                                 toLowerCase nv.1 <> lit "style") e.2)
            (Dom.allElements Sample.linkTree)) as Hattrs
    by (apply (bool_decide_unpack _); vm_compute; exact I).
  split; [exact link_handles_distinct|]. split; [reflexivity|]. split; [reflexivity|].
  split; [exact Hattrs|].
  exact (pass_idempotent_on_trees (env := Sample.collaborators) linkPolicy Sample.linkTree
           link_handles_distinct eq_refl eq_refl Hattrs).
Defined.

(** ** CSS filter: what is kept *)

Section CssKeeps.

Context {env : Collaborators}.

Lemma cssnode_forall_ind (P : Css.node -> Prop) :
  (forall p v, P (Css.Decl p v)) ->
  (forall h s c, Forall P c -> P (Css.Rule h s c)) ->
  (forall a q c, Forall P c -> P (Css.AtRule a q c)) ->
  (forall t, P (Css.Comment t)) ->
  forall n, P n.
Proof.
  intros HD HR HA HC. fix IH 1. intros [p v|h s c|a q c|t]; [apply HD | | | apply HC].
  - apply HR. induction c as [|x c IHc]; constructor; [apply IH | exact IHc].
  - apply HA. induction c as [|x c IHc]; constructor; [apply IH | exact IHc].
Qed.

Lemma foldr_max_le (l : list nat) (x : nat) :
  x ∈ l -> (x <= foldr Nat.max 0%nat l)%nat.
Proof.
  induction l as [|y l IH]; [by intros ?%elem_of_nil|].
  intros [->|Hin]%elem_of_cons; simpl; [lia|]. specialize (IH Hin). lia.
Qed.

Lemma forest_handles_max (c : list Css.node) (x : nat) :
  Forall (fun n => forall x, x ∈ Css.ruleHandlesOf n -> (x <= Css.maxHandle n)%nat) c ->
  x ∈ flat_map Css.ruleHandlesOf c -> (x <= foldr Nat.max 0%nat (Css.maxHandle <$> c))%nat.
Proof.
  induction 1 as [|n c Hn _ IH]; [by intros ?%elem_of_nil|].
  rewrite fmap_cons. cbn [foldr flat_map]. intros [Hx|Hx]%elem_of_app.
  - specialize (Hn x Hx). lia.
  - specialize (IH Hx). lia.
Qed.

Lemma ruleHandles_max (n : Css.node) (x : nat) :
  x ∈ Css.ruleHandlesOf n -> (x <= Css.maxHandle n)%nat.
Proof.
  revert x. induction n as [p v|h s c IHc|a q c IHc|t] using cssnode_forall_ind;
    intros x; simpl; [by intros ?%elem_of_nil | | | by intros ?%elem_of_nil].
  - intros [->|Hx]%elem_of_cons; [lia|].
    pose proof (forest_handles_max c x IHc Hx). lia.
  - apply (forest_handles_max c x IHc).
Qed.

(** The handle [filterCss] numbers its first new rule with is above every
    handle of the sheet. *)
Lemma walkRules_fresh (r : Css.root) (x : nat) :
  x ∈ Css.walkRules r -> (x < Css.freshHandle r)%nat.
Proof.
  intros Hx. unfold Css.freshHandle. apply Nat.lt_succ_r.
  apply forest_handles_max; [|done]. apply Forall_forall. intros n _ y.
  apply ruleHandles_max.
Qed.

Lemma walkRules_app (r1 r2 : Css.root) :
  Css.walkRules (r1 ++ r2) = Css.walkRules r1 ++ Css.walkRules r2.
Proof. apply flat_map_app. Qed.

Lemma removeAtRules_app (r1 r2 : Css.root) :
  Css.removeAtRules (r1 ++ r2) = Css.removeAtRules r1 ++ Css.removeAtRules r2.
Proof. apply flat_map_app. Qed.

Lemma css_subst_app (h : nat) (news : list Css.node) (r1 r2 : Css.root) :
  Css.subst h news (r1 ++ r2) = Css.subst h news r1 ++ Css.subst h news r2.
Proof. apply flat_map_app. Qed.

(** Taking the at-rules out brings no rule in. *)
Lemma walkRules_removeAtRules (r : Css.root) (x : nat) :
  x ∈ Css.walkRules (Css.removeAtRules r) -> x ∈ Css.walkRules r.
Proof.
  assert (forall l,
            Forall (fun n => forall x, x ∈ Css.walkRules (Css.dropAtRules n) ->
                                       x ∈ Css.ruleHandlesOf n) l ->
            forall x, x ∈ Css.walkRules (Css.removeAtRules l) -> x ∈ Css.walkRules l)
    as Hforest.
  { induction 1 as [|n l Hn _ IH]; intros y; [done|].
    change (Css.removeAtRules (n :: l)) with (Css.dropAtRules n ++ Css.removeAtRules l).
    change (Css.walkRules (n :: l)) with (Css.ruleHandlesOf n ++ Css.walkRules l).
    rewrite walkRules_app. intros [Hy|Hy]%elem_of_app; apply elem_of_app; auto. }
  revert x. apply Hforest, Forall_forall. intros n _.
  induction n as [p v|h s c IHc|a q c IHc|t] using cssnode_forall_ind; intros x;
    cbn [Css.dropAtRules Css.ruleHandlesOf].
  - by intros ?%elem_of_nil.
  - unfold Css.walkRules at 1. simpl. rewrite app_nil_r.
    intros [->|Hx]%elem_of_cons; [by left | right]. by apply (Hforest c IHc).
  - by intros ?%elem_of_nil.
  - by intros ?%elem_of_nil.
Qed.

Lemma findInRoot_absent (h : nat) (r : Css.root) :
  h ∉ Css.walkRules r -> Css.findInRoot h r = None.
Proof.
  assert (forall l, Forall (fun n => h ∉ Css.ruleHandlesOf n -> Css.findRule h n = None) l ->
                    h ∉ Css.walkRules l -> Css.findInRoot h l = None) as Hforest.
  { induction 1 as [|n l Hn _ IH]; [done|].
    change (Css.walkRules (n :: l)) with (Css.ruleHandlesOf n ++ Css.walkRules l).
    intros [H1 H2]%not_elem_of_app. simpl. rewrite (Hn H1). by apply IH. }
  assert (forall l, Css.findInRoot h l
                    = (fix go (l : list Css.node) : option (jsstring * list Css.node) :=
                         match l with
                         | [] => None
                         | x :: r => match Css.findRule h x with
                                     | Some y => Some y
                                     | None => go r
                                     end
                         end) l) as Hgo.
  { induction l as [|x l IH]; [done|]. simpl. by destruct (Css.findRule h x). }
  apply Hforest, Forall_forall. intros n _.
  induction n as [p v|h' s c IHc|a q c IHc|t] using cssnode_forall_ind; simpl; try done.
  - intros [Hne Hc]%not_elem_of_cons.
    destruct (Nat.eqb_spec h h') as [->|_]; [done|].
    rewrite <- Hgo. by apply Hforest.
  - intros Hc. rewrite <- Hgo. by apply Hforest.
Qed.

Lemma findInRoot_here (h : nat) (pre post : Css.root) (sel : jsstring)
    (c : list Css.node) :
  h ∉ Css.walkRules pre ->
  Css.findInRoot h (pre ++ Css.Rule h sel c :: post) = Some (sel, c).
Proof.
  intros Hpre. apply findInRoot_absent in Hpre.
  induction pre as [|x pre IH]; simpl in *.
  - by rewrite Nat.eqb_refl.
  - destruct (Css.findRule h x); [done|]. by apply IH.
Qed.

(** A rule of a sheet after a replacement was there before, or is one of
    the new rules. *)
Lemma walkRules_subst (h : nat) (news : list Css.node) (r : Css.root) (x : nat) :
  x ∈ Css.walkRules (Css.subst h news r) ->
  x ∈ Css.walkRules r \/ x ∈ Css.walkRules news.
Proof.
  assert (forall l,
            Forall (fun n => forall x, x ∈ Css.walkRules (Css.substNode h news n) ->
                                       x ∈ Css.ruleHandlesOf n \/ x ∈ Css.walkRules news) l ->
            forall x, x ∈ Css.walkRules (Css.subst h news l) ->
                      x ∈ Css.walkRules l \/ x ∈ Css.walkRules news) as Hforest.
  { induction 1 as [|n l Hn _ IH]; intros y; [by intros ?%elem_of_nil|].
    change (Css.subst h news (n :: l)) with (Css.substNode h news n ++ Css.subst h news l).
    change (Css.walkRules (n :: l)) with (Css.ruleHandlesOf n ++ Css.walkRules l).
    rewrite walkRules_app. intros [Hy|Hy]%elem_of_app.
    - destruct (Hn y Hy); [left; apply elem_of_app |]; auto.
    - destruct (IH y Hy); [left; apply elem_of_app |]; auto. }
  revert x. apply Hforest, Forall_forall. intros n _.
  induction n as [p v|h' s c IHc|a q c IHc|t] using cssnode_forall_ind; intros x; simpl.
  - by intros ?%elem_of_nil.
  - destruct (Nat.eqb h h'); [by right|].
    unfold Css.walkRules at 1. simpl. rewrite app_nil_r.
    intros [->|Hx]%elem_of_cons; [left; by left|].
    destruct (Hforest c IHc x Hx); [left; by right | by right].
  - unfold Css.walkRules at 1. simpl. rewrite app_nil_r. apply (Hforest c IHc).
  - by intros ?%elem_of_nil.
Qed.

Lemma decl_subst (h : nat) (news c : list Css.node) (p v : jsstring) :
  Css.Decl p v ∈ c -> Css.Decl p v ∈ flat_map (Css.substNode h news) c.
Proof.
  intros Hin. apply list_elem_of_In, in_flat_map. exists (Css.Decl p v).
  split; [by apply list_elem_of_In | by left].
Qed.

Lemma decl_dropAtRules (c : list Css.node) (p v : jsstring) :
  Css.Decl p v ∈ c -> Css.Decl p v ∈ flat_map Css.dropAtRules c.
Proof.
  intros Hin. apply list_elem_of_In, in_flat_map. exists (Css.Decl p v).
  split; [by apply list_elem_of_In | by left].
Qed.

(** Another rule of the sheet stays where it is when a rule is replaced. *)
Lemma rule_subst (h f : nat) (news : list Css.node) (r : Css.root) (s : jsstring)
    (c : list Css.node) :
  h <> f -> Css.Rule f s c ∈ r ->
  Css.Rule f s (flat_map (Css.substNode h news) c) ∈ Css.subst h news r.
Proof.
  intros Hne Hin. apply list_elem_of_In, in_flat_map. exists (Css.Rule f s c).
  split; [by apply list_elem_of_In|]. simpl.
  destruct (Nat.eqb_spec h f); [done | by left].
Qed.

Lemma walkRules_rule (f : nat) (sel : jsstring) (l : list Css.node) :
  Css.walkRules [Css.Rule f sel l] = f :: flat_map Css.ruleHandlesOf l.
Proof. unfold Css.walkRules. simpl. by rewrite app_nil_r. Qed.

Lemma decls_no_rules (l : list Css.node) :
  (forall m, m ∈ l -> exists p v, m = Css.Decl p v) -> flat_map Css.ruleHandlesOf l = [].
Proof.
  induction l as [|m l IH]; intros Hd; [done|].
  destruct (Hd m) as (p & v & ->); [by left|]. simpl. apply IH.
  intros m' Hm'. apply Hd. by right.
Qed.

(** What [buildRules] makes of an allowed selector and a declaration that
    passes. *)
Lemma buildRules_acc (sa : gmap jsstring (gset jsstring)) (selectors : list jsstring)
    (nodes : list Css.node) (acc : list Css.node * nat) :
  let step := fun (acc : list Css.node * nat) selector =>
                match sa !! selector with
                | None => acc
                | Some allowedProps =>
                    let kept := List.filter (keepsDecl allowedProps) nodes in
                    match kept with
                    | [] => acc
                    | _ => (acc.1 ++ [Css.Rule acc.2 selector kept], S acc.2)
                    end
                end in
  let out := foldl step acc selectors in
  (acc.2 <= out.2)%nat
  /\ (forall n, n ∈ acc.1 -> n ∈ out.1)
  /\ (forall x, x ∈ Css.walkRules out.1 ->
                x ∈ Css.walkRules acc.1 \/ (acc.2 <= x)%nat)
  /\ (forall s props p v,
        s ∈ selectors -> sa !! s = Some props -> Css.Decl p v ∈ nodes ->
        keepsDecl props (Css.Decl p v) = true ->
        exists f kept, Css.Rule f s kept ∈ out.1 /\ Css.Decl p v ∈ kept /\ (acc.2 <= f)%nat).
Proof.
  intros step. revert acc.
  induction selectors as [|selector selectors IH]; intros acc; simpl.
  - split; [lia|]. split; [done|]. split; [by left|].
    by intros s props p v ?%elem_of_nil.
  - destruct (IH (step acc selector)) as (Hfresh & Hin & Hwalk & Hkeep).
    assert ((acc.2 <= (step acc selector).2)%nat
            /\ (forall n, n ∈ acc.1 -> n ∈ (step acc selector).1)
            /\ (forall x, x ∈ Css.walkRules (step acc selector).1 ->
                          x ∈ Css.walkRules acc.1 \/ (acc.2 <= x)%nat)) as (H1 & H2 & H3).
    { unfold step. destruct (sa !! selector) as [props|]; [|by auto].
      destruct (List.filter (keepsDecl props) nodes) as [|m kept] eqn:Hk; [by auto|].
      cbn [fst snd]. split; [lia|]. split; [intros n Hn; apply elem_of_app; by left|].
      intros x. rewrite walkRules_app. intros [Hx|Hx]%elem_of_app; [by left|].
      right. rewrite walkRules_rule in Hx.
      apply elem_of_cons in Hx as [->|Hx]; [lia|].
      exfalso. rewrite decls_no_rules in Hx; [by apply elem_of_nil in Hx|].
      intros m' Hm'. rewrite <- Hk in Hm'.
      apply list_elem_of_In, filter_In in Hm' as [_ Hm'].
      destruct m'; try done. by eauto. }
    split; [lia|]. split; [by auto|]. split.
    + intros x Hx. destruct (Hwalk x Hx) as [Hx'|Hx']; [|right; lia]. by apply H3.
    + intros s props p v [->|Hs]%elem_of_cons Hprops Hdecl Hkeeps.
      * exists acc.2, (List.filter (keepsDecl props) nodes).
        split; [|split; [|lia]].
        -- apply Hin. unfold step. rewrite Hprops.
           destruct (List.filter (keepsDecl props) nodes) as [|m kept] eqn:Hk.
           ++ exfalso. assert (Css.Decl p v ∈ List.filter (keepsDecl props) nodes) as Hf.
              { apply list_elem_of_In, filter_In. split; [by apply list_elem_of_In | done]. }
              rewrite Hk in Hf. by apply elem_of_nil in Hf.
           ++ simpl. apply elem_of_app. right. by left.
        -- apply list_elem_of_In, filter_In. split; [by apply list_elem_of_In | done].
      * destruct (Hkeep s props p v Hs Hprops Hdecl Hkeeps) as (f & kept & ? & ? & ?).
        exists f, kept. split; [done|]. split; [done|]. lia.
Qed.

Lemma filterCssRule_fresh (sa : gmap jsstring (gset jsstring)) (st : Css.root * nat)
    (h : nat) :
  (st.2 <= (filterCssRule sa st h).2)%nat.
Proof.
  unfold filterCssRule. destruct (Css.findInRoot h st.1) as [[selector nodes]|]; [|done].
  destruct (List.filter _ _) as [|s0 sels]; [done|]. simpl.
  apply (buildRules_acc sa (s0 :: sels) nodes ([], st.2)).
Qed.

(** What one iteration puts into the sheet is numbered from the counter
    on. *)
Lemma filterCssRule_shape (sa : gmap jsstring (gset jsstring)) (st : Css.root * nat)
    (h : nat) :
  (filterCssRule sa st h).1 = st.1
  \/ exists news, (filterCssRule sa st h).1 = Css.subst h news st.1
                  /\ forall x, x ∈ Css.walkRules news -> (st.2 <= x)%nat.
Proof.
  unfold filterCssRule. destruct (Css.findInRoot h st.1) as [[selector nodes]|]; [|by left].
  right. destruct (List.filter _ _) as [|s0 sels]; simpl.
  - exists []. split; [done|]. by intros x ?%elem_of_nil.
  - eexists. split; [done|]. intros x Hx.
    destruct (buildRules_acc sa (s0 :: sels) nodes ([], st.2)) as (_ & _ & Hwalk & _).
    destruct (Hwalk x Hx) as [?%elem_of_nil|?]; done.
Qed.

(** Before the rule is reached it waits at the top of the sheet with its
    declaration. *)
Lemma filterCssRule_waiting (sa : gmap jsstring (gset jsstring)) (st : Css.root * nat)
    (h1 h : nat) (sel p v : jsstring) :
  h1 <> h ->
  (exists pre c post, st.1 = pre ++ Css.Rule h sel c :: post
                      /\ (h ∉ Css.walkRules pre) /\ Css.Decl p v ∈ c) ->
  (h < st.2)%nat ->
  exists pre c post, (filterCssRule sa st h1).1 = pre ++ Css.Rule h sel c :: post
                     /\ (h ∉ Css.walkRules pre) /\ Css.Decl p v ∈ c.
Proof.
  intros Hne (pre & c & post & Hr & Hpre & Hdecl) Hlt.
  destruct (filterCssRule_shape sa st h1) as [-> | (news & -> & Hnews)];
    [by exists pre, c, post|].
  rewrite Hr, css_subst_app.
  change (Css.subst h1 news (Css.Rule h sel c :: post))
    with (Css.substNode h1 news (Css.Rule h sel c) ++ Css.subst h1 news post).
  simpl. destruct (Nat.eqb_spec h1 h) as [?|_]; [done|].
  eexists _, _, _. split; [done|]. split; [|by apply decl_subst].
  intros [Hin|Hin]%walkRules_subst; [done|]. specialize (Hnews h Hin). lia.
Qed.

(** After the rule was replaced, the rule built for it stays. *)
Lemma filterCssRule_built (sa : gmap jsstring (gset jsstring)) (st : Css.root * nat)
    (h2 f : nat) (s p v : jsstring) :
  h2 <> f ->
  (exists kept, Css.Rule f s kept ∈ st.1 /\ Css.Decl p v ∈ kept) ->
  exists kept, Css.Rule f s kept ∈ (filterCssRule sa st h2).1 /\ Css.Decl p v ∈ kept.
Proof.
  intros Hne (kept & Hin & Hdecl).
  destruct (filterCssRule_shape sa st h2) as [-> | (news & -> & _)]; [by exists kept|].
  eexists. split; [by apply rule_subst | by apply decl_subst].
Qed.

Lemma filterCssRoot_keeps (sa : gmap jsstring (gset jsstring)) (root : Css.root)
    (h : nat) (sel s p v : jsstring) (nodes : list Css.node) (props : gset jsstring) :
  NoDup (Css.walkRules root) ->
  Css.Rule h sel nodes ∈ root ->
  s ∈ trim <$> ruleSelectors sel -> sa !! s = Some props ->
  Css.Decl p v ∈ nodes ->
  keepsDecl props (Css.Decl p v) = true ->
  exists h' kept, Css.Rule h' s kept ∈ filterCssRoot sa root /\ Css.Decl p v ∈ kept.
Proof.
  intros Hnd Hin Hs Hprops Hdecl Hkeeps.
  apply list_elem_of_split in Hin as (pre & post & ->).
  rewrite walkRules_app in Hnd.
  change (Css.walkRules (Css.Rule h sel nodes :: post))
    with ((h :: flat_map Css.ruleHandlesOf nodes) ++ Css.walkRules post) in Hnd.
  apply NoDup_app in Hnd as (_ & Hdisj & _).
  assert (h ∉ Css.walkRules pre) as Hpre.
  { intros Hh. apply (Hdisj h Hh). by left. }
  unfold filterCssRoot. rewrite removeAtRules_app.
  change (Css.removeAtRules (Css.Rule h sel nodes :: post))
    with (Css.Rule h sel (flat_map Css.dropAtRules nodes) :: Css.removeAtRules post).
  set (pre1 := Css.removeAtRules pre). set (post1 := Css.removeAtRules post).
  set (c1 := flat_map Css.dropAtRules nodes).
  set (root1 := pre1 ++ Css.Rule h sel c1 :: post1).
  assert (h ∉ Css.walkRules pre1) as Hpre1.
  { intros Hh. by apply Hpre, walkRules_removeAtRules. }
  assert (Css.walkRules root1
          = Css.walkRules pre1 ++ h :: (flat_map Css.ruleHandlesOf c1 ++ Css.walkRules post1))
    as Hwalk.
  { unfold root1. by rewrite walkRules_app. }
  assert (forall x, x ∈ Css.walkRules root1 -> (x < Css.freshHandle root1)%nat) as Hbound
    by apply walkRules_fresh.
  rewrite Hwalk in Hbound |- *. rewrite foldl_app. cbn [foldl].
  set (bound := Css.freshHandle root1) in *.
  (* the rules before *)
  assert (forall l st,
            (forall x, x ∈ l -> x <> h) -> (bound <= st.2)%nat ->
            (exists pre c post, st.1 = pre ++ Css.Rule h sel c :: post
                                /\ (h ∉ Css.walkRules pre) /\ Css.Decl p v ∈ c) ->
            let st' := foldl (filterCssRule sa) st l in
            (bound <= st'.2)%nat
            /\ exists pre c post, st'.1 = pre ++ Css.Rule h sel c :: post
                                  /\ (h ∉ Css.walkRules pre) /\ Css.Decl p v ∈ c) as Hbefore.
  { assert (h < bound)%nat as Hh.
    { apply Hbound. apply elem_of_app. right. by left. }
    induction l as [|h1 l IH]; intros st Hl Hst Hinv; [done|]. simpl.
    apply IH.
    - intros x Hx. apply Hl. by right.
    - pose proof (filterCssRule_fresh sa st h1). lia.
    - apply filterCssRule_waiting; [apply Hl; by left | done | lia]. }
  destruct (Hbefore (Css.walkRules pre1) (root1, bound)) as (Hfresh & pre2 & c2 & post2 & Hr & Hpre2 & Hdecl2).
  { intros x Hx ->. done. }
  { done. }
  { exists pre1, c1, post1. split; [done|]. split; [done|]. by apply decl_dropAtRules. }
  set (st := foldl (filterCssRule sa) (root1, bound) (Css.walkRules pre1)) in *.
  (* the rule itself *)
  assert (exists f kept, Css.Rule f s kept ∈ (filterCssRule sa st h).1
                         /\ Css.Decl p v ∈ kept /\ (bound <= f)%nat)
    as (f & kept & Hbuilt & Hkept & Hf).
  { unfold filterCssRule. rewrite Hr, findInRoot_here by done.
    assert (s ∈ List.filter (fun s => bool_decide (is_Some (sa !! s)))
                  (trim <$> ruleSelectors sel)) as Hallowed.
    { apply list_elem_of_In, filter_In. split; [by apply list_elem_of_In|].
      apply bool_decide_eq_true. by rewrite Hprops. }
    destruct (List.filter _ (trim <$> ruleSelectors sel)) as [|s0 sels] eqn:Hsels;
      [by apply elem_of_nil in Hallowed|].
    destruct (buildRules_acc sa (s0 :: sels) c2 ([], st.2)) as (_ & _ & _ & Hkeep).
    destruct (Hkeep s props p v Hallowed Hprops Hdecl2 Hkeeps) as (f & kept & H1 & H2 & H3).
    exists f, kept. split; [|split; [done | simpl in H3; lia]].
    cbn [fst]. rewrite css_subst_app.
    change (Css.subst h ?news (Css.Rule h sel c2 :: post2))
      with (Css.substNode h news (Css.Rule h sel c2) ++ Css.subst h news post2).
    simpl. rewrite Nat.eqb_refl. apply elem_of_app. right. apply elem_of_app. by left. }
  (* the rules after *)
  assert (forall l st,
            (forall x, x ∈ l -> (x < bound)%nat) ->
            (exists kept, Css.Rule f s kept ∈ st.1 /\ Css.Decl p v ∈ kept) ->
            exists kept, Css.Rule f s kept ∈ (foldl (filterCssRule sa) st l).1
                         /\ Css.Decl p v ∈ kept) as Hafter.
  { induction l as [|h2 l IH]; intros st2 Hl Hinv; [done|]. simpl.
    apply IH; [intros x Hx; apply Hl; by right|].
    apply filterCssRule_built; [|done].
    specialize (Hl h2 ltac:(left)). lia. }
  destruct (Hafter (flat_map Css.ruleHandlesOf c1 ++ Css.walkRules post1)
              (filterCssRule sa st h)) as (kept' & Hfinal & Hkept').
  { intros x Hx. apply Hbound. apply elem_of_app. right. by right. }
  { by exists kept. }
  by exists f, kept'.
Qed.

(** X26: the CSS filters keep what the policy allows. In a sheet whose
    rules are distinct objects, a declaration of a rule at the top whose
    property is allowlisted for one of the selectors of the rule, and whose
    value calls no [url], is in a rule for that selector in the filtered
    sheet; and such a declaration of an inline style is among the survivors
    of [filterInlineStyle]. *)
Theorem css_keeps_allowlisted (sa : gmap jsstring (gset jsstring)) :
  (forall root h sel nodes s props p v,
      NoDup (Css.walkRules root) ->
      Css.Rule h sel nodes ∈ root ->
      s ∈ trim <$> ruleSelectors sel -> sa !! s = Some props ->
      Css.Decl p v ∈ nodes ->
      toLowerCase (trim p) ∈ props -> isSafeCssValue v = true ->
      exists h' kept, Css.Rule h' s kept ∈ filterCssRoot sa root /\ Css.Decl p v ∈ kept)
  /\ (forall tag value root nodes p v,
        postcssParse (lit "a{" ++ value ++ lit "}") = Some root ->
        firstRule root = Some nodes ->
        Css.Decl p v ∈ nodes ->
        toLowerCase (trim p) ∈ inlineAllowedProps tag sa -> isSafeCssValue v = true ->
        (toLowerCase (trim p), trim v) ∈ inlineSurvivors tag value sa).
Proof.
  split.
  - intros root h sel nodes s props p v Hnd Hin Hs Hprops Hdecl Hp Hv.
    apply (filterCssRoot_keeps sa root h sel s p v nodes props); try done.
    simpl. by rewrite bool_decide_true, Hv.
  - intros tag value root nodes p v Hparse Hfirst Hdecl Hp Hv.
    unfold inlineSurvivors. rewrite bool_decide_false, Hparse, Hfirst.
    + unfold inlineDecls. apply list_elem_of_In, in_flat_map. exists (Css.Decl p v).
      split; [by apply list_elem_of_In|]. simpl.
      rewrite bool_decide_true, Hv by done. by left.
    + intros Hsize. apply size_empty_inv in Hsize.
      apply (not_elem_of_empty (C := gset jsstring) (toLowerCase (trim p))).
      by rewrite <- (leibniz_equiv _ _ Hsize).
Qed.

End CssKeeps.

Lemma css_keeps_allowlisted_witness :
  let sa : gmap jsstring (gset jsstring) := {[ lit ".header" := {[ lit "margin" ]} ]} in
  let nodes := [Css.Decl (lit "margin") (lit "0"); Css.Decl (lit "padding") (lit "2px")] in
  let root := [Css.Rule 0 (lit ".header") nodes] in
  NoDup (Css.walkRules root)
  /\ (lit ".header"
        ∈ trim <$> ruleSelectors (Collaborators := Sample.collaborators) (lit ".header"))
  /\ isSafeCssValue (env := Sample.collaborators) (lit "0") = true
  /\ exists h' kept,
       Css.Rule h' (lit ".header") kept ∈ filterCssRoot (env := Sample.collaborators) sa root
       /\ Css.Decl (lit "margin") (lit "0") ∈ kept.
Proof.
  intros sa nodes root.
  assert (NoDup (Css.walkRules root)) as Hnd
    by (apply (bool_decide_unpack _); vm_compute; exact I).
  assert (lit ".header"
            ∈ trim <$> ruleSelectors (Collaborators := Sample.collaborators) (lit ".header"))
    as Hsel by (vm_compute; apply list_elem_of_here).
  assert (toLowerCase (trim (lit "margin")) ∈ ({[ lit "margin" ]} : gset jsstring)) as Hprop
    by (apply elem_of_singleton; reflexivity).
  split; [exact Hnd|]. split; [exact Hsel|]. split; [reflexivity|].
  exact (proj1 (css_keeps_allowlisted (env := Sample.collaborators) sa)
           root 0%nat (lit ".header") nodes (lit ".header") {[ lit "margin" ]}
           (lit "margin") (lit "0") Hnd (list_elem_of_here _ _) Hsel eq_refl
           (list_elem_of_here _ _) Hprop eq_refl).
Defined.

(** ** Unwrapping, and the driver *)

Section UnwrapFacts.

Import Dom.

Lemma filter_all {A} (p : A -> bool) (l : list A) :
  (forall x, x ∈ l -> p x = true) -> List.filter p l = l.
Proof.
  induction l as [|x l IH]; intros Hp; [done|]. simpl.
  rewrite (Hp x) by left. f_equal. apply IH. intros y Hy. apply Hp. by right.
Qed.

(** Unwrapping an element that is no template element leaves the text of
    the document as it is. *)
Lemma unwrap_text (k : nat) (d : forest) :
  (forall t, (k, t) ∈ tagged d -> isTemplate t = false) ->
  flat_map textOf (unwrapElement k d) = flat_map textOf d.
Proof.
  unfold unwrapElement, subst.
  assert (forall l,
            Forall (fun n => (forall t, (k, t) ∈ tagged [n] -> isTemplate t = false) ->
                             flat_map textOf (substNode k childrenOf n) = textOf n) l ->
            (forall t, (k, t) ∈ tagged l -> isTemplate t = false) ->
            flat_map textOf (flat_map (substNode k childrenOf) l) = flat_map textOf l)
    as Hforest.
  { induction 1 as [|x l Hx _ IH]; intros Hk; [done|].
    rewrite (tagged_cons x l) in Hk. simpl. rewrite flat_map_app, Hx, IH; [done | |].
    - intros t Ht. apply Hk, elem_of_app. by right.
    - intros t Ht. apply Hk, elem_of_app. by left. }
  intros Hk. apply Hforest; [|done]. apply Forall_forall. intros n _. clear Hk.
  induction n as [s|s|h t a c IHc] using node_forall_ind;
    [intros _; simpl; by rewrite app_nil_r | done |].
  rewrite tagged_element. intros Hk. cbn [substNode].
  destruct (Nat.eqb_spec k h) as [->|Hne].
  - cbn [childrenOf textOf]. by rewrite (Hk t) by left.
  - cbn [flat_map textOf]. rewrite app_nil_r. destruct (isTemplate t); [done|].
    apply (Hforest c IHc). intros t' Ht'. apply Hk. by right.
Qed.

Lemma unwrap_tagged_filter (k : nat) (d : forest) :
  NoDup (elements d) ->
  tagged (unwrapElement k d) = List.filter (fun e => negb (Nat.eqb e.1 k)) (tagged d).
Proof.
  unfold unwrapElement, subst.
  set (p := fun e : nat * jsstring => negb (Nat.eqb e.1 k)).
  assert (forall l,
            Forall (fun n => NoDup (handlesOf n) ->
                             tagged (substNode k childrenOf n) = List.filter p (tagged [n])) l ->
            NoDup (elements l) ->
            tagged (flat_map (substNode k childrenOf) l) = List.filter p (tagged l))
    as Hforest.
  { induction 1 as [|x l Hx _ IH]; intros Hnd; [done|].
    unfold elements in Hnd. simpl in Hnd. apply NoDup_app in Hnd as (Hx1 & _ & Hl1).
    simpl. rewrite tagged_app, (tagged_cons x l), List.filter_app.
    by rewrite Hx, IH. }
  intros Hnd. apply Hforest; [|done]. apply Forall_forall. intros n _. clear Hnd.
  induction n as [s|s|h t a c IHc] using node_forall_ind; [done | done |].
  intros Hnd. simpl in Hnd. apply NoDup_cons in Hnd as [Hh Hc].
  assert (p (h, t) = negb (Nat.eqb h k)) as Hp by done.
  rewrite tagged_element. cbn [substNode List.filter]. rewrite Hp.
  destruct (Nat.eqb_spec k h) as [Heq|Hne].
  - subst h. rewrite Nat.eqb_refl. cbn [negb childrenOf]. symmetry. apply filter_all.
    intros [h' t'] Hin. unfold p. simpl. apply negb_true_iff, Nat.eqb_neq. intros ->.
    apply Hh. fold (elements c). rewrite elements_tagged.
    apply list_elem_of_fmap. by exists (k, t').
  - rewrite (proj2 (Nat.eqb_neq h k)) by congruence. cbn [negb].
    rewrite tagged_element. f_equal. by apply Hforest.
Qed.

(** X27: [unwrapElement] takes out the one element and nothing else: all
    other elements are there as before, in their order, where the elements
    inside the content of template elements count as elements of the tree;
    and the text of the document is as before, unless the element is a
    template element, whose content the text of the document did not hold. *)
Theorem unwrapElement_keeps_content (k : nat) (d : forest) :
  NoDup (elements d) ->
  tagged (unwrapElement k d) = List.filter (fun e => negb (Nat.eqb e.1 k)) (tagged d)
  /\ ((forall t, (k, t) ∈ tagged d -> isTemplate t = false) ->
      flat_map textOf (unwrapElement k d) = flat_map textOf d).
Proof. intros Hnd. split; [by apply unwrap_tagged_filter | apply unwrap_text]. Qed.

End UnwrapFacts.

Section DriverExtras.

Context {env : Collaborators}.

Lemma once_withMaxPasses (m : Z) (policy : CompiledPolicy) (c : jsstring) :
  sanitizeOnceWithPolicy c (withMaxPasses m policy) = sanitizeOnceWithPolicy c policy.
Proof. reflexivity. Qed.

Lemma passLoop_withMaxPasses (m : Z) (policy : CompiledPolicy) (n : nat)
    (c : jsstring) (ran : nat) :
  passLoop (withMaxPasses m policy) n c ran = passLoop policy n c ran.
Proof.
  revert c ran. induction n as [|n IH]; intros c ran; [done|].
  simpl. rewrite once_withMaxPasses. destruct (eqb _ c); [done | apply IH].
Qed.

(** A loop that stopped below its ceiling stops at the same text under a
    higher one. *)
Lemma passLoop_ceiling (policy : CompiledPolicy) (n n' : nat) (c : jsstring) (ran : nat) :
  (n <= n')%nat -> ((passLoop policy n c ran).2 < ran + n)%nat ->
  passLoop policy n' c ran = passLoop policy n c ran.
Proof.
  revert n' c ran. induction n as [|n IH]; intros n' c ran Hle Hlt.
  - simpl in Hlt. lia.
  - destruct n' as [|n']; [lia|]. simpl in *.
    destruct (eqb (sanitizeOnceWithPolicy c policy) c); [done|].
    apply IH; lia.
Qed.

(** X28: a run of [sanitizeWithPolicy] that stopped below its ceiling
    gives the same text, after the same number of passes, under every
    higher ceiling. *)
Theorem sanitizeWithPolicy_ceiling (html : jsstring) (policy : CompiledPolicy) (m m' : Z) :
  (m <= m')%Z ->
  (passesRun html (withMaxPasses m policy) < Z.to_nat m)%nat ->
  sanitizeWithPolicy html (withMaxPasses m' policy)
  = sanitizeWithPolicy html (withMaxPasses m policy)
  /\ passesRun html (withMaxPasses m' policy) = passesRun html (withMaxPasses m policy).
Proof.
  unfold sanitizeWithPolicy, passesRun, maxPassesOf. simpl.
  rewrite !passLoop_withMaxPasses. intros Hle Hlt.
  rewrite (passLoop_ceiling policy (Z.to_nat m) (Z.to_nat m') html 0); [done | lia | lia].
Qed.

(** X29: the order of the rules is of no consequence: rule lists that are
    permutations of each other compile to the same policy, and [sanitize]
    returns the same text for them. *)
Theorem sanitize_rule_order (html : jsstring) (rules rules' : list jsstring)
    (cfg : SanitizerConfig) :
  rules ≡ₚ rules' ->
  compileRules rules cfg = compileRules rules' cfg
  /\ sanitize html rules cfg = sanitize html rules' cfg.
Proof.
  intros Hperm.
  assert (compileRules rules cfg = compileRules rules' cfg) as Heq
    by by apply compileRules_order.
  split; [done|]. unfold sanitize. by rewrite Heq.
Qed.

End DriverExtras.

Lemma wrapped_handles_distinct : NoDup (Dom.elements Sample.wrappedTree).
Proof. apply (bool_decide_unpack _). vm_compute. exact I. Defined.

Lemma unwrapElement_keeps_content_witness :
  NoDup (Dom.elements Sample.wrappedTree)
  /\ tagged (Dom.unwrapElement 3 Sample.wrappedTree)
     = List.filter (fun e => negb (Nat.eqb e.1 3)) (tagged Sample.wrappedTree).
Proof.
  split; [exact wrapped_handles_distinct|].
  exact (proj1 (unwrapElement_keeps_content 3 Sample.wrappedTree wrapped_handles_distinct)).
Defined.

Lemma sanitizeWithPolicy_ceiling_witness :
  let policy := compileRules [lit "p"; lit "p"] emptyConfig in
  (5 <= 10)%Z
  /\ (passesRun (env := Sample.collaborators) Sample.nestedText (withMaxPasses 5 policy)
      < Z.to_nat 5)%nat
  /\ sanitizeWithPolicy (env := Sample.collaborators) Sample.nestedText
       (withMaxPasses 10 policy)
     = sanitizeWithPolicy (env := Sample.collaborators) Sample.nestedText
         (withMaxPasses 5 policy).
Proof.
  intros policy.
  assert (5 <= 10)%Z as Hle by lia.
  assert (passesRun (env := Sample.collaborators) Sample.nestedText (withMaxPasses 5 policy)
          < Z.to_nat 5)%nat as Hlt by (vm_compute; lia).
  split; [exact Hle|]. split; [exact Hlt|].
  exact (proj1 (sanitizeWithPolicy_ceiling (env := Sample.collaborators) Sample.nestedText
                  policy 5 10 Hle Hlt)).
Defined.

Lemma sanitize_rule_order_witness :
  let rules := [lit "a|href"; lit "a"; lit "p"] in
  let rules' := [lit "a"; lit "a|href"; lit "p"] in
  rules ≡ₚ rules'
  /\ sanitize (env := Sample.collaborators) Sample.nestedText rules emptyConfig
     = sanitize (env := Sample.collaborators) Sample.nestedText rules' emptyConfig.
Proof.
  intros rules rules'.
  assert (rules ≡ₚ rules') as Hperm by apply perm_swap.
  split; [exact Hperm|].
  exact (proj2 (sanitize_rule_order (env := Sample.collaborators) Sample.nestedText
                  rules rules' emptyConfig Hperm)).
Defined.

(** ** Style elements *)

Section StyleElement.

Context {env : Collaborators}.

Import Dom.

(** A replacement that keeps the element and its tag leaves it where it
    is. *)
Lemma findElement_subst_same (k : nat) (f : node -> list node)
    (ga : list (jsstring * jsstring) -> list (jsstring * jsstring))
    (gc : list node -> list node) (d : forest) (n : node) :
  (forall h t a c, f (Element h t a c) = [Element h t (ga a) (gc c)]) ->
  findElement k d = Some n ->
  exists t a c, n = Element k t a c
    /\ findElement k (subst k f d) = Some (Element k t (ga a) (gc c)).
Proof.
  intros Hf.
  set (ok := fun (found : option node) (after : forest) =>
               match found with
               | Some m => exists t a c, m = Element k t a c
                             /\ findElement k after = Some (Element k t (ga a) (gc c))
               | None => findElement k after = None
               end).
  assert (forall l, Forall (fun x => ok (findNode k x) (substNode k f x)) l ->
                    ok (findElement k l) (flat_map (substNode k f) l)) as Hforest.
  { induction 1 as [|x l Hx _ IH]; [done|].
    simpl. unfold ok in *. rewrite findElement_app.
    destruct (findNode k x) as [m|].
    - destruct Hx as (t & a & c & -> & Hfind). exists t, a, c. by rewrite Hfind.
    - rewrite Hx. exact IH. }
  assert (forall x, ok (findNode k x) (substNode k f x)) as Hnode.
  { induction x as [s|s|h t a c IHc] using node_forall_ind; [done | done |].
    rewrite findNode_element. cbn [substNode].
    destruct (Nat.eqb_spec k h) as [->|Hne].
    - exists t, a, c. split; [done|]. rewrite Hf. simpl. by rewrite Nat.eqb_refl.
    - specialize (Hforest c IHc). unfold ok in *.
      rewrite findElement_singleton, findNode_element.
      destruct (Nat.eqb_spec k h); [done|]. exact Hforest. }
  intros Hfind.
  assert (ok (findElement k d) (subst k f d)) as Hok.
  { apply Hforest, Forall_forall. intros x _. apply Hnode. }
  unfold ok in Hok. by rewrite Hfind in Hok.
Qed.

(** X30: [filterStyleElement] either takes the element out, when the
    filtered sheet is empty or all white space, or leaves it where it is
    with the filtered sheet as its only text. *)
Theorem filterStyleElement_outcome (h : nat) (n : node)
    (sa : gmap jsstring (gset jsstring)) (d : forest) :
  findElement h d = Some n ->
  let filtered := filterCss (textContent n) sa in
  (trim filtered = [] /\ h ∉ elements (filterStyleElement h n sa d))
  \/ (trim filtered <> []
      /\ exists t a c, n = Element h t a c
           /\ findElement h (filterStyleElement h n sa d)
              = Some (Element h t a [Text filtered])).
Proof.
  intros Hfind filtered. unfold filterStyleElement. fold filtered.
  case_bool_decide as Hblank.
  - left. split; [by apply length_zero_iff_nil | apply remove_absent].
  - right. split; [intros Hnil; apply Hblank; by rewrite Hnil|].
    unfold setTextContent.
    apply (findElement_subst_same h _ (fun a => a) (fun _ => [Text filtered]) d n);
      [done | exact Hfind].
Qed.

End StyleElement.

Lemma filterStyleElement_outcome_witness :
  let sheet := lit ".header{margin:0;padding:2px}" in
  let element := Dom.Element 3 (lit "STYLE") [] [Dom.Text sheet] in
  let d := Sample.page [element] in
  let sa : gmap jsstring (gset jsstring) := {[ lit ".header" := {[ lit "margin" ]} ]} in
  Dom.findElement 3 d = Some element
  /\ Dom.findElement 3 (filterStyleElement (env := Sample.collaborators) 3 element sa d)
     = Some (Dom.Element 3 (lit "STYLE") []
               [Dom.Text (lit ".header {margin:0" ++ Sample.lineFeed ++ lit "}")]).
Proof.
  intros sheet element d sa.
  assert (Dom.findElement 3 d = Some element) as Hfind by reflexivity.
  split; [exact Hfind|].
  destruct (filterStyleElement_outcome (env := Sample.collaborators) 3 element sa d Hfind)
    as [[Hblank _]|(_ & t & a & c & Heq & Hfound)].
  - vm_compute in Hblank. discriminate Hblank.
  - injection Heq as <- <- <-. rewrite Hfound. vm_compute. reflexivity.
Defined.
